(** * KivyMD elevation behaviour and theme manager: a shallow embedding

    The development follows two modules of the repository:
    - [kivymd/uix/behaviors/elevation.py]: [CommonElevationBehavior], its
      shadow geometry, the shadow-group registry of weak references;
    - [kivymd/theming.py]: [ThemeManager], its colour schemes and the
      light/dark style switch.

    Python numbers are modelled as rationals ([Q]); [int(x)] is the
    truncation towards zero and [a // b] the floor of the quotient.
    A method that mutates [self] is a function from the state to a
    [result] that keeps the state reached when an exception is raised:
    Python does not roll back the assignments made before a [raise]. *)

From Stdlib Require Import ZArith QArith Qround Ascii String List Lia Lqa.
From stdpp Require Import gmap strings list fin_maps pretty.
Import ListNotations.

Open Scope Z_scope.

(** ** Exceptions and the state-and-exception monad *)

Inductive exn :=
| NotImplementedError
| KeyError
| AttributeError
| IndexError
| ValueError
| TypeError
| UnboundLocalError
| SyntaxError.

Inductive result (S A : Type) :=
| Ok (a : A) (s : S)
| Raise (e : exn) (s : S).

Arguments Ok {S A} a s.
Arguments Raise {S A} e s.

Definition M (S A : Type) : Type := S -> result S A.

Definition ret {S A} (a : A) : M S A := fun s => Ok a s.

Definition bind {S A B} (m : M S A) (k : A -> M S B) : M S B :=
  fun s => match m s with
           | Ok a s' => k a s'
           | Raise e s' => Raise e s'
           end.

Definition raise {S A} (e : exn) : M S A := fun s => Raise e s.
Definition get {S} : M S S := fun s => Ok s s.
Definition put {S} (s : S) : M S unit := fun _ => Ok tt s.
Definition modify {S} (f : S -> S) : M S unit := fun s => Ok tt (f s).

(** The state a computation leaves behind, whether it returned or raised. *)
Definition final_state {S A} (r : result S A) : S :=
  match r with Ok _ s => s | Raise _ s => s end.

Definition returns {S A} (r : result S A) : bool :=
  match r with Ok _ _ => true | Raise _ _ => false end.

Declare Scope py_scope.
Delimit Scope py_scope with py.
Notation "'do' x <- m ; k" := (bind m (fun x => k))
  (at level 10, x name, m at level 100, k at level 200) : py_scope.
Notation "m ;; k" := (bind m (fun _ => k))
  (at level 100, k at level 200, right associativity, only parsing) : py_scope.

(** ** Python numbers *)

(** [int(q)]: truncation towards zero. *)
Definition int (q : Q) : Z := Z.quot (Qnum q) (Z.pos (Qden q)).

(** [a // b] on numbers: floor of the quotient. *)
Definition floordiv (a b : Q) : Q := inject_Z (Qfloor (a / b)).

(** [a == b] on numbers. *)
Definition num_eqb (a b : Q) : bool := Qeq_bool a b.

(** [a < b] on numbers. *)
Definition num_ltb (a b : Q) : bool :=
  if Qlt_le_dec a b then true else false.

(** [p == [a, b]] for a two-element list property. *)
Definition pair_eqb (p q : Q * Q) : bool :=
  num_eqb (fst p) (fst q) && num_eqb (snd p) (snd q).

(** [max((a, b))]. *)
Definition max2 (a b : Q) : Q := if num_ltb a b then b else a.

(** ** [kivymd/uix/behaviors/elevation.py] *)

Module Elevation.

(** *** Images drawn with Pillow

    An image is kept symbolically: its pixel size, the drawing calls made on
    its [ImageDraw] context and the radius of the Gaussian blur applied to
    it.  [Image.new("RGBA", size, color=(0, 0, 0, 0))] is the image of that
    size with no drawing call: every pixel is transparent. *)

Inductive draw_op :=
| rectangle (box : list Q)
| ellipse (box : list Q)
| pieslice (box : list Q) (start stop : Z).

Record image := mk_image {
  im_size : Z * Z;
  im_ops : list draw_op;
  im_blur : option Q
}.

Definition Image_new (size : Z * Z) : image :=
  {| im_size := size; im_ops := []; im_blur := None |}.

Definition im_draw (ops : list draw_op) (im : image) : image :=
  {| im_size := im_size im; im_ops := im_ops im ++ ops; im_blur := im_blur im |}.

Definition GaussianBlur (r : Q) (im : image) : image :=
  {| im_size := im_size im; im_ops := im_ops im; im_blur := Some r |}.

(** [Image.new("RGBA", (4, 4), color=(0, 0, 0, 0))], the texture of a widget
    without a shadow. *)
Definition placeholder : image := Image_new (4, 4).

Definition fully_transparent (im : image) : Prop := im_ops im = [].

(** *** The widget

    [draw_shadow] holds the weak method to the class's [__draw_shadow__];
    the four classes of the module differ only by it. *)

Inductive shadow_class :=
| CommonElevationBehavior
| RectangularElevationBehavior
| CircularElevationBehavior
| RoundedRectangularElevationBehavior.

(** The properties of [CommonElevationBehavior] and the [Widget] properties
    it reads.  A two-element [ListProperty] is a pair; [radius], a
    [VariableListProperty] of length four, is a quadruple; [elevation] may be
    [None] as far as the code tests for it. *)
Record Widget := mk_widget {
  x : Q;
  y : Q;
  size : Q * Q;
  disabled : bool;
  elevation : option Q;
  angle : Q;
  radius : Q * Q * Q * Q;
  _shadow_origin : Q * Q;
  _shadow_pos : Q * Q;
  shadow_pos : Q * Q;
  shadow_group : string;
  prev_shadow_group : option string;
  _elevation : Q;
  _soft_shadow_texture : image;
  soft_shadow_size : Z * Z;
  soft_shadow_pos : Q * Q;
  soft_shadow_cl : list Q;
  hard_shadow_texture : image;
  hard_shadow_size : Z * Z;
  hard_shadow_pos : Q * Q;
  hard_shadow_cl : list Q;
  hard_shadow_offset : Q;
  soft_shadow_offset : Q;
  draw_shadow : shadow_class;
  (** [shadow_preset] has bound [_elevation] to [_update_shadow]. *)
  elevation_bound : bool
}.

Definition set_hard_shadow_pos v (w : Widget) : Widget :=
  mk_widget (x w) (y w) (size w) (disabled w) (elevation w) (angle w) (radius w)
    (_shadow_origin w) (_shadow_pos w) (shadow_pos w) (shadow_group w)
    (prev_shadow_group w) (_elevation w) (_soft_shadow_texture w)
    (soft_shadow_size w) (soft_shadow_pos w) (soft_shadow_cl w)
    (hard_shadow_texture w) (hard_shadow_size w) v (hard_shadow_cl w)
    (hard_shadow_offset w) (soft_shadow_offset w) (draw_shadow w)
    (elevation_bound w).

Definition set_soft_shadow_pos v (w : Widget) : Widget :=
  mk_widget (x w) (y w) (size w) (disabled w) (elevation w) (angle w) (radius w)
    (_shadow_origin w) (_shadow_pos w) (shadow_pos w) (shadow_group w)
    (prev_shadow_group w) (_elevation w) (_soft_shadow_texture w)
    (soft_shadow_size w) v (soft_shadow_cl w)
    (hard_shadow_texture w) (hard_shadow_size w) (hard_shadow_pos w)
    (hard_shadow_cl w) (hard_shadow_offset w) (soft_shadow_offset w)
    (draw_shadow w) (elevation_bound w).

Definition set__shadow_origin v (w : Widget) : Widget :=
  mk_widget (x w) (y w) (size w) (disabled w) (elevation w) (angle w) (radius w)
    v (_shadow_pos w) (shadow_pos w) (shadow_group w)
    (prev_shadow_group w) (_elevation w) (_soft_shadow_texture w)
    (soft_shadow_size w) (soft_shadow_pos w) (soft_shadow_cl w)
    (hard_shadow_texture w) (hard_shadow_size w) (hard_shadow_pos w)
    (hard_shadow_cl w) (hard_shadow_offset w) (soft_shadow_offset w)
    (draw_shadow w) (elevation_bound w).

Definition store__shadow_pos v (w : Widget) : Widget :=
  mk_widget (x w) (y w) (size w) (disabled w) (elevation w) (angle w) (radius w)
    (_shadow_origin w) v (shadow_pos w) (shadow_group w)
    (prev_shadow_group w) (_elevation w) (_soft_shadow_texture w)
    (soft_shadow_size w) (soft_shadow_pos w) (soft_shadow_cl w)
    (hard_shadow_texture w) (hard_shadow_size w) (hard_shadow_pos w)
    (hard_shadow_cl w) (hard_shadow_offset w) (soft_shadow_offset w)
    (draw_shadow w) (elevation_bound w).

Definition store_shadow_pos v (w : Widget) : Widget :=
  mk_widget (x w) (y w) (size w) (disabled w) (elevation w) (angle w) (radius w)
    (_shadow_origin w) (_shadow_pos w) v (shadow_group w)
    (prev_shadow_group w) (_elevation w) (_soft_shadow_texture w)
    (soft_shadow_size w) (soft_shadow_pos w) (soft_shadow_cl w)
    (hard_shadow_texture w) (hard_shadow_size w) (hard_shadow_pos w)
    (hard_shadow_cl w) (hard_shadow_offset w) (soft_shadow_offset w)
    (draw_shadow w) (elevation_bound w).

Definition store_shadow_group v (w : Widget) : Widget :=
  mk_widget (x w) (y w) (size w) (disabled w) (elevation w) (angle w) (radius w)
    (_shadow_origin w) (_shadow_pos w) (shadow_pos w) v
    (prev_shadow_group w) (_elevation w) (_soft_shadow_texture w)
    (soft_shadow_size w) (soft_shadow_pos w) (soft_shadow_cl w)
    (hard_shadow_texture w) (hard_shadow_size w) (hard_shadow_pos w)
    (hard_shadow_cl w) (hard_shadow_offset w) (soft_shadow_offset w)
    (draw_shadow w) (elevation_bound w).

Definition set_prev_shadow_group v (w : Widget) : Widget :=
  mk_widget (x w) (y w) (size w) (disabled w) (elevation w) (angle w) (radius w)
    (_shadow_origin w) (_shadow_pos w) (shadow_pos w) (shadow_group w)
    v (_elevation w) (_soft_shadow_texture w)
    (soft_shadow_size w) (soft_shadow_pos w) (soft_shadow_cl w)
    (hard_shadow_texture w) (hard_shadow_size w) (hard_shadow_pos w)
    (hard_shadow_cl w) (hard_shadow_offset w) (soft_shadow_offset w)
    (draw_shadow w) (elevation_bound w).

Definition store__elevation v (w : Widget) : Widget :=
  mk_widget (x w) (y w) (size w) (disabled w) (elevation w) (angle w) (radius w)
    (_shadow_origin w) (_shadow_pos w) (shadow_pos w) (shadow_group w)
    (prev_shadow_group w) v (_soft_shadow_texture w)
    (soft_shadow_size w) (soft_shadow_pos w) (soft_shadow_cl w)
    (hard_shadow_texture w) (hard_shadow_size w) (hard_shadow_pos w)
    (hard_shadow_cl w) (hard_shadow_offset w) (soft_shadow_offset w)
    (draw_shadow w) (elevation_bound w).

Definition store_elevation v (w : Widget) : Widget :=
  mk_widget (x w) (y w) (size w) (disabled w) v (angle w) (radius w)
    (_shadow_origin w) (_shadow_pos w) (shadow_pos w) (shadow_group w)
    (prev_shadow_group w) (_elevation w) (_soft_shadow_texture w)
    (soft_shadow_size w) (soft_shadow_pos w) (soft_shadow_cl w)
    (hard_shadow_texture w) (hard_shadow_size w) (hard_shadow_pos w)
    (hard_shadow_cl w) (hard_shadow_offset w) (soft_shadow_offset w)
    (draw_shadow w) (elevation_bound w).

Definition store_disabled v (w : Widget) : Widget :=
  mk_widget (x w) (y w) (size w) v (elevation w) (angle w) (radius w)
    (_shadow_origin w) (_shadow_pos w) (shadow_pos w) (shadow_group w)
    (prev_shadow_group w) (_elevation w) (_soft_shadow_texture w)
    (soft_shadow_size w) (soft_shadow_pos w) (soft_shadow_cl w)
    (hard_shadow_texture w) (hard_shadow_size w) (hard_shadow_pos w)
    (hard_shadow_cl w) (hard_shadow_offset w) (soft_shadow_offset w)
    (draw_shadow w) (elevation_bound w).

Definition set_hard_shadow size tex (w : Widget) : Widget :=
  mk_widget (x w) (y w) (Elevation.size w) (disabled w) (elevation w) (angle w)
    (radius w) (_shadow_origin w) (_shadow_pos w) (shadow_pos w) (shadow_group w)
    (prev_shadow_group w) (_elevation w) (_soft_shadow_texture w)
    (soft_shadow_size w) (soft_shadow_pos w) (soft_shadow_cl w)
    tex size (hard_shadow_pos w)
    (hard_shadow_cl w) (hard_shadow_offset w) (soft_shadow_offset w)
    (draw_shadow w) (elevation_bound w).

Definition set_soft_shadow size tex (w : Widget) : Widget :=
  mk_widget (x w) (y w) (Elevation.size w) (disabled w) (elevation w) (angle w)
    (radius w) (_shadow_origin w) (_shadow_pos w) (shadow_pos w) (shadow_group w)
    (prev_shadow_group w) (_elevation w) tex
    size (soft_shadow_pos w) (soft_shadow_cl w)
    (hard_shadow_texture w) (hard_shadow_size w) (hard_shadow_pos w)
    (hard_shadow_cl w) (hard_shadow_offset w) (soft_shadow_offset w)
    (draw_shadow w) (elevation_bound w).

Definition set_textures soft hard (w : Widget) : Widget :=
  mk_widget (x w) (y w) (size w) (disabled w) (elevation w) (angle w) (radius w)
    (_shadow_origin w) (_shadow_pos w) (shadow_pos w) (shadow_group w)
    (prev_shadow_group w) (_elevation w) soft
    (soft_shadow_size w) (soft_shadow_pos w) (soft_shadow_cl w)
    hard (hard_shadow_size w) (hard_shadow_pos w)
    (hard_shadow_cl w) (hard_shadow_offset w) (soft_shadow_offset w)
    (draw_shadow w) (elevation_bound w).

Definition set_soft_shadow_cl v (w : Widget) : Widget :=
  mk_widget (x w) (y w) (size w) (disabled w) (elevation w) (angle w) (radius w)
    (_shadow_origin w) (_shadow_pos w) (shadow_pos w) (shadow_group w)
    (prev_shadow_group w) (_elevation w) (_soft_shadow_texture w)
    (soft_shadow_size w) (soft_shadow_pos w) v
    (hard_shadow_texture w) (hard_shadow_size w) (hard_shadow_pos w)
    (hard_shadow_cl w) (hard_shadow_offset w) (soft_shadow_offset w)
    (draw_shadow w) (elevation_bound w).

Definition set_hard_shadow_cl v (w : Widget) : Widget :=
  mk_widget (x w) (y w) (size w) (disabled w) (elevation w) (angle w) (radius w)
    (_shadow_origin w) (_shadow_pos w) (shadow_pos w) (shadow_group w)
    (prev_shadow_group w) (_elevation w) (_soft_shadow_texture w)
    (soft_shadow_size w) (soft_shadow_pos w) (soft_shadow_cl w)
    (hard_shadow_texture w) (hard_shadow_size w) (hard_shadow_pos w)
    v (hard_shadow_offset w) (soft_shadow_offset w)
    (draw_shadow w) (elevation_bound w).

Definition set_elevation_bound v (w : Widget) : Widget :=
  mk_widget (x w) (y w) (size w) (disabled w) (elevation w) (angle w) (radius w)
    (_shadow_origin w) (_shadow_pos w) (shadow_pos w) (shadow_group w)
    (prev_shadow_group w) (_elevation w) (_soft_shadow_texture w)
    (soft_shadow_size w) (soft_shadow_pos w) (soft_shadow_cl w)
    (hard_shadow_texture w) (hard_shadow_size w) (hard_shadow_pos w)
    (hard_shadow_cl w) (hard_shadow_offset w) (soft_shadow_offset w)
    (draw_shadow w) v.

(** A widget of class [c] with the default value of every property, in the
    state the assignments of [__init__] to [self] leave it: no previous
    shadow group, both textures the placeholder. *)
Definition new_widget (c : shadow_class) : Widget :=
  {| x := 0; y := 0; size := (100, 100)%Q; disabled := false;
     elevation := Some 0%Q; angle := 0; radius := (0, 0, 0, 0)%Q;
     _shadow_origin := (0, 0)%Q; _shadow_pos := (0, 0)%Q;
     shadow_pos := (0, 0)%Q; shadow_group := "global";
     prev_shadow_group := None; _elevation := 0;
     _soft_shadow_texture := placeholder; soft_shadow_size := (0, 0);
     soft_shadow_pos := (0, 0)%Q; soft_shadow_cl := [0; 0; 0; 1 # 2]%Q;
     hard_shadow_texture := placeholder; hard_shadow_size := (0, 0);
     hard_shadow_pos := (0, 0)%Q; hard_shadow_cl := [0; 0; 0; 15 # 100]%Q;
     hard_shadow_offset := 2; soft_shadow_offset := 4;
     draw_shadow := c; elevation_bound := false |}.

(** A rectangular widget of 10.5 by 10 pixels raised to elevation 1, its
    other properties at their defaults. *)
Definition raised_widget : Widget :=
  {| x := 0; y := 0; size := (21 # 2, 10)%Q; disabled := false;
     elevation := Some 1%Q; angle := 0; radius := (0, 0, 0, 0)%Q;
     _shadow_origin := (0, 0)%Q; _shadow_pos := (0, 0)%Q;
     shadow_pos := (0, 0)%Q; shadow_group := "global";
     prev_shadow_group := Some "global"%string; _elevation := 1;
     _soft_shadow_texture := placeholder; soft_shadow_size := (0, 0);
     soft_shadow_pos := (0, 0)%Q; soft_shadow_cl := [0; 0; 0; 1 # 2]%Q;
     hard_shadow_texture := placeholder; hard_shadow_size := (0, 0);
     hard_shadow_pos := (0, 0)%Q; hard_shadow_cl := [0; 0; 0; 15 # 100]%Q;
     hard_shadow_offset := 2; soft_shadow_offset := 4;
     draw_shadow := RectangularElevationBehavior; elevation_bound := false |}.

(** A rounded widget of 20 by 20 pixels with corner radii 2, 2, 2 and 3,
    its other properties at their defaults. *)
Definition rounded_widget : Widget :=
  {| x := 0; y := 0; size := (20, 20)%Q; disabled := false;
     elevation := Some 0%Q; angle := 0; radius := (2, 2, 2, 3)%Q;
     _shadow_origin := (0, 0)%Q; _shadow_pos := (0, 0)%Q;
     shadow_pos := (0, 0)%Q; shadow_group := "global";
     prev_shadow_group := Some "global"%string; _elevation := 0;
     _soft_shadow_texture := placeholder; soft_shadow_size := (0, 0);
     soft_shadow_pos := (0, 0)%Q; soft_shadow_cl := [0; 0; 0; 1 # 2]%Q;
     hard_shadow_texture := placeholder; hard_shadow_size := (0, 0);
     hard_shadow_pos := (0, 0)%Q; hard_shadow_cl := [0; 0; 0; 15 # 100]%Q;
     hard_shadow_offset := 2; soft_shadow_offset := 4;
     draw_shadow := RoundedRectangularElevationBehavior;
     elevation_bound := false |}.

(** The properties a shadow update reads but never writes. *)
Definition same_inputs (w w' : Widget) : Prop :=
  x w' = x w /\ y w' = y w /\ size w' = size w /\
  disabled w' = disabled w /\ elevation w' = elevation w /\
  radius w' = radius w /\ shadow_pos w' = shadow_pos w /\
  shadow_group w' = shadow_group w /\
  prev_shadow_group w' = prev_shadow_group w /\
  _elevation w' = _elevation w /\
  soft_shadow_cl w' = soft_shadow_cl w /\
  hard_shadow_cl w' = hard_shadow_cl w /\
  hard_shadow_offset w' = hard_shadow_offset w /\
  soft_shadow_offset w' = soft_shadow_offset w /\
  draw_shadow w' = draw_shadow w /\
  elevation_bound w' = elevation_bound w.

(** What [on_disabled] reads besides the current elevation. *)
Definition same_config (w w' : Widget) : Prop :=
  disabled w' = disabled w /\ elevation w' = elevation w /\
  draw_shadow w' = draw_shadow w /\ elevation_bound w' = elevation_bound w.

(** *** Drawing hooks: [__draw_shadow__] of the four classes *)

Definition white_rect (origin end_ : Q * Q) : draw_op :=
  rectangle [fst origin; snd origin; fst end_; snd end_].

Definition __draw_shadow__ (w : Widget) (origin end_ : Q * Q)
  : M Widget (list draw_op) :=
  match draw_shadow w with
  | CommonElevationBehavior => raise NotImplementedError
  | RectangularElevationBehavior => ret [white_rect origin end_]
  | CircularElevationBehavior =>
      ret [ellipse [fst origin; snd origin; fst end_; snd end_]]
  | RoundedRectangularElevationBehavior =>
      let '(r0, r1, r2, r3) := radius w in
      let '(o0, o1) := origin in
      let '(e0, e1) := end_ in
      if num_eqb r0 0 && num_eqb r1 0 && num_eqb r2 0 && num_eqb r3 0 then
        ret [white_rect origin end_]
      else
        let d0 := (r0 * 2)%Q in
        let d1 := (r1 * 2)%Q in
        let d2 := (r2 * 2)%Q in
        let d3 := (r3 * 2)%Q in
        let corners :=
          [ pieslice [o0; o1; o0 + d0; o1 + d0]%Q 180 270;
            pieslice [e0 - d1; o1; e0; o1 + d1]%Q 270 360;
            pieslice [e0 - d2; e1 - d2; e0; e1]%Q 0 90;
            pieslice [o0; e1 - d3; o0 + d3; e1]%Q 90 180 ] in
        if num_eqb r0 r0 && num_eqb r1 r0 && num_eqb r2 r0 && num_eqb r3 r0 then
          let r := inject_Z (int r0) in
          ret (corners ++
               [ rectangle [o0 + r; o1; e0 - r; e1]%Q;
                 rectangle [o0; o1 + r; e0; e1 - r]%Q ])
        else
          let m0 := max2 r0 r1 in
          let m1 := max2 r1 r2 in
          let m2 := max2 r2 r3 in
          let m3 := max2 r3 r0 in
          ret (corners ++
               [ rectangle [o0 + r0; o1; e0 - r1; e1 - m2]%Q;
                 rectangle [o0 + m3; o1 + r1; e0; e1 - r2]%Q;
                 rectangle [o0 + r3; o1 + m0; e0 - r2; e1]%Q;
                 rectangle [o0; o1 + r0; e0 - m2; e1 - r3]%Q ])
  end.

(** The bounding box [[x0, y0, x1, y1]] a drawing call is given. *)
Definition op_box (op : draw_op) : list Q :=
  match op with
  | rectangle box => box
  | ellipse box => box
  | pieslice box _ _ => box
  end.

(** A bounding box whose corners are in order and which lies between the
    corners [origin] and [end_] of a drawing area. *)
Definition box_inside (origin end_ : Q * Q) (box : list Q) : Prop :=
  match box with
  | [x0; y0; x1; y1] =>
      (fst origin <= x0)%Q /\ (x0 <= x1)%Q /\ (x1 <= fst end_)%Q /\
      (snd origin <= y0)%Q /\ (y0 <= y1)%Q /\ (y1 <= snd end_)%Q
  | _ => False
  end.

Section WithMetrics.

(** [kivy.metrics.dp]: density-independent pixels to pixels. *)
Variable dp : Q -> Q.

Definition _update_shadow_pos (w : Widget) : Widget :=
  let w := set_hard_shadow_pos
             (x w - dp (hard_shadow_offset w),
              y w - dp (hard_shadow_offset w))%Q w in
  let w :=
    if pair_eqb (shadow_pos w) (0, 0)%Q then
      set_soft_shadow_pos
        (x w + fst (_shadow_pos w) - _elevation w - dp (soft_shadow_offset w),
         y w + snd (_shadow_pos w) - _elevation w - dp (soft_shadow_offset w))%Q
        w
    else
      set_soft_shadow_pos
        (x w + fst (shadow_pos w) - _elevation w - dp (soft_shadow_offset w),
         y w + snd (shadow_pos w) - _elevation w - dp (soft_shadow_offset w))%Q
        w in
  set__shadow_origin
    (fst (soft_shadow_pos w) + inject_Z (fst (soft_shadow_size w)) / 2,
     snd (soft_shadow_pos w) + inject_Z (snd (soft_shadow_size w)) / 2)%Q w.

(** [self._shadow_pos = v]: the property stores [v] and, when the value
    changed, dispatches [on__shadow_pos], which calls [_update_shadow_pos]. *)
Definition set__shadow_pos (v : Q * Q) (w : Widget) : Widget :=
  if pair_eqb (_shadow_pos w) v then w
  else _update_shadow_pos (store__shadow_pos v w).

(** [self.shadow_pos = v], with [on_shadow_pos]. *)
Definition set_shadow_pos (v : Q * Q) (w : Widget) : Widget :=
  if pair_eqb (shadow_pos w) v then w
  else _update_shadow_pos (store_shadow_pos v w).

(** The widget on which the two shadows are drawn when the elevation is
    positive: positions updated, elevation-dependent offset stored. *)
Definition positioned (w : Widget) : Widget :=
  let w1 := _update_shadow_pos w in
  if pair_eqb (shadow_pos w1) (0, 0)%Q
  then set__shadow_pos (0, - _elevation w1 * (4 # 10))%Q w1
  else w1.

Definition hard_texture_size (w : Widget) : Z * Z :=
  let offset := int (dp (hard_shadow_offset w)) in
  (int (fst (size w) + inject_Z (offset * 2)),
   int (snd (size w) + inject_Z (offset * 2))).

Definition soft_texture_size (w : Widget) : Z * Z :=
  let offset := dp (soft_shadow_offset w) in
  (int (fst (size w) + dp (_elevation w * 2) + offset * 2),
   int (snd (size w) + dp (_elevation w * 2) + offset * 2)).

Definition _update_shadow : M Widget unit :=
  (modify _update_shadow_pos;;
   do w <- get;
   if num_ltb 0 (_elevation w) then
     (if pair_eqb (shadow_pos w) (0, 0)%Q
      then modify (set__shadow_pos (0, - _elevation w * (4 # 10))%Q)
      else ret tt);;
     do w <- get;
     (* hard shadow *)
     let offset := int (dp (hard_shadow_offset w)) in
     let size := hard_texture_size w in
     let img := Image_new size in
     do ops <- __draw_shadow__ w
                 (inject_Z offset, inject_Z offset)
                 (inject_Z (int (inject_Z (fst size - 1 - offset))),
                  inject_Z (int (inject_Z (snd size - 1 - offset))));
     let img := im_draw ops img in
     let img :=
       GaussianBlur
         (inject_Z (int (dp (1 + hard_shadow_offset w / 3)))) img in
     modify (set_hard_shadow size img);;
     (* soft shadow *)
     do w <- get;
     let offset := dp (soft_shadow_offset w) in
     let size := soft_texture_size w in
     let img := Image_new size in
     let _offset := int (dp (_elevation w + offset)) in
     do ops <- __draw_shadow__ w
                 (inject_Z _offset, inject_Z _offset)
                 (inject_Z (int (inject_Z (fst size - _offset - 1))),
                  inject_Z (int (inject_Z (snd size - _offset - 1))));
     let img := im_draw ops img in
     let img := GaussianBlur (floordiv (_elevation w) 2) img in
     modify (set_soft_shadow size img)
   else
     modify (set_textures placeholder placeholder))%py.

(** [self._elevation = v]: after [shadow_preset] the property is bound to
    [_update_shadow], called when the value changed. *)
Definition set__elevation (v : Q) : M Widget unit :=
  (do w <- get;
   if num_eqb (_elevation w) v then ret tt
   else
     modify (store__elevation v);;
     if elevation_bound w then _update_shadow else ret tt)%py.

Definition on_elevation (value : option Q) : M Widget unit :=
  match value with
  | Some v => set__elevation v
  | None => ret tt
  end.

(** [self.elevation = v], with [on_elevation]: a
    [BoundedNumericProperty(0, min=0)] refuses [None] and negative numbers. *)
Definition set_elevation (v : option Q) : M Widget unit :=
  (do w <- get;
   match v with
   | None => raise ValueError
   | Some b =>
       if num_ltb b 0 then raise ValueError
       else
         let same := match elevation w with
                     | Some a => num_eqb a b
                     | None => false
                     end in
         if same then ret tt
         else modify (store_elevation v);; on_elevation v
   end)%py.

Definition shadow_preset : M Widget unit :=
  (do w <- get;
   (match elevation w with
    | None => set_elevation (Some 10%Q)
    | Some _ => ret tt
    end);;
   _update_shadow;;
   modify (set_elevation_bound true))%py.

(** [lst[-1] = value] *)
Definition set_last (value : Q) (lst : list Q) : option (list Q) :=
  match lst with
  | [] => None
  | _ => Some (<[Nat.pred (length lst) := value]> lst)
  end.

Definition clamp01 (value : Q) : Q :=
  if num_ltb value 0 then 0%Q else if num_ltb 1 value then 1%Q else value.

Definition _set_soft_shadow_a (value : Q) : M Widget bool :=
  (let value := clamp01 value in
   do w <- get;
   match set_last value (soft_shadow_cl w) with
   | Some cl => modify (set_soft_shadow_cl cl);; ret true
   | None => raise IndexError
   end)%py.

Definition _set_hard_shadow_a (value : Q) : M Widget bool :=
  (let value := clamp01 value in
   do w <- get;
   match set_last value (hard_shadow_cl w) with
   | Some cl => modify (set_hard_shadow_cl cl);; ret true
   | None => raise IndexError
   end)%py.

Definition _get_soft_shadow_a : M Widget Q :=
  (do w <- get;
   match last (soft_shadow_cl w) with
   | Some a => ret a
   | None => raise IndexError
   end)%py.

Definition _get_hard_shadow_a : M Widget Q :=
  (do w <- get;
   match last (hard_shadow_cl w) with
   | Some a => ret a
   | None => raise IndexError
   end)%py.

(** [on_disabled]; the [super().on_disabled] call is wrapped in a
    [try ... except Exception: pass] and changes none of these properties. *)
Definition on_disabled : M Widget unit :=
  (do w <- get;
   (if disabled w then set__elevation 0%Q
    else set__elevation (match elevation w with
                         | None => 0%Q
                         | Some e => e
                         end));;
   _update_shadow)%py.

(** [self.disabled = value], with [on_disabled]. *)
Definition set_disabled (value : bool) : M Widget unit :=
  (do w <- get;
   if Bool.eqb (disabled w) value then ret tt
   else modify (store_disabled value);; on_disabled)%py.

Definition _update_elevation (value : Q) : M Widget unit :=
  (set__elevation value;; _update_shadow)%py.

End WithMetrics.

(** *** Weak references and the shadow-group registry

    Widgets live in a heap under their identity; a widget that was
    deallocated is absent from it.  A weak reference is an object of its own
    (its identity is [wk_id]) that remembers its referent's identity.
    [__shadow_groups] is the class-level dictionary, kept in insertion order
    because [_clear_shadow_groups] walks it in that order. *)

Record weakref := mk_ref { wk_id : nat; wk_target : nat }.

Record World := mk_world {
  heap : gmap nat Widget;
  __shadow_groups : list (string * list weakref);
  next_widget : nat;
  next_ref : nat
}.

Definition set_heap h (st : World) : World :=
  mk_world h (__shadow_groups st) (next_widget st) (next_ref st).

Definition set_groups g (st : World) : World :=
  mk_world (heap st) g (next_widget st) (next_ref st).

(** The interpreter state at import time: [__shadow_groups = {"global": []}]. *)
Definition initial_world : World :=
  {| heap := ∅; __shadow_groups := [("global"%string, [])];
     next_widget := 0%nat; next_ref := 0%nat |}.

(** [wk()]: the referent, [None] once it is gone. *)
Definition deref (st : World) (wk : weakref) : option nat :=
  match heap st !! wk_target wk with
  | Some _ => Some (wk_target wk)
  | None => None
  end.

(** Whether a reference was made to the widget [self], and whether a group
    holds such a reference. *)
Definition refers_to (self : nat) (wk : weakref) : bool :=
  Nat.eqb (wk_target wk) self.

Definition in_group (self : nat) (group : list weakref) : bool :=
  existsb (refers_to self) group.

(** [a == b] on weak references: the referents are compared while both are
    alive (widgets compare by identity), the reference objects otherwise. *)
Definition ref_eqb (st : World) (a b : weakref) : bool :=
  match deref st a, deref st b with
  | Some p, Some q => Nat.eqb p q
  | _, _ => Nat.eqb (wk_id a) (wk_id b)
  end.

(** [x in lst] *)
Definition list_contains {A} (eqb : A -> A -> bool) (x : A) (lst : list A) : bool :=
  existsb (fun y => eqb y x) lst.

(** [lst.remove(x)]: drops the first element equal to [x]; [None] stands for
    the [ValueError] raised when there is none. *)
Fixpoint list_remove {A} (eqb : A -> A -> bool) (x : A) (lst : list A)
  : option (list A) :=
  match lst with
  | [] => None
  | y :: rest =>
      if eqb y x then Some rest
      else match list_remove eqb x rest with
           | Some rest' => Some (y :: rest')
           | None => None
           end
  end.

(** [d[k]], [k in d] and [d[k] = v] on an insertion-ordered dictionary. *)
Fixpoint dict_get {V} (k : string) (d : list (string * V)) : option V :=
  match d with
  | [] => None
  | (k', v) :: rest => if String.eqb k' k then Some v else dict_get k rest
  end.

Definition dict_has {V} (k : string) (d : list (string * V)) : bool :=
  match dict_get k d with Some _ => true | None => false end.

Fixpoint dict_set {V} (k : string) (v : V) (d : list (string * V))
  : list (string * V) :=
  match d with
  | [] => [(k, v)]
  | (k', v') :: rest =>
      if String.eqb k' k then (k, v) :: rest else (k', v') :: dict_set k v rest
  end.

(** [groups[name].remove(wk)] *)
Definition group_remove (name : string) (wk : weakref) : M World unit :=
  (do st <- get;
   match dict_get name (__shadow_groups st) with
   | None => raise KeyError
   | Some group =>
       match list_remove (ref_eqb st) wk group with
       | None => raise ValueError
       | Some group' =>
           put (set_groups (dict_set name group' (__shadow_groups st)) st)
       end
   end)%py.

(** [groups[name].append(wk)] *)
Definition group_append (name : string) (wk : weakref) : M World unit :=
  (do st <- get;
   match dict_get name (__shadow_groups st) with
   | None => raise KeyError
   | Some group =>
       put (set_groups (dict_set name (group ++ [wk]) (__shadow_groups st)) st)
   end)%py.

(** Run a method body on the widget [self].  A method is only ever called
    on a live object; the other branch is there to make the function
    total. *)
Definition with_self {A} (self : nat) (body : Widget -> M World A) : M World A :=
  (do st <- get;
   match heap st !! self with
   | Some w => body w
   | None => raise AttributeError
   end)%py.

Definition update_widget (self : nat) (f : Widget -> Widget) : M World unit :=
  modify (fun st => set_heap (alter f self (heap st)) st).

(** Python truth value of [self.prev_shadow_group]: [None] and the empty
    string are false. *)
Definition truthy (s : option string) : bool :=
  match s with
  | None => false
  | Some s => negb (String.eqb s "")
  end.

(** The loop [for widget in group[:]: if widget() is self: group.remove(widget)]
    over the copy [snapshot] of the group called [name]. *)
Fixpoint remove_refs_to (self : nat) (name : string) (snapshot : list weakref)
  : M World unit :=
  match snapshot with
  | [] => ret tt
  | widget :: rest =>
      (do st <- get;
       (match deref st widget with
        | Some target =>
            if Nat.eqb target self then group_remove name widget else ret tt
        | None => ret tt
        end);;
       remove_refs_to self name rest)%py
  end.

(** [ref(self, CommonElevationBehavior._clear_shadow_groups)]: a new
    reference object each time, since it carries a callback. *)
Definition new_ref (self : nat) : M World weakref :=
  fun st =>
    Ok (mk_ref (next_ref st) self)
       (mk_world (heap st) (__shadow_groups st) (next_widget st)
          (S (next_ref st))).

Definition on_shadow_group (self : nat) : M World unit :=
  with_self self (fun w =>
    ((if truthy (prev_shadow_group w) then
        match prev_shadow_group w with
        | Some prev =>
            do st <- get;
            match dict_get prev (__shadow_groups st) with
            | None => raise KeyError
            | Some group => remove_refs_to self prev group
            end
        | None => ret tt
        end
      else ret tt);;
     let group := shadow_group w in
     update_widget self (set_prev_shadow_group (Some group));;
     do st <- get;
     (if dict_has group (__shadow_groups st) then ret tt
      else put (set_groups (dict_set group [] (__shadow_groups st)) st));;
     do r <- new_ref self;
     group_append group r)%py).

(** [self.shadow_group = value], with [on_shadow_group]. *)
Definition set_shadow_group (self : nat) (value : string) : M World unit :=
  with_self self (fun w =>
    if String.eqb (shadow_group w) value then ret tt
    else (update_widget self (store_shadow_group value);;
          on_shadow_group self)%py).

(** [__init__] of a widget of class [c]; the new widget's identity is
    returned.  [shadow_preset] is only scheduled here and runs on the next
    frame. *)
Definition __init__ (c : shadow_class) : M World nat :=
  (do st <- get;
   let self := next_widget st in
   put (mk_world (<[self := new_widget c]> (heap st)) (__shadow_groups st)
          (S self) (next_ref st));;
   on_shadow_group self;;
   ret self)%py.

(** [_clear_shadow_groups(wk)], the callback of every reference. *)
Fixpoint clear_groups_loop (wk : weakref) (values : list (string * list weakref))
  : M World unit :=
  match values with
  | [] => ret tt
  | (name, group) :: rest =>
      match group with
      | [] => ret tt (* break *)
      | _ =>
          (do st <- get;
           if list_contains (ref_eqb st) wk group
           then group_remove name wk (* break *)
           else clear_groups_loop wk rest)%py
      end
  end.

Definition _clear_shadow_groups (wk : weakref) : M World unit :=
  (do st <- get; clear_groups_loop wk (__shadow_groups st))%py.

(** The references to [self] that the registry still holds, most recently
    created first: the order in which their callbacks run. *)
Fixpoint insert_recent (r : weakref) (l : list weakref) : list weakref :=
  match l with
  | [] => [r]
  | r' :: rest =>
      if Nat.ltb (wk_id r') (wk_id r) then r :: l
      else r' :: insert_recent r rest
  end.

Definition refs_to (self : nat) (st : World) : list weakref :=
  foldr insert_recent []
    (List.filter (fun r => Nat.eqb (wk_target r) self)
       (concat (map snd (__shadow_groups st)))).

Fixpoint run_callbacks (refs : list weakref) : M World unit :=
  match refs with
  | [] => ret tt
  | r :: rest => (_clear_shadow_groups r;; run_callbacks rest)%py
  end.

(** The last strong reference to [self] goes away: the widget is
    deallocated and the callbacks of its weak references run. *)
Definition drop_widget (self : nat) : M World unit :=
  (do st <- get;
   let refs := refs_to self st in
   put (set_heap (delete self (heap st)) st);;
   run_callbacks refs)%py.

(** The next widget identity is unused and every reference object of the
    registry is older than the next one to be made: what allocation
    guarantees. *)
Definition fresh_ids (st : World) : Prop :=
  heap st !! next_widget st = None /\
  Forall (fun ng : string * list weakref =>
            Forall (fun r => (wk_id r < next_ref st)%nat /\
                             wk_target r <> next_widget st) (snd ng))
         (__shadow_groups st).

(** Three short runs from the initial interpreter state.  A widget is
    created and moved to the group ["cards"]: *)
Definition card_created : M World nat :=
  (do a <- __init__ RectangularElevationBehavior;
   set_shadow_group a "cards";;
   ret a)%py.

(** two widgets are moved to ["cards"] and the first one is dropped, the
    second one's identity being returned: *)
Definition two_cards_one_dropped : M World nat :=
  (do a <- card_created;
   do b <- card_created;
   drop_widget a;;
   ret b)%py.

(** a widget is moved to the group with the empty name, then to ["cards"]. *)
Definition regrouped_through_empty_name : M World nat :=
  (do a <- __init__ RectangularElevationBehavior;
   set_shadow_group a "";;
   set_shadow_group a "cards";;
   ret a)%py.

Section WithProperties.

Variable dp : Q -> Q.

(** [setattr(widget, property_name, value)] on a live widget: the toolkit's
    property assignment for an arbitrary name. *)
Variable Value : Type.
Variable setattr : nat -> string -> Value -> M World unit.

(** The loop of [force_shadow_pos] over the copy [snapshot] of the group. *)
Fixpoint force_shadow_pos_loop (name : string) (shadow_pos : Q * Q)
  (snapshot : list weakref) : M World unit :=
  match snapshot with
  | [] => ret tt
  | wk :: rest =>
      (do st <- get;
       let widget := deref st wk in
       (match widget with
        | None => group_remove name wk
        | Some _ => ret tt
        end);;
       (match widget with
        | None => raise AttributeError
        | Some target => update_widget target (set_shadow_pos dp shadow_pos)
        end);;
       force_shadow_pos_loop name shadow_pos rest)%py
  end.

(** [shadow_group], a [StringProperty], is never [None]: the guard
    [if self.shadow_group is None: return] of the two methods never fires. *)
Definition force_shadow_pos (self : nat) (shadow_pos : Q * Q) : M World unit :=
  with_self self (fun w =>
    (do st <- get;
     match dict_get (shadow_group w) (__shadow_groups st) with
     | None => raise KeyError
     | Some group => force_shadow_pos_loop (shadow_group w) shadow_pos group
     end)%py).

(** The loop of [update_group_property]. *)
Fixpoint update_group_property_loop (name : string) (property_name : string)
  (value : Value) (snapshot : list weakref) : M World unit :=
  match snapshot with
  | [] => ret tt
  | wk :: rest =>
      (do st <- get;
       let widget := deref st wk in
       (match widget with
        | None => group_remove name wk
        | Some _ => ret tt
        end);;
       (match widget with
        | None => raise AttributeError
        | Some target => setattr target property_name value
        end);;
       update_group_property_loop name property_name value rest)%py
  end.

Definition update_group_property (self : nat) (property_name : string)
  (value : Value) : M World unit :=
  with_self self (fun w =>
    (do st <- get;
     match dict_get (shadow_group w) (__shadow_groups st) with
     | None => raise KeyError
     | Some group =>
         update_group_property_loop (shadow_group w) property_name value group
     end)%py).

End WithProperties.

End Elevation.

(** ** [kivymd/theming.py] *)

(** [s.lower()] and [s.capitalize()], on ASCII letters. *)
Definition lower_ascii (c : ascii) : ascii :=
  let n := nat_of_ascii c in
  if (Nat.leb 65 n && Nat.leb n 90)%bool then ascii_of_nat (n + 32) else c.

Definition upper_ascii (c : ascii) : ascii :=
  let n := nat_of_ascii c in
  if (Nat.leb 97 n && Nat.leb n 122)%bool then ascii_of_nat (n - 32) else c.

Fixpoint lower (s : string) : string :=
  match s with
  | EmptyString => EmptyString
  | String c rest => String (lower_ascii c) (lower rest)
  end.

Definition capitalize (s : string) : string :=
  match s with
  | EmptyString => EmptyString
  | String c rest => String (upper_ascii c) (lower rest)
  end.

(** [s.isidentifier()], on ASCII characters: a letter or an underscore
    followed by letters, digits and underscores. *)
Definition identifier_start (c : ascii) : bool :=
  let n := nat_of_ascii c in
  ((Nat.leb 65 n && Nat.leb n 90) || (Nat.leb 97 n && Nat.leb n 122)
   || Nat.eqb n 95)%bool.

Definition identifier_char (c : ascii) : bool :=
  let n := nat_of_ascii c in
  (identifier_start c || (Nat.leb 48 n && Nat.leb n 57))%bool.

Definition isidentifier (s : string) : bool :=
  match s with
  | EmptyString => false
  | String c rest =>
      (identifier_start c
       && forallb identifier_char (list_ascii_of_string rest))%bool
  end.

Module Theming.

(** A callback handed to [Clock.schedule_once]: it runs on a later frame. *)
Inductive callback :=
| cb_update_theme_colors
| cb_set_colors.

Section WithLibraries.

(** A colour as [materialyoucolor] stores it in a scheme. *)
Context {Color : Type}.

(** Whether every role of a dictionary gives the name of an attribute:
    [<role>Color] is an identifier. *)
Definition attribute_names (roles : list (string * Color)) : bool :=
  forallb (fun kv => isidentifier (fst kv +:+ "Color")) roles.

(** A scheme object of [materialyoucolor]: [props] maps the role names to
    colours, in order.  The roles of a scheme are the colours the library
    derives ([primary], [onPrimary], ...), named as attributes are. *)
Record Scheme := mk_scheme {
  props : list (string * Color);
  props_names : attribute_names props = true
}.

(** What a colour theme dictionary holds under a key: the schemes of a theme
    (style name to scheme object) under ["schemes"], or in the older layout
    the roles of one style directly. *)
Inductive theme_value :=
| Schemes (schemes : gmap string Scheme)
| Roles (roles : list (string * Color)).

Record ThemeManager := mk_theme {
  primary_palette : option string;
  dynamic_color : bool;
  path_to_wallpaper : string;
  theme_style : string;
  current_color_theme : gmap string theme_value;
  schemes_name_colors : list string;
  (** The attributes created by name: [<role>Color], [disabledTextColor]. *)
  attrs : gmap string (list Q);
  (** Callbacks scheduled on the clock and not yet run. *)
  pending : list callback
}.

Definition set_primary_palette_field v (tm : ThemeManager) : ThemeManager :=
  mk_theme v (dynamic_color tm) (path_to_wallpaper tm) (theme_style tm)
    (current_color_theme tm) (schemes_name_colors tm) (attrs tm) (pending tm).

Definition set_dynamic_color_field v (tm : ThemeManager) : ThemeManager :=
  mk_theme (primary_palette tm) v (path_to_wallpaper tm) (theme_style tm)
    (current_color_theme tm) (schemes_name_colors tm) (attrs tm) (pending tm).

Definition set_path_to_wallpaper_field v (tm : ThemeManager) : ThemeManager :=
  mk_theme (primary_palette tm) (dynamic_color tm) v (theme_style tm)
    (current_color_theme tm) (schemes_name_colors tm) (attrs tm) (pending tm).

Definition set_theme_style_field v (tm : ThemeManager) : ThemeManager :=
  mk_theme (primary_palette tm) (dynamic_color tm) (path_to_wallpaper tm) v
    (current_color_theme tm) (schemes_name_colors tm) (attrs tm) (pending tm).

Definition set_current_color_theme v (tm : ThemeManager) : ThemeManager :=
  mk_theme (primary_palette tm) (dynamic_color tm) (path_to_wallpaper tm)
    (theme_style tm) v (schemes_name_colors tm) (attrs tm) (pending tm).

Definition set_schemes_name_colors v (tm : ThemeManager) : ThemeManager :=
  mk_theme (primary_palette tm) (dynamic_color tm) (path_to_wallpaper tm)
    (theme_style tm) (current_color_theme tm) v (attrs tm) (pending tm).

Definition set_attr (name : string) (v : list Q) (tm : ThemeManager)
  : ThemeManager :=
  mk_theme (primary_palette tm) (dynamic_color tm) (path_to_wallpaper tm)
    (theme_style tm) (current_color_theme tm) (schemes_name_colors tm)
    (<[name := v]> (attrs tm)) (pending tm).

Definition set_pending v (tm : ThemeManager) : ThemeManager :=
  mk_theme (primary_palette tm) (dynamic_color tm) (path_to_wallpaper tm)
    (theme_style tm) (current_color_theme tm) (schemes_name_colors tm)
    (attrs tm) v.

(** The fields a publication leaves alone. *)
Definition same_settings (tm tm' : ThemeManager) : Prop :=
  primary_palette tm' = primary_palette tm /\
  dynamic_color tm' = dynamic_color tm /\
  path_to_wallpaper tm' = path_to_wallpaper tm /\
  theme_style tm' = theme_style tm /\
  current_color_theme tm' = current_color_theme tm /\
  pending tm' = pending tm.

(** [Clock.schedule_once(cb, ...)] *)
Definition schedule_once (cb : callback) : M ThemeManager unit :=
  modify (fun tm => set_pending (pending tm ++ [cb]) tm).

(** The functions of [kivy.utils], [kivymd.utils.get_wallpaper] and
    [materialyoucolor] that the theme manager calls. *)
Variable rgba : Color -> list Q.
Variable get_color_from_hex : string -> list Q.
Variable hex_colormap : list (string * string).
Variable user_data_dir : string.
Variable get_wallpaper : string -> string -> option string.
(** [theme_from_source_color(source, fix_if_disliked=...).schemes] *)
Variable theme_from_source_color : Z -> bool -> gmap string Scheme.
Variable source_color_from_image : string -> Z.
Variable argb_from_rgb : Z -> Z -> Z -> Z.

(** The options of the two [OptionProperty] declarations. *)
Definition theme_style_options : list string := ["Light"; "Dark"]%string.

Definition primary_palette_options : list string :=
  map (fun kv => capitalize (fst kv)) hex_colormap.

Definition _get_theme_style (opposite : bool) (tm : ThemeManager) : string :=
  if opposite then
    (if String.eqb (theme_style tm) "Dark" then "Light" else "Dark")%string
  else theme_style tm.

(** [color[i] = v] *)
Definition list_assign (i : nat) (v : Q) (color : list Q) : option (list Q) :=
  if Nat.ltb i (length color) then Some (<[i := v]> color) else None.

Definition _get_disabled_hint_text_color (opposite : bool)
  : M ThemeManager (list Q) :=
  (do tm <- get;
   let theme_style := _get_theme_style opposite tm in
   if String.eqb theme_style "Light" then
     match list_assign 3 (38 # 100) (get_color_from_hex "000000") with
     | Some color => ret color
     | None => raise IndexError
     end
   else if String.eqb theme_style "Dark" then
     match list_assign 3 (50 # 100) (get_color_from_hex "FFFFFF") with
     | Some color => ret color
     | None => raise IndexError
     end
   else raise UnboundLocalError)%py.

(** [list(d.keys())] and [d[k]] of an insertion-ordered dictionary. *)
Definition keys {V} (d : list (string * V)) : list string := map fst d.

(** The loop
    [for color_key in self.schemes_name_colors:
       color = <roles>[color_key]
       exec(f"self.{color_key}Color = {rgba(color)}")].
    The text handed to [exec] is an assignment to the attribute
    [<color_key>Color] when that name is an identifier.  When it is not the
    text is no such assignment: for the role [on-primary] it assigns to a
    difference, and [exec] raises [SyntaxError], the roles before it being
    published by then.  That is the outcome given here to every name that
    is not an identifier; names are read as ASCII. *)
Fixpoint publish_roles (roles : list (string * Color)) (names : list string)
  : M ThemeManager unit :=
  match names with
  | [] => ret tt
  | color_key :: rest =>
      match Elevation.dict_get color_key roles with
      | None => raise KeyError
      | Some color =>
          if isidentifier (color_key +:+ "Color") then
            (modify (set_attr (color_key +:+ "Color") (rgba color));;
             publish_roles roles rest)%py
          else raise SyntaxError
      end
  end.

(** [self.schemes_name_colors = list(<roles>.keys())] followed by the loop
    over it. *)
Definition publish_scheme (roles : list (string * Color)) : M ThemeManager unit :=
  (modify (set_schemes_name_colors (keys roles));;
   do tm <- get;
   publish_roles roles (schemes_name_colors tm))%py.

(** [color_theme["schemes"][style].props], as all the publishing paths but
    [_set_default_color] reach the roles of a style. *)
Definition scheme_props (color_theme : gmap string theme_value) (style : string)
  : M ThemeManager (list (string * Color)) :=
  match color_theme !! "schemes"%string with
  | None => raise KeyError
  | Some (Schemes schemes) =>
      match schemes !! style with
      | None => raise KeyError
      | Some scheme => ret (props scheme)
      end
  | Some (Roles roles) =>
      match Elevation.dict_get style roles with
      | None => raise KeyError
      | Some _ => raise AttributeError
      end
  end.

(** [color_theme[style]] used as the dictionary of roles itself. *)
Definition style_roles (color_theme : gmap string theme_value) (style : string)
  : M ThemeManager (list (string * Color)) :=
  match color_theme !! style with
  | None => raise KeyError
  | Some (Roles roles) => ret roles
  | Some (Schemes _) => raise TypeError
  end.

Definition set_disabledTextColor : M ThemeManager unit :=
  (do color <- _get_disabled_hint_text_color false;
   modify (set_attr "disabledTextColor" color))%py.

Definition update_theme_colors : M ThemeManager unit :=
  (do tm <- get;
   let color_theme := current_color_theme tm in
   let style_theme := theme_style tm in
   (match color_theme !! "schemes"%string with
    | Some _ =>
        do roles <- scheme_props color_theme (lower style_theme);
        publish_scheme roles
    | None =>
        do roles <- style_roles color_theme (lower style_theme);
        publish_scheme roles
    end);;
   set_disabledTextColor)%py.

Definition _set_dynamic_color (path_to_wallpaper : string) : M ThemeManager unit :=
  (let dynamic_theme : gmap string theme_value :=
     {[ "schemes"%string :=
          Schemes (theme_from_source_color
                     (source_color_from_image path_to_wallpaper) false) ]} in
   modify (set_current_color_theme dynamic_theme);;
   do tm <- get;
   do roles <- scheme_props dynamic_theme (lower (theme_style tm));
   publish_scheme roles;;
   set_disabledTextColor)%py.

Definition _set_default_color : M ThemeManager unit :=
  (let default_theme : gmap string theme_value :=
     {[ "schemes"%string :=
          Schemes (theme_from_source_color 0xFF4285F4 false) ]} in
   modify (set_current_color_theme default_theme);;
   do tm <- get;
   do roles <- style_roles default_theme (lower (theme_style tm));
   publish_scheme roles;;
   set_disabledTextColor)%py.

(** [self.primary_palette = v]: an [OptionProperty]; a change schedules
    [set_colors]. *)
Definition set_primary_palette (v : string) : M ThemeManager unit :=
  (do tm <- get;
   if bool_decide (v ∈ primary_palette_options) then
     if bool_decide (primary_palette tm = Some v) then ret tt
     else (modify (set_primary_palette_field (Some v));;
           schedule_once cb_set_colors)
   else raise ValueError)%py.

(** Python truth value of an optional string. *)
Definition truthy (s : option string) : bool := Elevation.truthy s.

Definition _set_palette_color : M ThemeManager unit :=
  (do tm <- get;
   (if truthy (primary_palette tm) then ret tt
    else set_primary_palette "Blue");;
   do tm <- get;
   match primary_palette tm with
   | None => raise AttributeError
   | Some palette =>
       match Elevation.dict_get (lower palette) hex_colormap with
       | None => raise KeyError
       | Some hex =>
           match take 3 (map (fun c => int (c * 255)) (get_color_from_hex hex)) with
           | [r; g; b] =>
               let color_theme : gmap string theme_value :=
                 {[ "schemes"%string :=
                      Schemes (theme_from_source_color (argb_from_rgb r g b)
                                 true) ]} in
               modify (set_current_color_theme color_theme);;
               do roles <- scheme_props color_theme (lower (theme_style tm));
               publish_scheme roles;;
               set_disabledTextColor
           | _ => raise TypeError
           end
       end
   end)%py.

Definition set_colors : M ThemeManager unit :=
  (do tm <- get;
   if negb (dynamic_color tm) then
     if negb (truthy (primary_palette tm)) then _set_default_color
     else _set_palette_color
   else
     let path_to_wallpaper :=
       get_wallpaper user_data_dir (path_to_wallpaper tm) in
     if truthy path_to_wallpaper then
       match path_to_wallpaper with
       | Some path => _set_dynamic_color path
       | None => ret tt
       end
     else _set_palette_color)%py.

Definition on_dynamic_color : M ThemeManager unit := set_colors.

(** [self.dynamic_color = v], with [on_dynamic_color]. *)
Definition set_dynamic_color (v : bool) : M ThemeManager unit :=
  (do tm <- get;
   if Bool.eqb (dynamic_color tm) v then ret tt
   else (modify (set_dynamic_color_field v);; on_dynamic_color))%py.

Definition on_path_to_wallpaper : M ThemeManager unit :=
  (do tm <- get;
   if dynamic_color tm then set_colors else ret tt)%py.

(** [self.theme_style = v]: an [OptionProperty]; a change schedules
    [update_theme_colors]. *)
Definition set_theme_style (v : string) : M ThemeManager unit :=
  (do tm <- get;
   if bool_decide (v ∈ theme_style_options) then
     if String.eqb (theme_style tm) v then ret tt
     else (modify (set_theme_style_field v);;
           schedule_once cb_update_theme_colors)
   else raise ValueError)%py.

Definition switch_theme : M ThemeManager unit :=
  (do tm <- get;
   set_theme_style
     (if String.eqb (theme_style tm) "Light" then "Dark" else "Light"))%py.

(** The theme manager after [__init__]: every property at its default and
    [set_colors] scheduled. *)
Definition __init__ : ThemeManager :=
  {| primary_palette := None; dynamic_color := false;
     path_to_wallpaper := ""; theme_style := "Light";
     current_color_theme := ∅; schemes_name_colors := [];
     attrs := ∅; pending := [cb_set_colors] |}.

Definition run_callback (cb : callback) : M ThemeManager unit :=
  match cb with
  | cb_update_theme_colors => update_theme_colors
  | cb_set_colors => set_colors
  end.

Fixpoint run_callbacks (cbs : list callback) : M ThemeManager unit :=
  match cbs with
  | [] => ret tt
  | cb :: rest => (run_callback cb;; run_callbacks rest)%py
  end.

(** A clock tick: the callbacks scheduled so far run in order. *)
Definition tick : M ThemeManager unit :=
  (do tm <- get;
   modify (set_pending []);;
   run_callbacks (pending tm))%py.

End WithLibraries.

(** [a >= b] on numbers. *)
Definition num_geb (a b : Q) : bool := Qle_bool b a.

(** [_determine_device_orientation(self, _, window_size)]; the state is the
    property [device_orientation], the only one the method touches. *)
Definition _determine_device_orientation (window_size : Q * Q)
  : M string unit :=
  if num_ltb (snd window_size) (fst window_size) then put "landscape"%string
  else if num_geb (snd window_size) (fst window_size)
       then put "portrait"%string
       else ret tt.

Arguments Scheme Color : clear implicits.
Arguments theme_value Color : clear implicits.
Arguments ThemeManager Color : clear implicits.

(** Stand-ins for the library functions, to run the theme manager on
    examples: colours are lists of 8-bit components, every theme has the
    two roles [primary] and [background] in both styles. *)
Definition sample_rgba (c : list Z) : list Q :=
  map (fun v => (inject_Z v / 255)%Q) c.

Definition sample_hex (h : string) : list Q :=
  if String.eqb h "FFFFFF" then [1; 1; 1; 1]%Q else [0; 0; 0; 1]%Q.

Definition sample_light : Scheme (list Z) :=
  {| props := [("primary"%string, [66; 133; 244; 255]);
               ("background"%string, [255; 255; 255; 255])];
     props_names := eq_refl |}.

Definition sample_dark : Scheme (list Z) :=
  {| props := [("primary"%string, [170; 199; 255; 255]);
               ("background"%string, [18; 18; 18; 255])];
     props_names := eq_refl |}.

Definition sample_theme (source : Z) (fix_if_disliked : bool)
  : gmap string (Scheme (list Z)) :=
  {[ "light"%string := sample_light; "dark"%string := sample_dark ]}.

(** A theme manager whose colour theme was set from [sample_theme]. *)
Definition sample_manager : ThemeManager (list Z) :=
  {| primary_palette := Some "Blue"%string; dynamic_color := false;
     path_to_wallpaper := ""; theme_style := "Light";
     current_color_theme :=
       {[ "schemes"%string := Schemes (sample_theme 0 true) ]};
     schemes_name_colors := []; attrs := ∅; pending := [] |}.

End Theming.

(** ** [demos/kitchen_sink/demo_apps/shopwindow.py] *)

Module ShopWindow.

(** The dictionaries appended to the catalogue and to the cart. *)
Record shop_item := mk_shop_item {
  shop_viewclass : string;
  shop_height : Q;
  product_image : string;
  product_image2 : string;
  previous_dialog : string
}.

Record cart_item := mk_cart_item {
  cart_viewclass : string;
  cart_height : Q;
  cart_product_image : string
}.

(** [lambda x=name_item: self.show_demo_apps(name_item)]: the default of
    [x] is evaluated when the lambda is made; [name_item] in the body is the
    loop variable of the enclosing call, read when the lambda is called.
    [free_name_item] names the cell of that variable. *)
Record closure := mk_closure {
  default_x : string;
  free_name_item : nat
}.

Record menu_item := mk_menu_item {
  menu_viewclass : string;
  text : string;
  on_release : closure
}.

(** What the methods of [ShopWindow] reach through [self.app]. *)
Record App := mk_app {
  rv_main_data : list shop_item;
  rv_cart_data : list cart_item;
  menu_for_demo_apps : list menu_item;
  demo_apps_list : list string;
  scr_mngr_current : string;
  menu_dismissed : bool;
  (** The local variables captured by closures, one cell per call. *)
  cells : gmap nat string;
  next_cell : nat
}.

Definition set_rv_main_data v (app : App) : App :=
  mk_app v (rv_cart_data app) (menu_for_demo_apps app) (demo_apps_list app)
    (scr_mngr_current app) (menu_dismissed app) (cells app) (next_cell app).

Definition set_rv_cart_data v (app : App) : App :=
  mk_app (rv_main_data app) v (menu_for_demo_apps app) (demo_apps_list app)
    (scr_mngr_current app) (menu_dismissed app) (cells app) (next_cell app).

Definition set_menu_for_demo_apps_field v (app : App) : App :=
  mk_app (rv_main_data app) (rv_cart_data app) v (demo_apps_list app)
    (scr_mngr_current app) (menu_dismissed app) (cells app) (next_cell app).

Definition set_cells v (app : App) : App :=
  mk_app (rv_main_data app) (rv_cart_data app) (menu_for_demo_apps app)
    (demo_apps_list app) (scr_mngr_current app) (menu_dismissed app) v
    (next_cell app).

(** ['./assets/clock-%d.png' % n] *)
Definition clock_png (n : Z) : string :=
  "./assets/clock-" +:+ pretty n +:+ ".png".

Section WithMetrics.

Variable dp : Q -> Q.

(** The body of [for i in range(5)] in [set_list_shop], with the local
    variable [increment_left] threaded through. *)
Fixpoint set_list_shop_loop (range : list nat) (increment_left : Z)
  (app : App) : App :=
  match range with
  | [] => app
  | i :: rest =>
      let increment_left := increment_left + 2 in
      set_list_shop_loop rest increment_left
        (set_rv_main_data
           (rv_main_data app ++
            [{| shop_viewclass := "CardsBoxForShopWindow";
                shop_height := dp 300;
                product_image := clock_png increment_left;
                product_image2 := clock_png (increment_left + 1);
                previous_dialog := "PreviousDialog" |}])
           app)
  end.

Definition set_list_shop (app : App) : App :=
  set_list_shop_loop (seq 0 5) (-2) app.

Fixpoint set_list_cart_loop (range : list nat) (app : App) : App :=
  match range with
  | [] => app
  | i :: rest =>
      set_list_cart_loop rest
        (set_rv_cart_data
           (rv_cart_data app ++
            [{| cart_viewclass := "CardItemForCart";
                cart_height := dp 150;
                cart_product_image := clock_png (Z.of_nat i) |}])
           app)
  end.

Definition set_list_cart (app : App) : App :=
  set_list_cart_loop (seq 0 11) app.

(** [on_enter] of the screen, as far as the lists go. *)
Definition on_enter (app : App) : App := set_list_cart (set_list_shop app).

End WithMetrics.

(** The loop of [set_menu_for_demo_apps]; [cell] is the cell of its loop
    variable [name_item]. *)
Fixpoint set_menu_loop (cell : nat) (names : list string) (app : App) : App :=
  match names with
  | [] => app
  | name_item :: rest =>
      let app := set_cells (<[cell := name_item]> (cells app)) app in
      set_menu_loop cell rest
        (set_menu_for_demo_apps_field
           (menu_for_demo_apps app ++
            [{| menu_viewclass := "OneLineListItem";
                text := name_item;
                on_release := {| default_x := name_item;
                                 free_name_item := cell |} |}])
           app)
  end.

Definition set_menu_for_demo_apps (app : App) : App :=
  if Nat.eqb (length (menu_for_demo_apps app)) 0 then
    let cell := next_cell app in
    set_menu_loop cell (demo_apps_list app)
      (mk_app (rv_main_data app) (rv_cart_data app) (menu_for_demo_apps app)
         (demo_apps_list app) (scr_mngr_current app) (menu_dismissed app)
         (cells app) (S cell))
  else app.

Definition show_demo_apps (name_item : string) (app : App) : App :=
  mk_app (rv_main_data app) (rv_cart_data app) (menu_for_demo_apps app)
    (demo_apps_list app) (lower name_item) true (cells app) (next_cell app).

(** Calling the [on_release] entry of a menu item; [None] stands for the
    [NameError] of a variable that was never assigned. *)
Definition release (item : menu_item) (app : App) : option App :=
  match cells app !! free_name_item (on_release item) with
  | Some name_item => Some (show_demo_apps name_item app)
  | None => None
  end.

End ShopWindow.

(** * Facts about the elevation behaviour *)

Section ElevationFacts.

Import Elevation.

Variable dp : Q -> Q.

Lemma same_inputs_refl w : same_inputs w w.
Proof. unfold same_inputs; repeat split. Qed.

Lemma same_inputs_trans w1 w2 w3 :
  same_inputs w1 w2 -> same_inputs w2 w3 -> same_inputs w1 w3.
Proof.
  unfold same_inputs; intros H12 H23.
  repeat match goal with H : _ /\ _ |- _ => destruct H end.
  repeat split; congruence.
Qed.

Lemma _update_shadow_pos_inputs w : same_inputs w (_update_shadow_pos dp w).
Proof.
  unfold _update_shadow_pos, same_inputs.
  destruct (pair_eqb (shadow_pos _) _); cbn; repeat split.
Qed.

Lemma _update_shadow_pos_textures w :
  hard_shadow_texture (_update_shadow_pos dp w) = hard_shadow_texture w /\
  _soft_shadow_texture (_update_shadow_pos dp w) = _soft_shadow_texture w /\
  hard_shadow_size (_update_shadow_pos dp w) = hard_shadow_size w /\
  soft_shadow_size (_update_shadow_pos dp w) = soft_shadow_size w.
Proof.
  unfold _update_shadow_pos.
  destruct (pair_eqb (shadow_pos _) _); cbn; repeat split.
Qed.

Lemma set__shadow_pos_inputs v w : same_inputs w (set__shadow_pos dp v w).
Proof.
  unfold set__shadow_pos.
  destruct (pair_eqb (_shadow_pos w) v); [apply same_inputs_refl|].
  eapply same_inputs_trans; [|apply _update_shadow_pos_inputs].
  unfold same_inputs; cbn; repeat split.
Qed.

Lemma set_shadow_pos_value v w :
  pair_eqb (shadow_pos (set_shadow_pos dp v w)) v = true.
Proof.
  unfold set_shadow_pos.
  destruct (pair_eqb (shadow_pos w) v) eqn:E; [exact E|].
  destruct (_update_shadow_pos_inputs (store_shadow_pos v w))
    as (_ & _ & _ & _ & _ & _ & -> & _).
  cbn. unfold pair_eqb, num_eqb.
  rewrite !Qeq_bool_refl. reflexivity.
Qed.

Lemma draw_shadow_state w o e s :
  final_state (__draw_shadow__ w o e s) = s.
Proof.
  unfold __draw_shadow__.
  destruct (draw_shadow w); try reflexivity.
  destruct (radius w) as [[[r0 r1] r2] r3], o, e.
  repeat match goal with |- context [if ?b then _ else _] => destruct b end;
    reflexivity.
Qed.

Lemma draw_shadow_implemented w o e s :
  draw_shadow w <> CommonElevationBehavior ->
  exists ops, __draw_shadow__ w o e s = Ok ops s.
Proof.
  intros Hc. unfold __draw_shadow__.
  destruct (draw_shadow w); try congruence; try (eexists; reflexivity).
  destruct (radius w) as [[[r0 r1] r2] r3], o, e.
  repeat match goal with |- context [if ?b then _ else _] => destruct b end;
    eexists; reflexivity.
Qed.

Lemma draw_shadow_missing w o e s :
  draw_shadow w = CommonElevationBehavior ->
  __draw_shadow__ w o e s = Raise NotImplementedError s.
Proof. intros Hc. unfold __draw_shadow__. rewrite Hc. reflexivity. Qed.

Lemma positioned_inputs w : same_inputs w (positioned dp w).
Proof.
  unfold positioned.
  destruct (pair_eqb _ _).
  - eapply same_inputs_trans; [apply _update_shadow_pos_inputs|].
    apply set__shadow_pos_inputs.
  - apply _update_shadow_pos_inputs.
Qed.

Lemma hard_texture_size_inputs w w' :
  same_inputs w w' -> hard_texture_size dp w' = hard_texture_size dp w.
Proof.
  unfold same_inputs, hard_texture_size; intros H.
  repeat match goal with H : _ /\ _ |- _ => destruct H end.
  congruence.
Qed.

Lemma soft_texture_size_inputs w w' :
  same_inputs w w' -> soft_texture_size dp w' = soft_texture_size dp w.
Proof.
  unfold same_inputs, soft_texture_size; intros H.
  repeat match goal with H : _ /\ _ |- _ => destruct H end.
  congruence.
Qed.

Lemma _update_shadow_flat w :
  num_ltb 0 (_elevation w) = false ->
  _update_shadow dp w
  = Ok tt (set_textures placeholder placeholder (_update_shadow_pos dp w)).
Proof.
  intros He. unfold _update_shadow, bind, modify, get. 
  destruct (_update_shadow_pos_inputs w) as (_&_&_&_&_&_&_&_&_& -> &_).
  rewrite He. reflexivity.
Qed.

Lemma _update_shadow_raised w :
  num_ltb 0 (_elevation w) = true ->
  _update_shadow dp w
  = (do ops <- __draw_shadow__ (positioned dp w)
                 (inject_Z (int (dp (hard_shadow_offset (positioned dp w)))),
                  inject_Z (int (dp (hard_shadow_offset (positioned dp w)))))
                 (inject_Z (int (inject_Z
                    (fst (hard_texture_size dp (positioned dp w)) - 1
                     - int (dp (hard_shadow_offset (positioned dp w)))))),
                  inject_Z (int (inject_Z
                    (snd (hard_texture_size dp (positioned dp w)) - 1
                     - int (dp (hard_shadow_offset (positioned dp w)))))));
     modify (set_hard_shadow (hard_texture_size dp (positioned dp w))
               (GaussianBlur
                  (inject_Z (int (dp (1 + hard_shadow_offset (positioned dp w) / 3))))
                  (im_draw ops (Image_new (hard_texture_size dp (positioned dp w))))));;
     do w2 <- get;
     do ops <- __draw_shadow__ w2
                 (inject_Z (int (dp (_elevation w2 + dp (soft_shadow_offset w2)))),
                  inject_Z (int (dp (_elevation w2 + dp (soft_shadow_offset w2)))))
                 (inject_Z (int (inject_Z
                    (fst (soft_texture_size dp w2)
                     - int (dp (_elevation w2 + dp (soft_shadow_offset w2))) - 1))),
                  inject_Z (int (inject_Z
                    (snd (soft_texture_size dp w2)
                     - int (dp (_elevation w2 + dp (soft_shadow_offset w2))) - 1))));
     modify (set_soft_shadow (soft_texture_size dp w2)
               (GaussianBlur (floordiv (_elevation w2) 2)
                  (im_draw ops (Image_new (soft_texture_size dp w2))))))%py
    (positioned dp w).
Proof.
  intros He. unfold _update_shadow, positioned, bind, modify, get, ret.
  destruct (_update_shadow_pos_inputs w) as (_&_&_&_&_&_&_&_&_& E &_).
  rewrite E, He.
  destruct (pair_eqb (shadow_pos (_update_shadow_pos dp w)) (0, 0)%Q);
    reflexivity.
Qed.

Lemma draw_shadow_cases w o e s :
  (exists ops, __draw_shadow__ w o e s = Ok ops s) \/
  __draw_shadow__ w o e s = Raise NotImplementedError s.
Proof.
  destruct (draw_shadow w) eqn:Hc;
    solve [ right; apply draw_shadow_missing; exact Hc
          | left; apply draw_shadow_implemented; congruence ].
Qed.

Lemma num_ltb_true a b : num_ltb a b = true <-> (a < b)%Q.
Proof.
  unfold num_ltb. destruct (Qlt_le_dec a b) as [Hlt|Hle]; split; auto.
  - discriminate.
  - intros Hlt. exfalso. apply (Qlt_not_le _ _ Hlt Hle).
Qed.

Lemma num_ltb_false a b : num_ltb a b = false <-> (b <= a)%Q.
Proof.
  unfold num_ltb. destruct (Qlt_le_dec a b) as [Hlt|Hle]; split; auto.
  - discriminate.
  - intros Hle. exfalso. apply (Qlt_not_le _ _ Hlt Hle).
Qed.

Lemma set_hard_shadow_inputs sz t w : same_inputs w (set_hard_shadow sz t w).
Proof. unfold same_inputs; cbn; repeat split. Qed.

Lemma set_soft_shadow_inputs sz t w : same_inputs w (set_soft_shadow sz t w).
Proof. unfold same_inputs; cbn; repeat split. Qed.

Lemma set_textures_inputs a b w : same_inputs w (set_textures a b w).
Proof. unfold same_inputs; cbn; repeat split. Qed.

(** Whether it returns or raises, [_update_shadow] leaves the widget's
    inputs, among them [_elevation] and [elevation], as they were. *)
Lemma _update_shadow_inputs w :
  same_inputs w (final_state (_update_shadow dp w)).
Proof.
  destruct (num_ltb 0 (_elevation w)) eqn:He.
  - rewrite (_update_shadow_raised w He). unfold bind, modify, get.
    match goal with |- context [__draw_shadow__ ?a ?o ?e ?s] =>
      destruct (draw_shadow_cases a o e s) as [[ops ->] | ->] end; cbn.
    + match goal with |- context [__draw_shadow__ ?a ?o ?e ?s] =>
        destruct (draw_shadow_cases a o e s) as [[ops' ->] | ->] end; cbn.
      * eapply same_inputs_trans; [apply positioned_inputs|].
        eapply same_inputs_trans; [apply set_hard_shadow_inputs|].
        apply set_soft_shadow_inputs.
      * eapply same_inputs_trans; [apply positioned_inputs|].
        apply set_hard_shadow_inputs.
    + apply positioned_inputs.
  - rewrite (_update_shadow_flat w He). cbn.
    eapply same_inputs_trans; [apply _update_shadow_pos_inputs|].
    apply set_textures_inputs.
Qed.

(** With a drawing hook, [_update_shadow] returns. *)
Lemma _update_shadow_returns w :
  draw_shadow w <> CommonElevationBehavior \/ (_elevation w <= 0)%Q ->
  exists w', _update_shadow dp w = Ok tt w'.
Proof.
  intros Hc.
  destruct (num_ltb 0 (_elevation w)) eqn:He.
  - destruct Hc as [Hc | Hc];
      [| apply num_ltb_true in He; exfalso; apply (Qlt_not_le _ _ He Hc)].
    rewrite (_update_shadow_raised w He). unfold bind, modify, get.
    assert (Hp : draw_shadow (positioned dp w) <> CommonElevationBehavior).
    { destruct (positioned_inputs w) as (_&_&_&_&_&_&_&_&_&_&_&_&_&_& -> &_).
      exact Hc. }
    match goal with |- context [__draw_shadow__ ?a ?o ?e ?s] =>
      destruct (draw_shadow_implemented a o e s Hp) as [ops ->] end.
    match goal with |- context [__draw_shadow__ ?a ?o ?e ?s] =>
      destruct (draw_shadow_implemented a o e s) as [ops' ->] end.
    { cbn. exact Hp. }
    eexists; reflexivity.
  - rewrite (_update_shadow_flat w He). eexists; reflexivity.
Qed.

(** **** Texture sizes *)

(** C1, as amended.  After [_update_shadow]: when [_elevation] is not
    positive (zero in particular) both textures are the 4x4 transparent
    placeholder; when it is positive and the class has a drawing hook, the
    hard texture measures [int(size + 2 * offset)] in each dimension with
    [offset = int(dp(hard_shadow_offset))], and the soft texture
    [int(size + dp(2 * _elevation) + 2 * dp(soft_shadow_offset))]; the size
    properties hold the same numbers. *)
Theorem update_shadow_textures (w : Widget) :
  ((_elevation w <= 0)%Q ->
   exists w', _update_shadow dp w = Ok tt w' /\
     hard_shadow_texture w' = placeholder /\
     _soft_shadow_texture w' = placeholder /\
     im_size placeholder = (4, 4) /\ fully_transparent placeholder) /\
  ((0 < _elevation w)%Q -> draw_shadow w <> CommonElevationBehavior ->
   exists w', _update_shadow dp w = Ok tt w' /\
     let ho := int (dp (hard_shadow_offset w)) in
     let so := dp (soft_shadow_offset w) in
     im_size (hard_shadow_texture w')
     = (int (fst (size w) + inject_Z (ho * 2)),
        int (snd (size w) + inject_Z (ho * 2))) /\
     hard_shadow_size w' = im_size (hard_shadow_texture w') /\
     im_size (_soft_shadow_texture w')
     = (int (fst (size w) + dp (_elevation w * 2) + so * 2),
        int (snd (size w) + dp (_elevation w * 2) + so * 2)) /\
     soft_shadow_size w' = im_size (_soft_shadow_texture w')).
Proof.
  split.
  - intros He. apply num_ltb_false in He.
    rewrite (_update_shadow_flat w He).
    eexists; split; [reflexivity|]. cbn. repeat split.
  - intros He Hc. apply num_ltb_true in He.
    rewrite (_update_shadow_raised w He). unfold bind, modify, get.
    assert (Hp : draw_shadow (positioned dp w) <> CommonElevationBehavior).
    { destruct (positioned_inputs w) as (_&_&_&_&_&_&_&_&_&_&_&_&_&_& -> &_).
      exact Hc. }
    match goal with |- context [__draw_shadow__ ?a ?o ?e ?s] =>
      destruct (draw_shadow_implemented a o e s Hp) as [ops ->] end.
    match goal with |- context [__draw_shadow__ ?a ?o ?e ?s] =>
      destruct (draw_shadow_implemented a o e s) as [ops' ->] end.
    { cbn. exact Hp. }
    eexists; split; [reflexivity|]. cbn.
    pose proof (hard_texture_size_inputs _ _ (positioned_inputs w)) as Hh.
    pose proof (soft_texture_size_inputs _ _
                  (same_inputs_trans _ _ _ (positioned_inputs w)
                     (set_hard_shadow_inputs
                        (hard_texture_size dp (positioned dp w))
                        (GaussianBlur
                           (inject_Z (int (dp (1 + hard_shadow_offset
                                                     (positioned dp w) / 3))))
                           (im_draw ops (Image_new
                              (hard_texture_size dp (positioned dp w)))))
                        (positioned dp w)))) as Hs.
    cbn in Hs. unfold soft_texture_size in Hs at 1. cbn in Hs.
    repeat split; try assumption.
Qed.

(** **** Alpha of the shadow colours *)

Lemma clamp01_cases (v : Q) :
  ((v < 0)%Q -> clamp01 v = 0%Q) /\
  ((1 < v)%Q -> clamp01 v = 1%Q) /\
  ((0 <= v)%Q -> (v <= 1)%Q -> clamp01 v = v).
Proof.
  unfold clamp01.
  destruct (num_ltb v 0) eqn:H0; destruct (num_ltb 1 v) eqn:H1;
    repeat split; intros; try reflexivity;
    repeat match goal with
           | H : num_ltb _ _ = true |- _ => apply num_ltb_true in H
           | H : num_ltb _ _ = false |- _ => apply num_ltb_false in H
           end;
    lra.
Qed.

Lemma clamp01_range (v : Q) : (0 <= clamp01 v)%Q /\ (clamp01 v <= 1)%Q.
Proof.
  unfold clamp01.
  destruct (num_ltb v 0) eqn:H0; [split; discriminate|].
  destruct (num_ltb 1 v) eqn:H1; [split; discriminate|].
  apply num_ltb_false in H0, H1. split; assumption.
Qed.

Lemma set_last_spec (v : Q) (l : list Q) :
  l <> [] ->
  exists l', set_last v l = Some l' /\ last l' = Some v /\
    length l' = length l /\
    take (Nat.pred (length l)) l' = take (Nat.pred (length l)) l.
Proof.
  intros Hl. destruct l as [|a l]; [congruence|].
  eexists; split; [reflexivity|].
  split; [|split].
  - rewrite last_lookup, length_insert.
    apply list_lookup_insert_eq. cbn. lia.
  - apply length_insert.
  - apply take_insert_ge. lia.
Qed.

(** C7.  Writing any [v] through [_soft_shadow_a] or [_hard_shadow_a] stores
    the clamp of [v] into [0, 1] as the last component of the shadow colour
    and leaves the other components alone; the getter reads it back. *)
Theorem shadow_alpha_clamped (v : Q) (w : Widget) :
  soft_shadow_cl w <> [] -> hard_shadow_cl w <> [] ->
  (exists w', _set_soft_shadow_a v w = Ok true w' /\
     last (soft_shadow_cl w') = Some (clamp01 v) /\
     _get_soft_shadow_a w' = Ok (clamp01 v) w' /\
     take (Nat.pred (length (soft_shadow_cl w))) (soft_shadow_cl w')
     = take (Nat.pred (length (soft_shadow_cl w))) (soft_shadow_cl w)) /\
  (exists w', _set_hard_shadow_a v w = Ok true w' /\
     last (hard_shadow_cl w') = Some (clamp01 v) /\
     _get_hard_shadow_a w' = Ok (clamp01 v) w' /\
     take (Nat.pred (length (hard_shadow_cl w))) (hard_shadow_cl w')
     = take (Nat.pred (length (hard_shadow_cl w))) (hard_shadow_cl w)) /\
  (0 <= clamp01 v)%Q /\ (clamp01 v <= 1)%Q /\
  ((v < 0)%Q -> clamp01 v = 0%Q) /\
  ((1 < v)%Q -> clamp01 v = 1%Q) /\
  ((0 <= v)%Q -> (v <= 1)%Q -> clamp01 v = v).
Proof.
  intros Hs Hh.
  destruct (set_last_spec (clamp01 v) _ Hs) as (ls & Els & Lls & _ & Tls).
  destruct (set_last_spec (clamp01 v) _ Hh) as (lh & Elh & Llh & _ & Tlh).
  split; [|split].
  - unfold _set_soft_shadow_a, _get_soft_shadow_a, bind, get, modify, ret.
    rewrite Els. eexists; split; [reflexivity|]. cbn.
    rewrite Lls. repeat split; assumption.
  - unfold _set_hard_shadow_a, _get_hard_shadow_a, bind, get, modify, ret.
    rewrite Elh. eexists; split; [reflexivity|]. cbn.
    rewrite Llh. repeat split; assumption.
  - destruct (clamp01_range v), (clamp01_cases v) as (? & ? & ?).
    repeat split; assumption.
Qed.

(** **** Disabling a widget *)

Lemma same_inputs_config w w' : same_inputs w w' -> same_config w w'.
Proof.
  unfold same_inputs, same_config. intros H.
  repeat match goal with H : _ /\ _ |- _ => destruct H end.
  repeat split; assumption.
Qed.

Lemma same_inputs_elevation w w' :
  same_inputs w w' -> _elevation w' = _elevation w.
Proof. unfold same_inputs. intros H. apply H. Qed.

Lemma set__elevation_unfold v w :
  set__elevation dp v w
  = if num_eqb (_elevation w) v then Ok tt w
    else if elevation_bound w then _update_shadow dp (store__elevation v w)
         else Ok tt (store__elevation v w).
Proof.
  unfold set__elevation, bind, get, modify, ret.
  destruct (num_eqb (_elevation w) v); [reflexivity|].
  destruct (elevation_bound w); reflexivity.
Qed.

Lemma set__elevation_final v w :
  (_elevation (final_state (set__elevation dp v w)) == v)%Q /\
  same_config w (final_state (set__elevation dp v w)).
Proof.
  rewrite set__elevation_unfold.
  destruct (num_eqb (_elevation w) v) eqn:E.
  - cbn. split; [apply Qeq_bool_eq; exact E | repeat split].
  - destruct (elevation_bound w) eqn:B.
    + pose proof (_update_shadow_inputs (store__elevation v w)) as Hin.
      split.
      * rewrite (same_inputs_elevation _ _ Hin). cbn. reflexivity.
      * apply same_inputs_config in Hin.
        unfold same_config in *; cbn in Hin. exact Hin.
    + cbn. split; [reflexivity | repeat split].
Qed.

Lemma set__elevation_returns v w :
  draw_shadow w <> CommonElevationBehavior \/ (v <= 0)%Q ->
  exists w', set__elevation dp v w = Ok tt w'.
Proof.
  intros Hc. rewrite set__elevation_unfold.
  destruct (num_eqb (_elevation w) v); [eexists; reflexivity|].
  destruct (elevation_bound w); [|eexists; reflexivity].
  apply _update_shadow_returns. exact Hc.
Qed.

Lemma on_disabled_unfold w :
  on_disabled dp w
  = match set__elevation dp
            (if disabled w then 0%Q
             else match elevation w with None => 0%Q | Some e => e end) w with
    | Ok _ w' => _update_shadow dp w'
    | Raise e w' => Raise e w'
    end.
Proof.
  unfold on_disabled, bind, get. destruct (disabled w); reflexivity.
Qed.

Lemma on_disabled_final w :
  let v := if disabled w then 0%Q
           else match elevation w with None => 0%Q | Some e => e end in
  (_elevation (final_state (on_disabled dp w)) == v)%Q /\
  same_config w (final_state (on_disabled dp w)).
Proof.
  intros v. rewrite on_disabled_unfold. fold v.
  destruct (set__elevation_final v w) as [Hv Hc].
  destruct (set__elevation dp v w) as [[] w1 | e w1];
    cbn [final_state] in *.
  - pose proof (_update_shadow_inputs w1) as Hin. split.
    + rewrite (same_inputs_elevation _ _ Hin). exact Hv.
    + apply same_inputs_config in Hin.
      unfold same_config in *. intuition congruence.
  - split; assumption.
Qed.

Lemma on_disabled_returns w :
  draw_shadow w <> CommonElevationBehavior \/ disabled w = true ->
  exists w', on_disabled dp w = Ok tt w'.
Proof.
  intros Hc. rewrite on_disabled_unfold.
  set (v := if disabled w then 0%Q
            else match elevation w with None => 0%Q | Some e => e end).
  assert (Hv : draw_shadow w <> CommonElevationBehavior \/ (v <= 0)%Q).
  { destruct Hc as [Hc | Hd]; [left; exact Hc|].
    right. subst v. rewrite Hd. apply Qle_refl. }
  destruct (set__elevation_final v w) as [Hev (_ & _ & Hdraw & _)].
  destruct (set__elevation_returns v w Hv) as [w1 Hw1].
  rewrite Hw1 in *. cbn in Hev, Hdraw.
  apply _update_shadow_returns.
  destruct Hv as [Hv | Hv]; [left; congruence|].
  right. rewrite Hev. exact Hv.
Qed.

(** On a disabled widget [on_disabled] leaves no shadow to draw: both
    textures are the transparent placeholder. *)
Lemma on_disabled_hides w w1 :
  disabled w = true -> on_disabled dp w = Ok tt w1 ->
  hard_shadow_texture w1 = placeholder /\
  _soft_shadow_texture w1 = placeholder.
Proof.
  intros Hd. rewrite on_disabled_unfold, Hd.
  destruct (set__elevation_final 0 w) as [Hv _].
  destruct (set__elevation dp 0 w) as [[] w' | e w']; [|discriminate].
  cbn [final_state] in Hv.
  rewrite (_update_shadow_flat w')
    by (apply num_ltb_false; rewrite Hv; apply Qle_refl).
  intros [= <-]. split; reflexivity.
Qed.

(** C9.  Setting [disabled] to [True] on an enabled widget whose configured
    elevation is [e] completes, brings [_elevation] to 0, which hides the
    shadow (both textures become the transparent placeholder), and keeps
    [elevation] at [e]; setting it back to [False] brings [_elevation] back
    to [e], and completes when the class has a drawing hook. *)
Theorem disabled_hides_shadow (w : Widget) (e : Q) :
  elevation w = Some e -> disabled w = false ->
  exists w1,
    set_disabled dp true w = Ok tt w1 /\
    disabled w1 = true /\ (_elevation w1 == 0)%Q /\ elevation w1 = Some e /\
    hard_shadow_texture w1 = placeholder /\
    _soft_shadow_texture w1 = placeholder /\
    fully_transparent placeholder /\
    let w2 := final_state (set_disabled dp false w1) in
    disabled w2 = false /\ (_elevation w2 == e)%Q /\ elevation w2 = Some e /\
    (draw_shadow w <> CommonElevationBehavior ->
     set_disabled dp false w1 = Ok tt w2).
Proof.
  intros He Hd.
  assert (E1 : set_disabled dp true w = on_disabled dp (store_disabled true w)).
  { unfold set_disabled, bind, get, modify. rewrite Hd. reflexivity. }
  destruct (on_disabled_returns (store_disabled true w)) as [w1 Hw1];
    [right; reflexivity|].
  destruct (on_disabled_final (store_disabled true w))
    as [Hv (Hdis & Hel & Hdraw & _)].
  rewrite Hw1 in Hv, Hdis, Hel, Hdraw.
  cbn [final_state store_disabled disabled elevation draw_shadow]
    in Hv, Hdis, Hel, Hdraw.
  destruct (on_disabled_hides (store_disabled true w) w1 eq_refl Hw1)
    as [Hhard Hsoft].
  exists w1. rewrite E1. split; [exact Hw1|].
  split; [exact Hdis|]. split; [exact Hv|].
  split; [congruence|].
  split; [exact Hhard|]. split; [exact Hsoft|].
  split; [cbn; repeat split|].
  assert (E2 : set_disabled dp false w1
               = on_disabled dp (store_disabled false w1)).
  { unfold set_disabled, bind, get, modify. rewrite Hdis. reflexivity. }
  destruct (on_disabled_final (store_disabled false w1))
    as [Hv2 (Hdis2 & Hel2 & Hdraw2 & _)].
  cbn [store_disabled disabled elevation draw_shadow]
    in Hv2, Hdis2, Hel2, Hdraw2.
  rewrite Hel in Hv2. cbn [elevation store_disabled] in Hv2. rewrite He in Hv2.
  cbv zeta. rewrite E2.
  split; [exact Hdis2|]. split; [exact Hv2|].
  split; [congruence|].
  intros Hc.
  destruct (on_disabled_returns (store_disabled false w1)) as [w2 Hw2].
  { left. cbn [store_disabled draw_shadow]. congruence. }
  rewrite Hw2. reflexivity.
Qed.

End ElevationFacts.

Lemma update_shadow_textures_witness :
  exists w',
    Elevation._update_shadow (fun q => q) Elevation.raised_widget = Ok tt w' /\
    Elevation.im_size (Elevation.hard_shadow_texture w') = (14, 14) /\
    Elevation.im_size (Elevation._soft_shadow_texture w') = (20, 20).
Proof.
  destruct (update_shadow_textures (fun q => q) Elevation.raised_widget)
    as [_ Hpos].
  destruct Hpos as (w' & Hrun & Hh & _ & Hs & _);
    [reflexivity | discriminate |].
  exists w'. split; [exact Hrun|]. split; [exact Hh | exact Hs].
Defined.

Lemma shadow_alpha_clamped_witness :
  exists w', Elevation._set_soft_shadow_a (7 # 2) (Elevation.new_widget Elevation.RectangularElevationBehavior)
             = Ok true w' /\
    last (Elevation.soft_shadow_cl w') = Some 1%Q.
Proof.
  destruct (shadow_alpha_clamped (7 # 2) (Elevation.new_widget Elevation.RectangularElevationBehavior))
    as ((w' & Hset & Hlast & _) & _); [discriminate | discriminate |].
  exists w'. split; [exact Hset | exact Hlast].
Defined.

Lemma disabled_hides_shadow_witness :
  exists w1,
    Elevation.set_disabled (fun q => q) true Elevation.raised_widget = Ok tt w1 /\
    (Elevation._elevation w1 == 0)%Q /\
    Elevation.elevation w1 = Some 1%Q /\
    Elevation._soft_shadow_texture w1 = Elevation.placeholder /\
    (Elevation._elevation
       (final_state (Elevation.set_disabled (fun q => q) false w1)) == 1)%Q.
Proof.
  destruct (disabled_hides_shadow (fun q => q) Elevation.raised_widget 1
              eq_refl eq_refl)
    as (w1 & Hrun & _ & Hzero & Hkept & _ & Hsoft & _ & _ & Hback & _).
  exists w1. split; [exact Hrun|]. split; [exact Hzero|].
  split; [exact Hkept|]. split; [exact Hsoft | exact Hback].
Defined.

(** C1, as stated, fails: at density 1 a widget 10.5 pixels wide with the
    default offsets and elevation 1 gets a hard texture 14 pixels wide, not
    10.5 + 2 * 2, and a soft texture 20 pixels wide, not 10.5 + 2 * 1 + 2 * 4:
    the sizes are truncated to whole pixels. *)
Lemma update_shadow_size_truncated :
  (0 < Elevation._elevation Elevation.raised_widget)%Q /\
  exists w',
    Elevation._update_shadow (fun q => q) Elevation.raised_widget = Ok tt w' /\
    ~ (inject_Z (fst (Elevation.im_size (Elevation.hard_shadow_texture w')))
       == fst (Elevation.size Elevation.raised_widget)
          + 2 * Elevation.hard_shadow_offset Elevation.raised_widget)%Q /\
    ~ (inject_Z (fst (Elevation.im_size (Elevation._soft_shadow_texture w')))
       == fst (Elevation.size Elevation.raised_widget)
          + 2 * Elevation._elevation Elevation.raised_widget
          + 2 * Elevation.soft_shadow_offset Elevation.raised_widget)%Q.
Proof.
  split; [reflexivity|].
  eexists; split; [vm_compute; reflexivity|].
  split; intros H; vm_compute in H; discriminate H.
Qed.

(** * Facts about the shadow-group registry *)

(** [_clear_shadow_groups] gives up at the first empty group it meets: when
    the registry starts with one, nothing is removed at all. *)
Lemma _clear_shadow_groups_stops (wk : Elevation.weakref) (st : Elevation.World)
  (name : string) (rest : list (string * list Elevation.weakref)) :
  Elevation.__shadow_groups st = (name, []) :: rest ->
  Elevation._clear_shadow_groups wk st = Ok tt st.
Proof.
  intros H. unfold Elevation._clear_shadow_groups, bind, get.
  rewrite H. reflexivity.
Qed.

Lemma list_remove_contains {A} (eqb : A -> A -> bool) (x : A) (l : list A) :
  Elevation.list_contains eqb x l = true ->
  exists l', Elevation.list_remove eqb x l = Some l' /\
             length l = S (length l').
Proof.
  unfold Elevation.list_contains.
  induction l as [|y l IH]; cbn; [discriminate|].
  destruct (eqb y x); cbn; [eauto|].
  intros H. destruct (IH H) as (l' & -> & Hlen).
  eexists; split; [reflexivity|]. cbn. now rewrite Hlen.
Qed.

(** When the groups in front are all non-empty and do not hold the
    reference, the callback reaches the group that holds it and removes it
    there. *)
Lemma clear_groups_loop_reaches (wk : Elevation.weakref) (st : Elevation.World)
  (before : list (string * list Elevation.weakref)) (name : string)
  (group : list Elevation.weakref)
  (rest : list (string * list Elevation.weakref)) :
  Forall (fun ng => snd ng <> [] /\
                    Elevation.list_contains (Elevation.ref_eqb st) wk (snd ng)
                    = false) before ->
  Elevation.list_contains (Elevation.ref_eqb st) wk group = true ->
  Elevation.clear_groups_loop wk (before ++ (name, group) :: rest) st
  = Elevation.group_remove name wk st.
Proof.
  intros Hbefore Hin. induction Hbefore as [|[n g] before [Hne Hout] _ IH].
  - cbn [app Elevation.clear_groups_loop].
    destruct group as [|r group]; [discriminate|].
    unfold bind, get. rewrite Hin. reflexivity.
  - cbn [app Elevation.clear_groups_loop snd] in *.
    destruct g as [|r g]; [congruence|].
    unfold bind, get. rewrite Hout. exact IH.
Qed.

(** An empty group in front of it hides the group from the callback. *)
Lemma clear_groups_loop_stops (wk : Elevation.weakref) (st : Elevation.World)
  (before : list (string * list Elevation.weakref)) (name : string)
  (rest : list (string * list Elevation.weakref)) :
  Forall (fun ng => snd ng <> [] /\
                    Elevation.list_contains (Elevation.ref_eqb st) wk (snd ng)
                    = false) before ->
  Elevation.clear_groups_loop wk (before ++ (name, []) :: rest) st = Ok tt st.
Proof.
  intros Hbefore. induction Hbefore as [|[n g] before [Hne Hout] _ IH].
  - reflexivity.
  - cbn [app Elevation.clear_groups_loop snd] in *.
    destruct g as [|r g]; [congruence|].
    unfold bind, get. rewrite Hout. exact IH.
Qed.

Section Regrouping.

Import Elevation.

Lemma update_widget_heap (target : nat) (f : Widget -> Widget) (st : World) :
  update_widget target f st = Ok tt (set_heap (alter f target (heap st)) st).
Proof. reflexivity. Qed.

Lemma dict_get_set_eq {V} (k : string) (v : V) (d : list (string * V)) :
  dict_get k (dict_set k v d) = Some v.
Proof.
  induction d as [|[k' v'] d IH]; cbn.
  - now rewrite String.eqb_refl.
  - destruct (String.eqb_spec k' k) as [->|Hne]; cbn.
    + now rewrite String.eqb_refl.
    + destruct (String.eqb_spec k' k); [contradiction | exact IH].
Qed.

Lemma dict_get_set_ne {V} (k k' : string) (v : V) (d : list (string * V)) :
  k <> k' -> dict_get k' (dict_set k v d) = dict_get k' d.
Proof.
  intros Hne. induction d as [|[k0 v0] d IH]; cbn.
  - destruct (String.eqb_spec k k'); [contradiction | reflexivity].
  - destruct (String.eqb_spec k0 k) as [->|Hne0]; cbn.
    + destruct (String.eqb_spec k k'); [contradiction | reflexivity].
    + destruct (String.eqb_spec k0 k'); [reflexivity | exact IH].
Qed.

Lemma in_group_filter (self : nat) (group : list weakref) :
  in_group self (List.filter (fun r => negb (refers_to self r)) group) = false.
Proof.
  unfold in_group. induction group as [|r group IH]; [reflexivity|].
  cbn. destruct (refers_to self r) eqn:E; cbn; [exact IH|].
  rewrite E. exact IH.
Qed.

(** Removing a reference to the live widget [self] from a group whose
    reference objects are distinct drops the first reference to [self] and
    nothing else. *)
Lemma list_remove_first_self (st : World) (self : nat) (r : weakref)
  (cur tl : list weakref) :
  is_Some (heap st !! self) ->
  List.filter (refers_to self) cur = r :: tl ->
  NoDup (map wk_id cur) ->
  exists cur',
    list_remove (ref_eqb st) r cur = Some cur' /\
    List.filter (refers_to self) cur' = tl /\
    List.filter (fun r => negb (refers_to self r)) cur'
    = List.filter (fun r => negb (refers_to self r)) cur /\
    (forall x, In x cur' -> In x cur) /\
    NoDup (map wk_id cur').
Proof.
  intros [w Hw]. revert tl.
  induction cur as [|y cur IH]; intros tl Hf Hnd; [discriminate|].
  cbn [List.filter] in Hf. cbn [map] in Hnd.
  apply NoDup_cons in Hnd. destruct Hnd as [Hy Hnd].
  assert (Hr : refers_to self r = true /\ In r (y :: cur)).
  { assert (Hin : In r (List.filter (refers_to self) (y :: cur))).
    { cbn [List.filter]. rewrite Hf. left. reflexivity. }
    apply filter_In in Hin. tauto. }
  destruct Hr as [Hr Hrin].
  assert (Hdr : deref st r = Some self).
  { unfold deref. apply Nat.eqb_eq in Hr. rewrite Hr, Hw. reflexivity. }
  destruct (refers_to self y) eqn:Ey.
  - injection Hf as -> Htl. cbn [list_remove].
    unfold ref_eqb. rewrite Hdr, Nat.eqb_refl.
    exists cur. split; [reflexivity|]. split; [exact Htl|].
    split; [cbn [List.filter]; rewrite Ey; reflexivity|].
    split; [intros x Hx; right; exact Hx | exact Hnd].
  - destruct (IH tl Hf Hnd) as (cur' & Hrm & Hf' & Hn' & Hsub & Hnd').
    assert (Hrcur : In r cur).
    { destruct Hrin as [-> | H]; [congruence | exact H]. }
    assert (Hne : ref_eqb st y r = false).
    { unfold ref_eqb. rewrite Hdr. unfold deref.
      destruct (heap st !! wk_target y).
      - exact Ey.
      - apply Nat.eqb_neq. intros E. apply Hy.
        rewrite E. apply list_elem_of_In, in_map, Hrcur. }
    cbn [list_remove]. rewrite Hne, Hrm.
    exists (y :: cur'). split; [reflexivity|].
    split; [cbn [List.filter]; rewrite Ey; exact Hf'|].
    split; [cbn [List.filter]; rewrite Ey; cbn [negb]; now rewrite Hn'|].
    split.
    + intros x [-> | Hx]; [left; reflexivity | right; apply Hsub, Hx].
    + cbn [map]. apply NoDup_cons. split; [|exact Hnd'].
      intros Hin. apply Hy.
      apply list_elem_of_In, in_map_iff in Hin. destruct Hin as (x & Ex & Hx).
      rewrite <- Ex. apply list_elem_of_In, in_map, Hsub, Hx.
Qed.

(** The loop of [on_shadow_group] removes from the previous group every
    reference to [self], leaves the other references in order, and touches
    no other group. *)
Lemma remove_refs_to_spec (self : nat) (name : string)
  (snapshot : list weakref) (st : World) (cur : list weakref) :
  is_Some (heap st !! self) ->
  dict_get name (__shadow_groups st) = Some cur ->
  NoDup (map wk_id cur) ->
  List.filter (refers_to self) cur = List.filter (refers_to self) snapshot ->
  exists st',
    remove_refs_to self name snapshot st = Ok tt st' /\
    heap st' = heap st /\ next_ref st' = next_ref st /\
    dict_get name (__shadow_groups st')
    = Some (List.filter (fun r => negb (refers_to self r)) cur) /\
    (forall other, name <> other ->
       dict_get other (__shadow_groups st')
       = dict_get other (__shadow_groups st)).
Proof.
  intros Hlive. revert st cur Hlive.
  induction snapshot as [|r snapshot IH]; intros st cur Hlive Hget Hnd Hf.
  - exists st. split; [reflexivity|]. split; [reflexivity|].
    split; [reflexivity|]. split; [|reflexivity].
    rewrite Hget. f_equal. cbn [List.filter] in Hf.
    clear -Hf. induction cur as [|y cur IH]; [reflexivity|].
    cbn [List.filter] in *. destruct (refers_to self y); [discriminate|].
    cbn [negb]. f_equal. apply IH, Hf.
  - cbn [remove_refs_to]. unfold bind at 1. unfold get at 1.
    destruct Hlive as [w Hw].
    destruct (refers_to self r) eqn:Er.
    + assert (Hdr : deref st r = Some self).
      { unfold deref. apply Nat.eqb_eq in Er. rewrite Er, Hw. reflexivity. }
      rewrite Hdr, Nat.eqb_refl.
      cbn [List.filter] in Hf. rewrite Er in Hf.
      destruct (list_remove_first_self st self r cur _ (ex_intro _ w Hw) Hf Hnd)
        as (cur' & Hrm & Hf' & Hn' & _ & Hnd').
      unfold bind at 1. unfold group_remove at 1. unfold bind at 1.
      unfold get at 1. rewrite Hget, Hrm. unfold put.
      set (st1 := set_groups _ st).
      destruct (IH st1 cur') as (st' & Hrun & Hheap & Hnext & Hname & Hother).
      { exists w. exact Hw. }
      { apply dict_get_set_eq. }
      { exact Hnd'. }
      { exact Hf'. }
      exists st'. split; [exact Hrun|]. split; [exact Hheap|].
      split; [exact Hnext|]. split; [rewrite Hname, Hn'; reflexivity|].
      intros other Hne. rewrite (Hother other Hne).
      apply dict_get_set_ne, Hne.
    + assert (Hskip :
        (match deref st r with
         | Some target =>
             if Nat.eqb target self then group_remove name r else ret tt
         | None => ret tt
         end) st = Ok tt st).
      { unfold deref. destruct (heap st !! wk_target r); [|reflexivity].
        unfold refers_to in Er. rewrite Er. reflexivity. }
      unfold bind at 1. rewrite Hskip.
      cbn [List.filter] in Hf. rewrite Er in Hf.
      apply (IH st cur (ex_intro _ w Hw) Hget Hnd Hf).
Qed.

(** X6.  Moving between named groups keeps the registry's invariant.  When
    the previous group of a live widget has a non-empty name and the
    widget's references are all in that group, [on_shadow_group] returns,
    the new group ends with a fresh reference to the widget, and no other
    group holds a reference to it. *)
Theorem on_shadow_group_moves (self : nat) (st : World) (w : Widget)
  (prev : string) (group : list weakref) :
  heap st !! self = Some w ->
  prev_shadow_group w = Some prev -> prev <> ""%string ->
  dict_get prev (__shadow_groups st) = Some group ->
  NoDup (map wk_id group) ->
  (forall name g, name <> prev ->
     dict_get name (__shadow_groups st) = Some g -> in_group self g = false) ->
  exists st' members,
    on_shadow_group self st = Ok tt st' /\
    dict_get (shadow_group w) (__shadow_groups st')
    = Some (members ++ [mk_ref (next_ref st) self]) /\
    in_group self members = false /\
    (forall name g, name <> shadow_group w ->
       dict_get name (__shadow_groups st') = Some g ->
       in_group self g = false) /\
    prev_shadow_group <$> heap st' !! self = Some (Some (shadow_group w)).
Proof.
  intros Hw Hprev Hne Hget Hnd Honly.
  destruct (remove_refs_to_spec self prev group st group
              (ex_intro _ w Hw) Hget Hnd eq_refl)
    as (st1 & Hrun & Hheap & Hnext & Hname & Hother).
  set (new := shadow_group w).
  set (st2 := set_heap (alter (set_prev_shadow_group (Some new)) self (heap st1))
                st1).
  assert (Hclean : forall name g, dict_get name (__shadow_groups st1) = Some g ->
                                  in_group self g = false).
  { intros name g Hg. destruct (decide (prev = name)) as [<-|Hn].
    - rewrite Hname in Hg. injection Hg as <-. apply in_group_filter.
    - rewrite (Hother name Hn) in Hg. eapply Honly; [|exact Hg]. congruence. }
  assert (Hstart : on_shadow_group self st
                   = (do st0 <- get;
                      (if dict_has new (__shadow_groups st0) then ret tt
                       else put (set_groups
                                   (dict_set new [] (__shadow_groups st0)) st0));;
                      do r <- new_ref self;
                      group_append new r)%py st2).
  { unfold on_shadow_group, with_self. unfold bind at 1. unfold get at 1.
    rewrite Hw, Hprev. cbn [truthy].
    destruct (String.eqb_spec prev "") as [E|_]; [contradiction|]. cbn [negb].
    unfold bind at 1. unfold bind at 1. unfold get at 1.
    rewrite Hget, Hrun. unfold bind at 1. rewrite update_widget_heap.
    reflexivity. }
  rewrite Hstart. unfold bind at 1. unfold get at 1.
  cbn [st2 __shadow_groups set_heap].
  unfold dict_has.
  destruct (dict_get new (__shadow_groups st1)) as [members|] eqn:Hnew.
  - exists (set_groups (dict_set new (members ++ [mk_ref (next_ref st) self])
                          (__shadow_groups st1))
              (mk_world (heap st2) (__shadow_groups st1) (next_widget st1)
                 (S (next_ref st1)))), members.
    split.
    { unfold group_append, new_ref, bind, ret, get, put.
      cbn [st2 __shadow_groups set_heap next_ref heap next_widget].
      rewrite Hnew, Hnext. reflexivity. }
    cbn [__shadow_groups set_groups heap].
    split; [apply dict_get_set_eq|].
    split; [apply (Hclean new), Hnew|].
    split.
    + intros name g Hn Hg. rewrite dict_get_set_ne in Hg by congruence.
      apply (Hclean name), Hg.
    + cbn [st2 heap set_heap]. rewrite lookup_alter_eq, Hheap, Hw.
      reflexivity.
  - exists (set_groups (dict_set new ([] ++ [mk_ref (next_ref st) self])
                          (dict_set new [] (__shadow_groups st1)))
              (mk_world (heap st2) (dict_set new [] (__shadow_groups st1))
                 (next_widget st1) (S (next_ref st1)))), [].
    split.
    { unfold group_append, new_ref, bind, ret, get, put.
      cbn [st2 __shadow_groups set_heap set_groups next_ref heap next_widget].
      rewrite dict_get_set_eq, Hnext. reflexivity. }
    cbn [__shadow_groups set_groups heap].
    split; [apply dict_get_set_eq|].
    split; [reflexivity|].
    split.
    + intros name g Hn Hg.
      rewrite !dict_get_set_ne in Hg by congruence.
      apply (Hclean name), Hg.
    + cbn [st2 heap set_heap]. rewrite lookup_alter_eq, Hheap, Hw.
      reflexivity.
Qed.

End Regrouping.

Section BulkUpdates.

Import Elevation.

Variable dp : Q -> Q.

(** When every reference of the group is alive, [force_shadow_pos] returns,
    leaves the registry as it is, and every member ends with the forced
    offset. *)
Lemma force_shadow_pos_loop_live (name : string) (v : Q * Q)
  (snapshot : list weakref) (st : World) :
  Forall (fun wk => is_Some (heap st !! wk_target wk)) snapshot ->
  exists st',
    force_shadow_pos_loop dp name v snapshot st = Ok tt st' /\
    __shadow_groups st' = __shadow_groups st /\
    (forall wk, wk ∈ snapshot ->
       exists w', heap st' !! wk_target wk = Some w' /\
                  pair_eqb (shadow_pos w') v = true) /\
    (forall i, (forall wk, wk ∈ snapshot -> wk_target wk <> i) ->
       heap st' !! i = heap st !! i).
Proof.
  revert st. induction snapshot as [|wk snapshot IH]; intros st Hlive.
  - exists st. split; [reflexivity|]. split; [reflexivity|].
    split; [|reflexivity].
    intros wk H. apply elem_of_nil in H. contradiction.
  - apply Forall_cons in Hlive. destruct Hlive as [[w Hw] Hlive].
    cbn [force_shadow_pos_loop]. unfold bind at 1. unfold get at 1.
    unfold deref. rewrite Hw. unfold bind at 1. unfold ret at 1.
    unfold bind at 1. rewrite update_widget_heap.
    set (st1 := set_heap _ st).
    destruct (IH st1) as (st' & Hrun & Hgroups & Hin & Hout).
    { eapply Forall_impl; [exact Hlive|].
      intros r [wr Hr]. cbn [st1 heap set_heap].
      destruct (decide (wk_target wk = wk_target r)) as [E|E].
      - rewrite <- E, lookup_alter_eq, Hw. eauto.
      - rewrite lookup_alter_ne by exact E. eauto. }
    exists st'. split; [exact Hrun|]. split; [exact Hgroups|]. split.
    + intros r Hr.
      destruct (decide (Exists (fun r' => wk_target r' = wk_target r) snapshot))
        as [Hex|Hex].
      * apply Exists_exists in Hex. destruct Hex as (r' & Hr' & E).
        rewrite <- E. apply Hin, Hr'.
      * apply elem_of_cons in Hr. destruct Hr as [-> | Hr].
        -- rewrite Hout.
           ++ cbn [st1 heap set_heap]. rewrite lookup_alter_eq, Hw. cbn.
              eexists. split; [reflexivity|]. apply set_shadow_pos_value.
           ++ intros r' Hr' E. apply Hex, Exists_exists. eauto.
        -- exfalso. apply Hex, Exists_exists. eauto.
    + intros i Hi. rewrite Hout.
      * cbn [st1 heap set_heap]. apply lookup_alter_ne.
        apply Hi. left.
      * intros r Hr. apply Hi. right. exact Hr.
Qed.

End BulkUpdates.

(** C4, the defect.  A widget created in ["global"] and moved to ["cards"]
    leaves ["global"] empty in front of its own group.  When it is dropped
    its callback runs, stops at the empty ["global"] group and returns: the
    dead reference is still in ["cards"]. *)
Theorem finalizer_stops_at_empty_group :
  exists a st1 st2,
    Elevation.card_created Elevation.initial_world = Ok a st1 /\
    Elevation.__shadow_groups st1
    = [("global"%string, []); ("cards"%string, [Elevation.mk_ref 1 a])] /\
    Elevation.refs_to a st1 = [Elevation.mk_ref 1 a] /\
    Elevation.drop_widget a st1 = Ok tt st2 /\
    Elevation.heap st2 !! a = None /\
    Elevation.deref st2 (Elevation.mk_ref 1 a) = None /\
    Elevation.__shadow_groups st2
    = [("global"%string, []); ("cards"%string, [Elevation.mk_ref 1 a])].
Proof.
  do 3 eexists.
  split; [vm_compute; reflexivity|].
  split; [reflexivity|].
  split; [reflexivity|].
  split; [vm_compute; reflexivity|].
  repeat split.
Qed.

(** C5, the defect.  A widget moved to the group with the empty name and
    then to ["cards"] keeps its reference in the former: [on_shadow_group]
    tests the truth value of [prev_shadow_group], and the empty string is
    false.  The live widget is then a member of two groups. *)
Theorem regroup_through_empty_name :
  exists a st,
    Elevation.regrouped_through_empty_name Elevation.initial_world = Ok a st /\
    Elevation.__shadow_groups st
    = [("global"%string, []); (""%string, [Elevation.mk_ref 1 a]);
       ("cards"%string, [Elevation.mk_ref 2 a])] /\
    Elevation.deref st (Elevation.mk_ref 1 a) = Some a /\
    Elevation.deref st (Elevation.mk_ref 2 a) = Some a /\
    Elevation.shadow_group <$> Elevation.heap st !! a = Some "cards"%string.
Proof.
  do 2 eexists.
  split; [vm_compute; reflexivity|].
  repeat split.
Qed.

(** C3, the defect.  With a dead reference in front of a live member, both
    bulk operations remove the dead reference and then go on to assign to
    its missing target: [AttributeError] is raised, the loop is abandoned
    and the live member never receives the update. *)
Theorem bulk_update_raises_on_dead_reference :
  exists b st,
    Elevation.two_cards_one_dropped Elevation.initial_world = Ok b st /\
    Elevation.__shadow_groups st
    = [("global"%string, []);
       ("cards"%string, [Elevation.mk_ref 1 0; Elevation.mk_ref 3 b])] /\
    Elevation.deref st (Elevation.mk_ref 1 0) = None /\
    Elevation.deref st (Elevation.mk_ref 3 b) = Some b /\
    (forall dp, exists st',
        Elevation.force_shadow_pos dp b (5, 5)%Q st = Raise AttributeError st' /\
        Elevation.__shadow_groups st'
        = [("global"%string, []); ("cards"%string, [Elevation.mk_ref 3 b])] /\
        Elevation.shadow_pos <$> Elevation.heap st' !! b = Some (0, 0)%Q) /\
    (forall (Value : Type) setattr property_name (value : Value), exists st',
        Elevation.update_group_property Value setattr b property_name value st
        = Raise AttributeError st' /\
        Elevation.__shadow_groups st'
        = [("global"%string, []); ("cards"%string, [Elevation.mk_ref 3 b])] /\
        Elevation.heap st' = Elevation.heap st).
Proof.
  do 2 eexists.
  split; [vm_compute; reflexivity|].
  split; [reflexivity|].
  split; [reflexivity|].
  split; [reflexivity|].
  split.
  - intros dp. eexists. split; [vm_compute; reflexivity|]. split; reflexivity.
  - intros Value setattr property_name value. eexists.
    split; [vm_compute; reflexivity|]. split; reflexivity.
Qed.

(** * Facts about the theme manager *)

Lemma list_ascii_of_string_append (s t : string) :
  list_ascii_of_string (s +:+ t)
  = (list_ascii_of_string s ++ list_ascii_of_string t)%list.
Proof.
  induction s as [|c s IH]; [reflexivity|].
  change (c :: list_ascii_of_string (s +:+ t)
          = c :: (list_ascii_of_string s ++ list_ascii_of_string t)%list).
  now rewrite IH.
Qed.

Lemma append_suffix_inj (t s1 s2 : string) :
  s1 +:+ t = s2 +:+ t -> s1 = s2.
Proof.
  intros H. apply (f_equal list_ascii_of_string) in H.
  rewrite !list_ascii_of_string_append in H.
  apply app_inv_tail in H.
  rewrite <- (string_of_list_ascii_of_string s1),
          <- (string_of_list_ascii_of_string s2).
  now rewrite H.
Qed.

Section StyleSwitch.

Import Theming.

Variable Color : Type.

Local Notation "'TM'" := (ThemeManager Color).

(** **** The style switch *)

Lemma set_theme_style_changes (v : string) (tm : TM) :
  v ∈ theme_style_options -> theme_style tm <> v ->
  set_theme_style v tm
  = Ok tt (set_pending (pending tm ++ [cb_update_theme_colors])
             (set_theme_style_field v tm)).
Proof.
  intros Hv Hne. unfold set_theme_style, bind, get, modify, schedule_once.
  rewrite bool_decide_eq_true_2 by exact Hv.
  destruct (String.eqb_spec (theme_style tm) v) as [E|_]; [contradiction|].
  reflexivity.
Qed.

Lemma theme_style_options_cases (v : string) :
  v ∈ theme_style_options <-> v = "Light"%string \/ v = "Dark"%string.
Proof.
  unfold theme_style_options. rewrite !elem_of_cons, elem_of_nil. tauto.
Qed.

(** C10.  From either style [switch_theme] moves [theme_style] to the other
    one, never leaving it unchanged, and a second call restores it. *)
Theorem switch_theme_involution (tm : TM) :
  theme_style tm ∈ theme_style_options ->
  exists tm1 tm2,
    switch_theme tm = Ok tt tm1 /\
    theme_style tm1 ∈ theme_style_options /\
    theme_style tm1 <> theme_style tm /\
    (theme_style tm = "Light"%string -> theme_style tm1 = "Dark"%string) /\
    (theme_style tm = "Dark"%string -> theme_style tm1 = "Light"%string) /\
    switch_theme tm1 = Ok tt tm2 /\
    theme_style tm2 = theme_style tm.
Proof.
  intros Hin. apply theme_style_options_cases in Hin.
  destruct tm as [pp dc pw ts ct names at_ pe].
  cbn [theme_style] in *.
  destruct Hin as [-> | ->].
  - exists (mk_theme pp dc pw "Dark"%string ct names at_
              (pe ++ [cb_update_theme_colors])).
    exists (mk_theme pp dc pw "Light"%string ct names at_
              ((pe ++ [cb_update_theme_colors]) ++ [cb_update_theme_colors])).
    split; [reflexivity|].
    split; [apply theme_style_options_cases; right; reflexivity|].
    split; [discriminate|].
    split; [reflexivity|]. split; [discriminate|].
    split; reflexivity.
  - exists (mk_theme pp dc pw "Light"%string ct names at_
              (pe ++ [cb_update_theme_colors])).
    exists (mk_theme pp dc pw "Dark"%string ct names at_
              ((pe ++ [cb_update_theme_colors]) ++ [cb_update_theme_colors])).
    split; [reflexivity|].
    split; [apply theme_style_options_cases; left; reflexivity|].
    split; [discriminate|].
    split; [discriminate|]. split; [reflexivity|].
    split; reflexivity.
Qed.

End StyleSwitch.

Section Publishing.

Import Theming.

Variable Color : Type.
Variable rgba : Color -> list Q.
Variable get_color_from_hex : string -> list Q.

Local Notation "'TM'" := (ThemeManager Color).

(** **** Publishing the roles of a scheme *)

Lemma dict_get_keys {V} (k : string) (d : list (string * V)) :
  k ∈ keys d -> is_Some (Elevation.dict_get k d).
Proof.
  induction d as [|[k' v] d IH]; cbn.
  - intros H. apply elem_of_nil in H. contradiction.
  - intros H. destruct (String.eqb_spec k' k) as [->|Hne]; [eauto|].
    apply elem_of_cons in H. destruct H as [->|H]; [congruence|].
    apply IH, H.
Qed.

Lemma attribute_names_keys (roles : list (string * Color)) :
  attribute_names roles = true <->
  Forall (fun n => isidentifier (n +:+ "Color") = true) (keys roles).
Proof.
  unfold attribute_names, keys.
  induction roles as [|[k v] roles IH]; cbn [forallb map fst].
  - split; [intros _; apply Forall_nil_2 | reflexivity].
  - rewrite andb_true_iff, Forall_cons, IH. reflexivity.
Qed.

Lemma publish_roles_spec (roles : list (string * Color)) (names : list string)
  (tm : TM) :
  (forall n, n ∈ names -> is_Some (Elevation.dict_get n roles)) ->
  Forall (fun n => isidentifier (n +:+ "Color") = true) names ->
  exists tm',
    publish_roles rgba roles names tm = Ok tt tm' /\
    same_settings tm tm' /\
    schemes_name_colors tm' = schemes_name_colors tm /\
    (forall role, role ∈ names ->
       exists c, Elevation.dict_get role roles = Some c /\
                 attrs tm' !! (role +:+ "Color") = Some (rgba c)) /\
    (forall k, (forall role, role ∈ names -> k <> role +:+ "Color") ->
       attrs tm' !! k = attrs tm !! k).
Proof.
  revert tm. induction names as [|n names IH]; intros tm Hall Hids.
  - exists tm. split; [reflexivity|].
    split; [repeat split|]. split; [reflexivity|].
    split; [|reflexivity].
    intros role H. apply elem_of_nil in H. contradiction.
  - destruct (Hall n) as [c Hc]; [left|].
    apply Forall_cons in Hids. destruct Hids as [Hid Hids].
    cbn [publish_roles]. rewrite Hc, Hid. unfold bind, modify.
    destruct (IH (set_attr (n +:+ "Color") (rgba c) tm))
      as (tm' & Hrun & Hsame & Hnames & Hin & Hout).
    { intros m Hm. apply Hall. right. exact Hm. }
    { exact Hids. }
    exists tm'. split; [exact Hrun|].
    split; [exact Hsame|]. split; [exact Hnames|]. split.
    + intros role Hrole.
      destruct (decide (role ∈ names)) as [Hr|Hr]; [apply Hin, Hr|].
      apply elem_of_cons in Hrole. destruct Hrole as [->|Hrole]; [|contradiction].
      exists c. split; [exact Hc|].
      rewrite Hout.
      * cbn [attrs set_attr]. apply lookup_insert_eq.
      * intros role Hrole E. apply append_suffix_inj in E. congruence.
    + intros k Hk. rewrite Hout.
      * cbn [attrs set_attr]. apply lookup_insert_ne.
        intros E. apply (Hk n); [left | symmetry; exact E].
      * intros role Hrole. apply Hk. right. exact Hrole.
Qed.

(** A run of the loop that returns has met only names of attributes. *)
Lemma publish_roles_names (roles : list (string * Color))
  (names : list string) (tm tm' : TM) :
  publish_roles rgba roles names tm = Ok tt tm' ->
  Forall (fun n => isidentifier (n +:+ "Color") = true) names.
Proof.
  revert tm. induction names as [|n names IH]; intros tm Hrun.
  - apply Forall_nil_2.
  - cbn [publish_roles] in Hrun.
    destruct (Elevation.dict_get n roles) as [c|]; [|discriminate].
    destruct (isidentifier (n +:+ "Color")) eqn:Hid; [|discriminate].
    unfold bind, modify in Hrun.
    apply Forall_cons_2; [exact Hid | exact (IH _ Hrun)].
Qed.

Lemma publish_scheme_names (roles : list (string * Color)) (tm tm' : TM) :
  publish_scheme rgba roles tm = Ok tt tm' -> attribute_names roles = true.
Proof.
  unfold publish_scheme, bind, modify, get.
  cbn [schemes_name_colors set_schemes_name_colors]. intros Hrun.
  apply attribute_names_keys. exact (publish_roles_names _ _ _ _ Hrun).
Qed.

Lemma publish_scheme_spec (roles : list (string * Color)) (tm : TM) :
  attribute_names roles = true ->
  exists tm',
    publish_scheme rgba roles tm = Ok tt tm' /\
    same_settings tm tm' /\
    schemes_name_colors tm' = keys roles /\
    (forall role, role ∈ keys roles ->
       exists c, Elevation.dict_get role roles = Some c /\
                 attrs tm' !! (role +:+ "Color") = Some (rgba c)) /\
    (forall k, (forall role, role ∈ keys roles -> k <> role +:+ "Color") ->
       attrs tm' !! k = attrs tm !! k).
Proof.
  intros Hids. unfold publish_scheme, bind, modify, get.
  cbn [schemes_name_colors set_schemes_name_colors].
  destruct (publish_roles_spec roles (keys roles)
              (set_schemes_name_colors (keys roles) tm))
    as (tm' & Hrun & Hsame & Hnames & Hin & Hout).
  { intros n Hn. apply dict_get_keys, Hn. }
  { apply attribute_names_keys, Hids. }
  exists tm'. split; [exact Hrun|]. split; [exact Hsame|].
  split; [exact Hnames|]. split; [exact Hin|]. exact Hout.
Qed.

(** [get_color_from_hex] gives the four components of a colour. *)
Hypothesis get_color_from_hex_length :
  forall h, length (get_color_from_hex h) = 4%nat.

Lemma set_disabledTextColor_spec (tm : TM) :
  theme_style tm ∈ theme_style_options ->
  exists color,
    set_disabledTextColor get_color_from_hex tm
    = Ok tt (set_attr "disabledTextColor" color tm).
Proof.
  intros Hin. apply theme_style_options_cases in Hin.
  unfold set_disabledTextColor, _get_disabled_hint_text_color, bind, get,
    modify, ret, _get_theme_style, list_assign.
  rewrite !get_color_from_hex_length.
  destruct Hin as [-> | ->]; eexists; reflexivity.
Qed.

Lemma update_theme_colors_publishes (tm : TM) (roles : list (string * Color)) :
  theme_style tm ∈ theme_style_options ->
  ((exists schemes scheme,
      current_color_theme tm !! "schemes"%string = Some (Schemes schemes) /\
      schemes !! lower (theme_style tm) = Some scheme /\
      props scheme = roles) \/
   (current_color_theme tm !! "schemes"%string = None /\
    current_color_theme tm !! lower (theme_style tm) = Some (Roles roles) /\
    attribute_names roles = true)) ->
  exists tm' color,
    update_theme_colors rgba get_color_from_hex tm
    = Ok tt (set_attr "disabledTextColor" color tm') /\
    same_settings tm tm' /\
    schemes_name_colors tm' = keys roles /\
    (forall role, role ∈ keys roles ->
       exists c, Elevation.dict_get role roles = Some c /\
                 attrs tm' !! (role +:+ "Color") = Some (rgba c)).
Proof.
  intros Hstyle Hct.
  assert (Hids : attribute_names roles = true).
  { destruct Hct as [(schemes & scheme & _ & _ & <-) | (_ & _ & Hids)];
      [apply props_names | exact Hids]. }
  destruct (publish_scheme_spec roles tm Hids)
    as (tm' & Hrun & Hsame & Hnames & Hin & _).
  assert (Hstyle' : theme_style tm' ∈ theme_style_options).
  { destruct Hsame as (_ & _ & _ & -> & _). exact Hstyle. }
  destruct (set_disabledTextColor_spec tm' Hstyle') as [color Hcolor].
  exists tm', color.
  split; [|split; [exact Hsame | split; [exact Hnames | exact Hin]]].
  unfold update_theme_colors, bind, get.
  destruct Hct as [(schemes & scheme & Hs & Hl & Hp) | (Hs & Hl & _)].
  - rewrite Hs. unfold scheme_props, ret. rewrite Hs, Hl, Hp.
    rewrite Hrun. exact Hcolor.
  - rewrite Hs. unfold style_roles, ret. rewrite Hl.
    rewrite Hrun. exact Hcolor.
Qed.

(** C2, as amended.  When [current_color_theme] holds the roles of the
    style being switched to (the scheme of that style under ["schemes"], or
    a dictionary of roles directly under the style name when there is no
    ["schemes"] entry), they are not empty and every role gives the name of
    an attribute, the switch of [theme_style] schedules
    [update_theme_colors], and that call sets [schemes_name_colors] to all
    the role names of the new style and gives every one of them a
    [<role>Color] attribute: the [rgba] of the role's colour, unless the
    role is [disabledText], whose attribute is then overwritten. *)
Theorem theme_style_switch_republishes (tm : TM) (style : string)
  (roles : list (string * Color)) :
  style ∈ theme_style_options -> theme_style tm <> style ->
  ((exists schemes scheme,
      current_color_theme tm !! "schemes"%string = Some (Schemes schemes) /\
      schemes !! lower style = Some scheme /\
      props scheme = roles) \/
   (current_color_theme tm !! "schemes"%string = None /\
    current_color_theme tm !! lower style = Some (Roles roles) /\
    attribute_names roles = true)) ->
  roles <> [] ->
  exists tm1 tm2,
    set_theme_style style tm = Ok tt tm1 /\
    theme_style tm1 = style /\
    pending tm1 = pending tm ++ [cb_update_theme_colors] /\
    update_theme_colors rgba get_color_from_hex tm1 = Ok tt tm2 /\
    theme_style tm2 = style /\
    schemes_name_colors tm2 = keys roles /\
    schemes_name_colors tm2 <> [] /\
    forall role, role ∈ schemes_name_colors tm2 ->
      is_Some (attrs tm2 !! (role +:+ "Color")) /\
      (role <> "disabledText"%string ->
       exists c, Elevation.dict_get role roles = Some c /\
                 attrs tm2 !! (role +:+ "Color") = Some (rgba c)).
Proof.
  intros Hstyle Hne Hct Hroles.
  rewrite (set_theme_style_changes Color style tm Hstyle Hne).
  set (tm1 := set_pending _ _).
  destruct (update_theme_colors_publishes tm1 roles)
    as (tm' & color & Hrun & Hsame & Hnames & Hin).
  { exact Hstyle. }
  { exact Hct. }
  exists tm1, (set_attr "disabledTextColor" color tm').
  split; [reflexivity|]. split; [reflexivity|]. split; [reflexivity|].
  split; [exact Hrun|].
  split; [destruct Hsame as (_ & _ & _ & Hts & _); exact Hts|].
  cbn [schemes_name_colors set_attr attrs]. rewrite Hnames.
  split; [reflexivity|].
  split; [destruct roles; [congruence | discriminate]|].
  intros role Hrole. destruct (Hin role Hrole) as (c & Hc & Hattr).
  split.
  - destruct (decide ("disabledTextColor"%string = role +:+ "Color")) as [E|E].
    + rewrite <- E, lookup_insert_eq. eauto.
    + rewrite lookup_insert_ne by exact E. rewrite Hattr. eauto.
  - intros Hd. exists c. split; [exact Hc|].
    rewrite lookup_insert_ne; [exact Hattr|].
    intros E. apply Hd.
    change ("disabledText" +:+ "Color" = role +:+ "Color") in E.
    apply append_suffix_inj in E. congruence.
Qed.

End Publishing.

Section SettingColors.

Import Theming.

Variable Color : Type.
Variable rgba : Color -> list Q.
Variable get_color_from_hex : string -> list Q.
Variable hex_colormap : list (string * string).
Variable user_data_dir : string.
Variable get_wallpaper : string -> string -> option string.
Variable theme_from_source_color : Z -> bool -> gmap string (Scheme Color).
Variable source_color_from_image : string -> Z.
Variable argb_from_rgb : Z -> Z -> Z -> Z.

Local Notation "'TM'" := (ThemeManager Color).

Hypothesis get_color_from_hex_length :
  forall h, length (get_color_from_hex h) = 4%nat.

Local Notation "'set_colors_'" :=
  (set_colors rgba get_color_from_hex hex_colormap user_data_dir get_wallpaper
     theme_from_source_color source_color_from_image argb_from_rgb).
Local Notation "'_set_palette_color_'" :=
  (_set_palette_color rgba get_color_from_hex hex_colormap
     theme_from_source_color argb_from_rgb).
Local Notation "'_set_dynamic_color_'" :=
  (_set_dynamic_color rgba get_color_from_hex theme_from_source_color
     source_color_from_image).

(** **** The paths of [set_colors] *)

(** Which path [set_colors] takes: the palette colour when dynamic colour
    is off and a palette is set, the wallpaper's colour when dynamic colour
    is on and a wallpaper was obtained, the palette colour again when none
    was. *)
Lemma set_colors_paths (tm : TM) :
  (dynamic_color tm = false -> truthy (primary_palette tm) = true ->
   set_colors_ tm = _set_palette_color_ tm) /\
  (dynamic_color tm = true ->
   forall path,
     get_wallpaper user_data_dir (path_to_wallpaper tm) = Some path ->
     path <> ""%string ->
     set_colors_ tm = _set_dynamic_color_ path tm) /\
  (dynamic_color tm = true ->
   truthy (get_wallpaper user_data_dir (path_to_wallpaper tm)) = false ->
   set_colors_ tm = _set_palette_color_ tm).
Proof.
  unfold set_colors, bind, get. repeat split.
  - intros -> ->. reflexivity.
  - intros -> path -> Hne. cbn [negb truthy Elevation.truthy].
    destruct (String.eqb_spec path "") as [E|_]; [contradiction|]. reflexivity.
  - intros -> ->. reflexivity.
Qed.

(** Both working paths replace [current_color_theme] by the schemes of the
    derived theme and publish the roles of the active style. *)
Lemma published_from_schemes (schemes : gmap string (Scheme Color))
  (scheme : Scheme Color) (tm : TM) :
  theme_style tm ∈ theme_style_options ->
  schemes !! lower (theme_style tm) = Some scheme ->
  let color_theme : gmap string (theme_value Color) :=
    {[ "schemes"%string := Schemes schemes ]} in
  exists tm' color,
    (modify (set_current_color_theme color_theme);;
     do tm0 <- get;
     do roles <- scheme_props color_theme (lower (theme_style tm0));
     publish_scheme rgba roles;;
     set_disabledTextColor get_color_from_hex)%py tm
    = Ok tt (set_attr "disabledTextColor" color tm') /\
    current_color_theme tm' = color_theme /\
    theme_style tm' = theme_style tm /\
    schemes_name_colors tm' = keys (props scheme) /\
    (forall role, role ∈ keys (props scheme) ->
       exists c, Elevation.dict_get role (props scheme) = Some c /\
                 attrs tm' !! (role +:+ "Color") = Some (rgba c)).
Proof.
  intros Hstyle Hl color_theme.
  destruct (publish_scheme_spec Color rgba (props scheme)
              (set_current_color_theme color_theme tm) (props_names scheme))
    as (tm' & Hrun & Hsame & Hnames & Hin & _).
  destruct Hsame as (_ & _ & _ & Hts & Hct & _).
  cbn [theme_style current_color_theme set_current_color_theme] in Hts, Hct.
  assert (Hstyle' : theme_style tm' ∈ theme_style_options)
    by (rewrite Hts; exact Hstyle).
  destruct (set_disabledTextColor_spec Color get_color_from_hex
              get_color_from_hex_length tm' Hstyle') as [color Hcolor].
  exists tm', color.
  split; [|split; [exact Hct | split; [exact Hts | split; [exact Hnames | exact Hin]]]].
  unfold bind, modify, get, scheme_props, ret.
  cbn [theme_style set_current_color_theme].
  subst color_theme. rewrite lookup_singleton_eq, Hl, Hrun. exact Hcolor.
Qed.

Lemma _set_dynamic_color_publishes (path : string) (scheme : Scheme Color)
  (tm : TM) :
  theme_style tm ∈ theme_style_options ->
  theme_from_source_color (source_color_from_image path) false
    !! lower (theme_style tm) = Some scheme ->
  exists tm',
    _set_dynamic_color_ path tm = Ok tt tm' /\
    current_color_theme tm'
    = {[ "schemes"%string :=
           Schemes (theme_from_source_color (source_color_from_image path)
                      false) ]} /\
    schemes_name_colors tm' = keys (props scheme) /\
    (forall role, role ∈ keys (props scheme) ->
       is_Some (attrs tm' !! (role +:+ "Color"))).
Proof.
  intros Hstyle Hl.
  destruct (published_from_schemes _ scheme tm Hstyle Hl)
    as (tm' & color & Hrun & Hct & _ & Hnames & Hin).
  exists (set_attr "disabledTextColor" color tm').
  split; [exact Hrun|]. split; [exact Hct|]. split; [exact Hnames|].
  intros role Hrole. destruct (Hin role Hrole) as (c & _ & Hattr).
  cbn [attrs set_attr].
  destruct (decide ("disabledTextColor"%string = role +:+ "Color")) as [E|E].
  - rewrite <- E, lookup_insert_eq. eauto.
  - rewrite lookup_insert_ne by exact E. rewrite Hattr. eauto.
Qed.

Lemma _set_palette_color_publishes (palette hex : string) (r g b : Z)
  (scheme : Scheme Color) (tm : TM) :
  theme_style tm ∈ theme_style_options ->
  primary_palette tm = Some palette -> palette <> ""%string ->
  Elevation.dict_get (lower palette) hex_colormap = Some hex ->
  take 3 (map (fun c => int (c * 255)) (get_color_from_hex hex)) = [r; g; b] ->
  theme_from_source_color (argb_from_rgb r g b) true
    !! lower (theme_style tm) = Some scheme ->
  exists tm',
    _set_palette_color_ tm = Ok tt tm' /\
    current_color_theme tm'
    = {[ "schemes"%string :=
           Schemes (theme_from_source_color (argb_from_rgb r g b) true) ]} /\
    schemes_name_colors tm' = keys (props scheme) /\
    (forall role, role ∈ keys (props scheme) ->
       is_Some (attrs tm' !! (role +:+ "Color"))).
Proof.
  intros Hstyle Hp Hne Hhex Hrgb Hl.
  destruct (published_from_schemes _ scheme tm Hstyle Hl)
    as (tm' & color & Hrun & Hct & _ & Hnames & Hin).
  exists (set_attr "disabledTextColor" color tm').
  split; [|split; [exact Hct | split; [exact Hnames|]]].
  - unfold _set_palette_color. unfold bind at 1. unfold get at 1.
    rewrite Hp. cbn [truthy Elevation.truthy].
    destruct (String.eqb_spec palette "") as [E|_]; [contradiction|].
    cbn [negb]. unfold bind at 1. unfold ret at 1.
    unfold bind at 1. unfold get at 1.
    rewrite Hp, Hhex, Hrgb. exact Hrun.
  - intros role Hrole. destruct (Hin role Hrole) as (c & _ & Hattr).
    cbn [attrs set_attr].
    destruct (decide ("disabledTextColor"%string = role +:+ "Color")) as [E|E].
    + rewrite <- E, lookup_insert_eq. eauto.
    + rewrite lookup_insert_ne by exact E. rewrite Hattr. eauto.
Qed.

(** A tick of the clock with only the style update scheduled runs it. *)
Lemma tick_runs_update (tm : TM) :
  pending tm = [cb_update_theme_colors] ->
  tick rgba get_color_from_hex hex_colormap user_data_dir get_wallpaper
    theme_from_source_color source_color_from_image argb_from_rgb tm
  = match update_theme_colors rgba get_color_from_hex (set_pending [] tm) with
    | Ok _ tm' => Ok tt tm'
    | Raise e tm' => Raise e tm'
    end.
Proof.
  intros Hp. unfold tick, bind, get, modify. rewrite Hp.
  cbn [run_callbacks run_callback]. unfold bind, ret.
  destruct (update_theme_colors _ _ _); reflexivity.
Qed.

(** **** The default colour *)

(** C6, the defect.  With [dynamic_color] off and no [primary_palette],
    [set_colors] takes the default-colour path, which replaces
    [current_color_theme] and then raises [KeyError]: it looks the style up
    in the new dictionary itself, whose only key is ["schemes"].  The role
    names and the colour attributes are left as they were. *)
Theorem set_colors_default_raises (tm : TM) :
  dynamic_color tm = false -> primary_palette tm = None ->
  theme_style tm ∈ theme_style_options ->
  exists tm',
    set_colors rgba get_color_from_hex hex_colormap user_data_dir get_wallpaper
      theme_from_source_color source_color_from_image argb_from_rgb tm
    = Raise KeyError tm' /\
    current_color_theme tm'
    = {[ "schemes"%string :=
           Schemes (theme_from_source_color 0xFF4285F4 false) ]} /\
    schemes_name_colors tm' = schemes_name_colors tm /\
    attrs tm' = attrs tm.
Proof.
  intros Hd Hp Hs. apply theme_style_options_cases in Hs.
  unfold set_colors, bind, get. rewrite Hd, Hp. cbn [negb truthy Elevation.truthy].
  unfold _set_default_color, bind, modify, get, style_roles.
  cbn [theme_style set_current_color_theme].
  eexists. split.
  - destruct Hs as [-> | ->];
      (rewrite lookup_singleton_ne by discriminate); reflexivity.
  - cbn. repeat split.
Qed.

End SettingColors.

Lemma switch_theme_involution_witness :
  exists tm1 tm2,
    Theming.switch_theme Theming.sample_manager = Ok tt tm1 /\
    Theming.theme_style tm1 = "Dark"%string /\
    Theming.switch_theme tm1 = Ok tt tm2 /\
    Theming.theme_style tm2 = "Light"%string.
Proof.
  destruct (switch_theme_involution (list Z) Theming.sample_manager)
    as (tm1 & tm2 & H1 & _ & _ & HL & _ & H2 & Hback).
  { apply theme_style_options_cases. left. reflexivity. }
  exists tm1, tm2.
  split; [exact H1|]. split; [apply HL; reflexivity|].
  split; [exact H2 | exact Hback].
Defined.

Lemma sample_hex_length (h : string) :
  length (Theming.sample_hex h) = 4%nat.
Proof.
  unfold Theming.sample_hex. destruct (String.eqb h "FFFFFF"); reflexivity.
Qed.

Lemma theme_style_switch_republishes_witness :
  exists tm1 tm2,
    Theming.set_theme_style "Dark" Theming.sample_manager = Ok tt tm1 /\
    Theming.update_theme_colors Theming.sample_rgba Theming.sample_hex tm1
    = Ok tt tm2 /\
    Theming.schemes_name_colors tm2 = ["primary"; "background"]%string.
Proof.
  destruct (theme_style_switch_republishes (list Z) Theming.sample_rgba
              Theming.sample_hex sample_hex_length
              Theming.sample_manager "Dark"
              [("primary"%string, [170; 199; 255; 255]);
               ("background"%string, [18; 18; 18; 255])])
    as (tm1 & tm2 & H1 & _ & _ & H2 & _ & Hn & _).
  - apply theme_style_options_cases. right. reflexivity.
  - discriminate.
  - left. exists (Theming.sample_theme 0 true).
    eexists. split; [reflexivity|]. split; reflexivity.
  - discriminate.
  - exists tm1, tm2. split; [exact H1|]. split; [exact H2 | exact Hn].
Defined.

(** C2, as stated, fails on the initial empty dictionary: after the switch
    to [Dark] on a fresh theme manager, [update_theme_colors] raises
    [KeyError] and publishes nothing; the list of role names stays empty. *)
Lemma theme_style_switch_on_empty_theme :
  exists tm1,
    Theming.set_theme_style "Dark" (Theming.__init__ (Color := list Z))
    = Ok tt tm1 /\
    Theming.current_color_theme tm1 = ∅ /\
    Theming.update_theme_colors Theming.sample_rgba Theming.sample_hex tm1
    = Raise KeyError tm1 /\
    Theming.schemes_name_colors tm1 = [] /\
    Theming.attrs tm1 = ∅.
Proof.
  eexists. split; [reflexivity|]. repeat split.
Qed.

(** A role whose name is not that of an attribute stops the publication.
    With the roles [primary] and [on-primary] directly under the style,
    [update_theme_colors] lists both names, publishes [primaryColor] and
    raises [SyntaxError] at [on-primary]: that role gets no attribute and
    [disabledTextColor] is not set. *)
Lemma update_theme_colors_hyphenated_role :
  let tm :=
    Theming.set_current_color_theme
      {[ "light"%string :=
           Theming.Roles [("primary"%string, [66; 133; 244; 255]);
                          ("on-primary"%string, [255; 255; 255; 255])] ]}
      Theming.sample_manager in
  exists tm',
    Theming.update_theme_colors Theming.sample_rgba Theming.sample_hex tm
    = Raise SyntaxError tm' /\
    Theming.schemes_name_colors tm' = ["primary"; "on-primary"]%string /\
    is_Some (Theming.attrs tm' !! "primaryColor"%string) /\
    Theming.attrs tm' !! "on-primaryColor"%string = None /\
    Theming.attrs tm' !! "disabledTextColor"%string = None.
Proof.
  intros tm.
  destruct (Theming.update_theme_colors Theming.sample_rgba Theming.sample_hex
              tm) as [[] tm' | e tm'] eqn:Hrun;
    vm_compute in Hrun; [discriminate Hrun|].
  injection Hrun as <- <-.
  eexists. split; [reflexivity|].
  split; [reflexivity|]. split; [eexists; reflexivity|].
  split; reflexivity.
Qed.

Lemma set_colors_default_raises_witness :
  exists tm',
    Theming.set_colors Theming.sample_rgba Theming.sample_hex
      [("blue", "0000FF")]%string "" (fun _ _ => None) Theming.sample_theme
      (fun _ => 0) (fun r g b => r) (Theming.__init__ (Color := list Z))
    = Raise KeyError tm' /\
    Theming.schemes_name_colors tm' = [] /\
    Theming.attrs tm' = ∅.
Proof.
  destruct (set_colors_default_raises (list Z) Theming.sample_rgba
              Theming.sample_hex [("blue", "0000FF")]%string ""
              (fun _ _ => None) Theming.sample_theme
              (fun _ => 0) (fun r g b => r)
              (Theming.__init__ (Color := list Z)) eq_refl eq_refl)
    as (tm' & Hrun & _ & Hn & Ha).
  { apply theme_style_options_cases. left. reflexivity. }
  exists tm'. split; [exact Hrun|]. split; [exact Hn | exact Ha].
Defined.

(** * Further facts about the shadow geometry *)



Lemma pair_eqb_true (p q : Q * Q) :
  pair_eqb p q = true <-> (fst p == fst q)%Q /\ (snd p == snd q)%Q.
Proof.
  unfold pair_eqb, num_eqb. rewrite andb_true_iff, !Qeq_bool_iff. tauto.
Qed.

Section ShadowGeometry.

Import Elevation.

Variable dp : Q -> Q.

Lemma _update_shadow_pos_values (w : Widget) :
  let w' := _update_shadow_pos dp w in
  let bias := if pair_eqb (shadow_pos w) (0, 0)%Q
              then _shadow_pos w else shadow_pos w in
  hard_shadow_pos w'
  = (x w - dp (hard_shadow_offset w), y w - dp (hard_shadow_offset w))%Q /\
  soft_shadow_pos w'
  = (x w + fst bias - _elevation w - dp (soft_shadow_offset w),
     y w + snd bias - _elevation w - dp (soft_shadow_offset w))%Q /\
  _shadow_origin w'
  = (fst (soft_shadow_pos w') + inject_Z (fst (soft_shadow_size w)) / 2,
     snd (soft_shadow_pos w') + inject_Z (snd (soft_shadow_size w)) / 2)%Q /\
  _shadow_pos w' = _shadow_pos w.
Proof.
  unfold _update_shadow_pos. cbn.
  destruct (pair_eqb (shadow_pos w) (0, 0)%Q); cbn; repeat split.
Qed.

(** The positions a shadow update leaves are those computed by its last
    call of [_update_shadow_pos]; what follows only stores textures and
    sizes. *)
Lemma _update_shadow_positions (w : Widget) :
  let w' := final_state (_update_shadow dp w) in
  let p := if num_ltb 0 (_elevation w) then positioned dp w
           else _update_shadow_pos dp w in
  hard_shadow_pos w' = hard_shadow_pos p /\
  soft_shadow_pos w' = soft_shadow_pos p /\
  _shadow_origin w' = _shadow_origin p /\
  _shadow_pos w' = _shadow_pos p.
Proof.
  cbv zeta. destruct (num_ltb 0 (_elevation w)) eqn:He.
  - rewrite (_update_shadow_raised dp w He). unfold bind, modify, get.
    match goal with |- context [__draw_shadow__ ?a ?o ?e ?s] =>
      destruct (draw_shadow_cases a o e s) as [[ops ->] | ->] end;
      cbn [final_state]; [|repeat split].
    match goal with |- context [__draw_shadow__ ?a ?o ?e ?s] =>
      destruct (draw_shadow_cases a o e s) as [[ops' ->] | ->] end;
      cbn; repeat split.
  - rewrite (_update_shadow_flat dp w He). cbn. repeat split.
Qed.

Lemma positioned_hard_shadow_pos (w : Widget) :
  hard_shadow_pos (positioned dp w)
  = (x w - dp (hard_shadow_offset w), y w - dp (hard_shadow_offset w))%Q.
Proof.
  destruct (_update_shadow_pos_values w) as (Hh1 & _).
  destruct (_update_shadow_pos_inputs dp w)
    as (Hx & Hy & _ & _ & _ & _ & _ & _ & _ & _ & _ & _ & Hho & _).
  unfold positioned.
  destruct (pair_eqb (shadow_pos (_update_shadow_pos dp w)) (0, 0)%Q);
    [|exact Hh1].
  unfold set__shadow_pos.
  destruct (pair_eqb (_shadow_pos (_update_shadow_pos dp w)) _);
    [exact Hh1|].
  destruct (_update_shadow_pos_values
              (store__shadow_pos
                 (0, - _elevation (_update_shadow_pos dp w) * (4 # 10))%Q
                 (_update_shadow_pos dp w))) as (-> & _).
  cbn [x y hard_shadow_offset store__shadow_pos]. rewrite Hx, Hy, Hho.
  reflexivity.
Qed.

(** X1.  After a shadow update the hard shadow sits [dp(hard_shadow_offset)]
    to the left of and below the widget.  The soft shadow follows the
    override [shadow_pos] when one is set; without an override and with a
    positive elevation [e] it sits [e + dp(soft_shadow_offset)] to the left
    and a further [0.4 * e] lower. *)
Theorem shadow_positions_after_update (w : Widget) :
  let w' := final_state (_update_shadow dp w) in
  hard_shadow_pos w'
  = (x w - dp (hard_shadow_offset w), y w - dp (hard_shadow_offset w))%Q /\
  (~ ((fst (shadow_pos w) == 0)%Q /\ (snd (shadow_pos w) == 0)%Q) ->
   soft_shadow_pos w'
   = (x w + fst (shadow_pos w) - _elevation w - dp (soft_shadow_offset w),
      y w + snd (shadow_pos w) - _elevation w - dp (soft_shadow_offset w))%Q) /\
  ((fst (shadow_pos w) == 0)%Q -> (snd (shadow_pos w) == 0)%Q ->
   (0 < _elevation w)%Q ->
   (fst (soft_shadow_pos w')
    == x w - _elevation w - dp (soft_shadow_offset w))%Q /\
   (snd (soft_shadow_pos w')
    == y w - (4 # 10) * _elevation w - _elevation w
       - dp (soft_shadow_offset w))%Q).
Proof.
  cbv zeta.
  destruct (_update_shadow_positions w) as (Hhard & Hsoft & _ & _).
  cbv zeta in Hhard, Hsoft. rewrite Hhard, Hsoft. clear Hhard Hsoft.
  destruct (_update_shadow_pos_values w) as (Hh1 & Hs1 & _ & Hb1).
  cbv zeta in Hh1, Hs1, Hb1.
  destruct (_update_shadow_pos_inputs dp w)
    as (Hx & Hy & _ & _ & _ & _ & Hsp & _ & _ & He & _ & _ & Hho & Hso & _).
  assert (Hpos_hard : hard_shadow_pos (positioned dp w)
                      = hard_shadow_pos (_update_shadow_pos dp w)).
  { unfold positioned.
    destruct (pair_eqb (shadow_pos (_update_shadow_pos dp w)) (0, 0)%Q);
      [|reflexivity].
    unfold set__shadow_pos.
    destruct (pair_eqb (_shadow_pos (_update_shadow_pos dp w)) _);
      [reflexivity|].
    destruct (_update_shadow_pos_values
                (store__shadow_pos
                   (0, - _elevation (_update_shadow_pos dp w) * (4 # 10))%Q
                   (_update_shadow_pos dp w))) as (-> & _).
    cbn [x y hard_shadow_offset store__shadow_pos]. rewrite Hx, Hy, Hho.
    symmetry. exact Hh1. }
  split; [|split].
  - destruct (num_ltb 0 (_elevation w)); [rewrite Hpos_hard|]; exact Hh1.
  - intros Hover.
    assert (Hne : pair_eqb (shadow_pos w) (0, 0)%Q = false).
    { destruct (pair_eqb (shadow_pos w) (0, 0)%Q) eqn:E; [|reflexivity].
      apply pair_eqb_true in E. contradiction. }
    rewrite Hne in Hs1.
    destruct (num_ltb 0 (_elevation w)); [|exact Hs1].
    unfold positioned. rewrite Hsp, Hne. exact Hs1.
  - intros H0 H1 Hlt.
    assert (Heq : pair_eqb (shadow_pos w) (0, 0)%Q = true)
      by (apply pair_eqb_true; split; assumption).
    apply num_ltb_true in Hlt. rewrite Hlt.
    unfold positioned. rewrite Hsp, Heq. unfold set__shadow_pos.
    destruct (pair_eqb (_shadow_pos (_update_shadow_pos dp w)) _) eqn:Esame.
    + apply pair_eqb_true in Esame. cbn [fst snd] in Esame.
      destruct Esame as [E0 E1]. rewrite Hb1 in E0, E1. rewrite He in E1.
      rewrite Hs1, Heq. cbn [fst snd]. rewrite E0, E1. split; ring.
    + destruct (_update_shadow_pos_values
                  (store__shadow_pos
                     (0, - _elevation (_update_shadow_pos dp w) * (4 # 10))%Q
                     (_update_shadow_pos dp w))) as (_ & -> & _).
      cbn [x y shadow_pos _shadow_pos _elevation soft_shadow_offset
             store__shadow_pos].
      rewrite Hsp, Heq, Hx, Hy, He, Hso. cbn [fst snd]. split; ring.
Qed.

(** X2.  A shadow update computes the rotation origin before it stores the
    new soft shadow size: the origin it leaves is the soft shadow position
    plus half the size of the previous update.  Repeating the update at
    once makes it the centre of the soft shadow rectangle. *)
Theorem shadow_origin_lags_one_update (w : Widget) :
  draw_shadow w <> CommonElevationBehavior \/ (_elevation w <= 0)%Q ->
  exists w1 w2,
    _update_shadow dp w = Ok tt w1 /\
    _shadow_origin w1
    = (fst (soft_shadow_pos w1) + inject_Z (fst (soft_shadow_size w)) / 2,
       snd (soft_shadow_pos w1) + inject_Z (snd (soft_shadow_size w)) / 2)%Q /\
    _update_shadow dp w1 = Ok tt w2 /\
    soft_shadow_size w2 = soft_shadow_size w1 /\
    _shadow_origin w2
    = (fst (soft_shadow_pos w2) + inject_Z (fst (soft_shadow_size w2)) / 2,
       snd (soft_shadow_pos w2) + inject_Z (snd (soft_shadow_size w2)) / 2)%Q.
Proof.
  assert (Horigin : forall u,
    _shadow_origin (final_state (_update_shadow dp u))
    = (fst (soft_shadow_pos (final_state (_update_shadow dp u)))
       + inject_Z (fst (soft_shadow_size u)) / 2,
       snd (soft_shadow_pos (final_state (_update_shadow dp u)))
       + inject_Z (snd (soft_shadow_size u)) / 2)%Q).
  { intros u. destruct (_update_shadow_positions u) as (_ & Hs & Ho & _).
    cbv zeta in Hs, Ho. rewrite Hs, Ho.
    destruct (_update_shadow_pos_values u) as (_ & _ & Hou & _).
    destruct (_update_shadow_pos_textures dp u) as (_ & _ & _ & Hsz).
    destruct (num_ltb 0 (_elevation u)); [|exact Hou].
    unfold positioned.
    destruct (pair_eqb (shadow_pos (_update_shadow_pos dp u)) (0, 0)%Q);
      [|exact Hou].
    unfold set__shadow_pos.
    destruct (pair_eqb (_shadow_pos (_update_shadow_pos dp u)) _);
      [exact Hou|].
    destruct (_update_shadow_pos_values
                (store__shadow_pos
                   (0, - _elevation (_update_shadow_pos dp u) * (4 # 10))%Q
                   (_update_shadow_pos dp u))) as (_ & _ & -> & _).
    cbn [soft_shadow_size store__shadow_pos]. rewrite Hsz. reflexivity. }
  assert (Hsize : forall u u',
    _update_shadow dp u = Ok tt u' ->
    soft_shadow_size u'
    = if num_ltb 0 (_elevation u) then soft_texture_size dp u
      else soft_shadow_size u).
  { intros u u' Hrun. destruct (num_ltb 0 (_elevation u)) eqn:He.
    - rewrite (_update_shadow_raised dp u He) in Hrun.
      unfold bind, modify, get in Hrun.
      match type of Hrun with context [__draw_shadow__ ?a ?o ?e ?s] =>
        destruct (draw_shadow_cases a o e s) as [[ops Hd] | Hd];
          rewrite Hd in Hrun end; [|discriminate].
      match type of Hrun with context [__draw_shadow__ ?a ?o ?e ?s] =>
        destruct (draw_shadow_cases a o e s) as [[ops' Hd'] | Hd'];
          rewrite Hd' in Hrun end; [|discriminate].
      injection Hrun as <-. cbn [soft_shadow_size set_soft_shadow].
      apply soft_texture_size_inputs.
      eapply same_inputs_trans; [apply positioned_inputs|].
      apply set_hard_shadow_inputs.
    - rewrite (_update_shadow_flat dp u He) in Hrun. injection Hrun as <-.
      cbn [soft_shadow_size set_textures].
      apply (_update_shadow_pos_textures dp u). }
  intros Hc.
  destruct (_update_shadow_returns dp w Hc) as [w1 Hw1].
  pose proof (_update_shadow_inputs dp w) as Hin. rewrite Hw1 in Hin.
  cbn [final_state] in Hin.
  assert (Hc1 : draw_shadow w1 <> CommonElevationBehavior
                \/ (_elevation w1 <= 0)%Q).
  { destruct Hin as (_&_&_&_&_&_&_&_&_& He &_&_&_&_& Hd &_).
    rewrite He, Hd. exact Hc. }
  destruct (_update_shadow_returns dp w1 Hc1) as [w2 Hw2].
  exists w1, w2. split; [exact Hw1|].
  split; [specialize (Horigin w); rewrite Hw1 in Horigin; exact Horigin|].
  split; [exact Hw2|].
  assert (Hsame : soft_shadow_size w2 = soft_shadow_size w1).
  { rewrite (Hsize w1 w2 Hw2), (Hsize w w1 Hw1).
    rewrite (same_inputs_elevation _ _ Hin).
    destruct (num_ltb 0 (_elevation w)); [|reflexivity].
    apply soft_texture_size_inputs, Hin. }
  split; [exact Hsame|].
  specialize (Horigin w1). rewrite Hw2 in Horigin. cbn [final_state] in Horigin.
  rewrite Hsame. exact Horigin.
Qed.

Lemma int_nonneg (q : Q) : (0 <= q)%Q -> 0 <= int q.
Proof.
  destruct q as [p d]. unfold Qle, int. cbn. intros Hq.
  apply Z.quot_pos; lia.
Qed.



(** X4.  On the base class, which has no drawing hook, a shadow update at a
    positive elevation raises [NotImplementedError] once the positions are
    computed and before any texture or size is stored. *)
Theorem update_shadow_without_hook (w : Widget) :
  (0 < _elevation w)%Q -> draw_shadow w = CommonElevationBehavior ->
  exists w',
    _update_shadow dp w = Raise NotImplementedError w' /\
    hard_shadow_texture w' = hard_shadow_texture w /\
    _soft_shadow_texture w' = _soft_shadow_texture w /\
    hard_shadow_size w' = hard_shadow_size w /\
    soft_shadow_size w' = soft_shadow_size w /\
    hard_shadow_pos w'
    = (x w - dp (hard_shadow_offset w), y w - dp (hard_shadow_offset w))%Q.
Proof.
  intros He Hc. apply num_ltb_true in He.
  assert (Hp : draw_shadow (positioned dp w) = CommonElevationBehavior).
  { destruct (positioned_inputs dp w)
      as (_&_&_&_&_&_&_&_&_&_&_&_&_&_& -> &_). exact Hc. }
  exists (positioned dp w). split.
  - rewrite (_update_shadow_raised dp w He). unfold bind.
    rewrite (draw_shadow_missing _ _ _ _ Hp). reflexivity.
  - assert (Htex : forall u,
      hard_shadow_texture (positioned dp u) = hard_shadow_texture u /\
      _soft_shadow_texture (positioned dp u) = _soft_shadow_texture u /\
      hard_shadow_size (positioned dp u) = hard_shadow_size u /\
      soft_shadow_size (positioned dp u) = soft_shadow_size u).
    { intros u. unfold positioned.
      destruct (_update_shadow_pos_textures dp u) as (H1 & H2 & H3 & H4).
      destruct (pair_eqb (shadow_pos (_update_shadow_pos dp u)) (0, 0)%Q);
        [|tauto].
      unfold set__shadow_pos.
      destruct (pair_eqb (_shadow_pos (_update_shadow_pos dp u)) _); [tauto|].
      destruct (_update_shadow_pos_textures dp
                  (store__shadow_pos
                     (0, - _elevation (_update_shadow_pos dp u) * (4 # 10))%Q
                     (_update_shadow_pos dp u))) as (-> & -> & -> & ->).
      cbn. tauto. }
    destruct (Htex w) as (-> & -> & -> & ->).
    repeat split. apply positioned_hard_shadow_pos.
Qed.

(** X5.  A shadow update at a non-positive elevation replaces both textures
    by the placeholder but never resizes: the size properties of the two
    shadows keep the values of the last positive elevation. *)
Theorem update_shadow_flat_keeps_sizes (w : Widget) :
  (_elevation w <= 0)%Q ->
  exists w',
    _update_shadow dp w = Ok tt w' /\
    hard_shadow_size w' = hard_shadow_size w /\
    soft_shadow_size w' = soft_shadow_size w /\
    im_size (hard_shadow_texture w') = (4, 4) /\
    im_size (_soft_shadow_texture w') = (4, 4).
Proof.
  intros He. apply num_ltb_false in He.
  rewrite (_update_shadow_flat dp w He).
  eexists. split; [reflexivity|].
  destruct (_update_shadow_pos_textures dp w) as (_ & _ & H3 & H4).
  cbn. repeat split; assumption.
Qed.

(** What a shadow update at a positive elevation stores for the soft
    shadow. *)
Lemma _update_shadow_soft_size (u u' : Widget) :
  _update_shadow dp u = Ok tt u' -> (0 < _elevation u)%Q ->
  soft_shadow_size u' = soft_texture_size dp u /\
  im_size (_soft_shadow_texture u') = soft_texture_size dp u.
Proof.
  intros Hrun He. apply num_ltb_true in He.
  rewrite (_update_shadow_raised dp u He) in Hrun.
  unfold bind, modify, get in Hrun.
  match type of Hrun with context [__draw_shadow__ ?a ?o ?e ?s] =>
    destruct (draw_shadow_cases a o e s) as [[ops Hd] | Hd];
      rewrite Hd in Hrun end; [|discriminate].
  match type of Hrun with context [__draw_shadow__ ?a ?o ?e ?s] =>
    destruct (draw_shadow_cases a o e s) as [[ops' Hd'] | Hd'];
      rewrite Hd' in Hrun end; [|discriminate].
  injection Hrun as <-.
  cbn [soft_shadow_size _soft_shadow_texture set_soft_shadow GaussianBlur
         im_draw Image_new im_size].
  assert (Hsz : soft_texture_size dp
                  (set_hard_shadow (hard_texture_size dp (positioned dp u))
                     (GaussianBlur
                        (inject_Z (int (dp (1 + hard_shadow_offset
                                                  (positioned dp u) / 3))))
                        (im_draw ops
                           (Image_new (hard_texture_size dp (positioned dp u)))))
                     (positioned dp u))
                = soft_texture_size dp u).
  { apply soft_texture_size_inputs.
    eapply same_inputs_trans; [apply positioned_inputs|].
    apply set_hard_shadow_inputs. }
  split; exact Hsz.
Qed.

(** X20.  Assigning [elevation] redraws the shadow only once
    [shadow_preset] has run.  On a widget whose preset is still pending the
    assignment stores the new [_elevation] and leaves both textures and both
    sizes as they were; after the preset the same assignment stores a soft
    shadow image of [int(size + dp(2 * e) + 2 * dp(soft_shadow_offset))]
    pixels in each dimension. *)
Theorem elevation_redraws_after_preset (w : Widget) (a e : Q) :
  draw_shadow w <> CommonElevationBehavior ->
  elevation w = Some a -> elevation_bound w = false ->
  (0 < e)%Q -> ~ (a == e)%Q -> ~ (_elevation w == e)%Q ->
  (exists w',
     set_elevation dp (Some e) w = Ok tt w' /\
     _elevation w' = e /\
     soft_shadow_size w' = soft_shadow_size w /\
     hard_shadow_size w' = hard_shadow_size w /\
     _soft_shadow_texture w' = _soft_shadow_texture w /\
     hard_shadow_texture w' = hard_shadow_texture w) /\
  (exists w1 w2,
     shadow_preset dp w = Ok tt w1 /\
     set_elevation dp (Some e) w1 = Ok tt w2 /\
     _elevation w2 = e /\
     soft_shadow_size w2
     = (int (fst (size w) + dp (e * 2) + dp (soft_shadow_offset w) * 2),
        int (snd (size w) + dp (e * 2) + dp (soft_shadow_offset w) * 2)) /\
     im_size (_soft_shadow_texture w2) = soft_shadow_size w2).
Proof.
  intros Hc Hel Hb He Ha Hcur.
  assert (Hneg : num_ltb e 0 = false) by (apply num_ltb_false; lra).
  assert (Hae : num_eqb a e = false).
  { destruct (num_eqb a e) eqn:E; [|reflexivity].
    apply Qeq_bool_iff in E. contradiction. }
  assert (Hce : num_eqb (_elevation w) e = false).
  { destruct (num_eqb (_elevation w) e) eqn:E; [|reflexivity].
    apply Qeq_bool_iff in E. contradiction. }
  split.
  - unfold set_elevation, on_elevation, set__elevation, bind, get, modify, ret.
    rewrite Hneg, Hel, Hae. cbn [_elevation store_elevation elevation_bound].
    rewrite Hce, Hb. eexists. split; [reflexivity|]. cbn. repeat split.
  - destruct (_update_shadow_returns dp w (or_introl Hc)) as [u Hu].
    pose proof (_update_shadow_inputs dp w) as Hin. rewrite Hu in Hin.
    cbn [final_state] in Hin.
    destruct Hin as (_ & _ & Hsize & _ & Helu & _ & _ & _ & _ & Heu & _ & _
                     & _ & Hso & Hcu & _).
    set (w1 := set_elevation_bound true u).
    set (w1' := store__elevation e (store_elevation (Some e) w1)).
    assert (Hc1 : draw_shadow w1' <> CommonElevationBehavior).
    { cbn. rewrite Hcu. exact Hc. }
    destruct (_update_shadow_returns dp w1' (or_introl Hc1)) as [w2 Hw2].
    exists w1, w2. split.
    { unfold shadow_preset, bind, get, modify, ret. rewrite Hel, Hu.
      reflexivity. }
    split.
    { unfold set_elevation, on_elevation, set__elevation, bind, get, modify,
        ret.
      rewrite Hneg. cbn [elevation w1 set_elevation_bound].
      rewrite Helu, Hel, Hae.
      unfold w1 at 1 2.
      cbn [_elevation elevation_bound set_elevation_bound store_elevation].
      rewrite Heu, Hce. exact Hw2. }
    pose proof (_update_shadow_inputs dp w1') as Hin2. rewrite Hw2 in Hin2.
    cbn [final_state] in Hin2.
    destruct (_update_shadow_soft_size w1' w2 Hw2) as [Hs Hi].
    { cbn. exact He. }
    split.
    { destruct Hin2 as (_&_&_&_&_&_&_&_&_& -> &_). reflexivity. }
    rewrite Hi, Hs. split; [|reflexivity].
    unfold soft_texture_size.
    cbn [size _elevation soft_shadow_offset w1' w1 store__elevation
           store_elevation set_elevation_bound].
    rewrite Hsize, Hso. reflexivity.
Qed.

End ShadowGeometry.

(** [int] rounds a number that is not negative down, and not below zero. *)
Lemma int_le (q : Q) :
  (0 <= q)%Q -> (0 <= inject_Z (int q))%Q /\ (inject_Z (int q) <= q)%Q.
Proof.
  intros Hq. split.
  - change 0%Q with (inject_Z 0). rewrite <- Zle_Qle. apply int_nonneg, Hq.
  - assert (E : int q = Qfloor q).
    { destruct q as [n d]. unfold int, Qfloor. cbn [Qnum Qden].
      unfold Qle in Hq. cbn in Hq. apply Z.quot_div_nonneg; lia. }
    rewrite E. apply Qfloor_le.
Qed.

(** X21.  When no corner radius of a rounded widget is negative or more
    than half the width or the height of the drawing area, every shape of
    its mask, the corner slices and the rectangles between them, is given a
    bounding box whose corners are in order and which lies inside the
    area. *)
Theorem rounded_mask_inside_box (w : Elevation.Widget) (origin end_ : Q * Q)
  (s : Elevation.Widget) (r0 r1 r2 r3 : Q) :
  Elevation.draw_shadow w = Elevation.RoundedRectangularElevationBehavior ->
  Elevation.radius w = (r0, r1, r2, r3) ->
  Forall (fun r => (0 <= r)%Q /\
                   (r * 2 <= fst end_ - fst origin)%Q /\
                   (r * 2 <= snd end_ - snd origin)%Q) [r0; r1; r2; r3] ->
  exists ops,
    Elevation.__draw_shadow__ w origin end_ s = Ok ops s /\
    Forall (fun op => Elevation.box_inside origin end_ (Elevation.op_box op))
      ops.
Proof.
  intros Hc Hr Hall. unfold Elevation.__draw_shadow__. rewrite Hc, Hr.
  destruct origin as [o0 o1], end_ as [e0 e1]. cbn [fst snd] in Hall.
  apply Forall_cons in Hall. destruct Hall as [(H0 & H0w & H0h) Hall].
  apply Forall_cons in Hall. destruct Hall as [(H1 & H1w & H1h) Hall].
  apply Forall_cons in Hall. destruct Hall as [(H2 & H2w & H2h) Hall].
  apply Forall_cons in Hall. destruct Hall as [(H3 & H3w & H3h) _].
  destruct (num_eqb r0 0 && num_eqb r1 0 && num_eqb r2 0 && num_eqb r3 0).
  { eexists. split; [reflexivity|].
    apply Forall_cons_2; [|apply Forall_nil_2].
    cbn. repeat split; lra. }
  destruct (num_eqb r0 r0 && num_eqb r1 r0 && num_eqb r2 r0 && num_eqb r3 r0)
    eqn:Hsame.
  - destruct (int_le r0 H0) as [Hi0 Hi1].
    apply andb_prop in Hsame. destruct Hsame as [Hsame E3].
    apply andb_prop in Hsame. destruct Hsame as [Hsame E2].
    apply andb_prop in Hsame. destruct Hsame as [_ E1].
    apply Qeq_bool_iff in E1, E2, E3.
    eexists. split; [reflexivity|].
    repeat (apply Forall_cons_2; [cbn; repeat split; lra|]).
    apply Forall_nil_2.
  - eexists. split; [reflexivity|].
    repeat (apply Forall_cons_2;
            [cbn; unfold max2;
             repeat match goal with
                    | |- context [num_ltb ?a ?b] =>
                        let E := fresh "E" in
                        destruct (num_ltb a b) eqn:E;
                        [apply num_ltb_true in E | apply num_ltb_false in E]
                    end;
             repeat split; lra|]).
    apply Forall_nil_2.
Qed.

(** * Further facts about the shadow-group registry *)

Section RegistryRuns.

Import Elevation.

Lemma ref_eqb_dead (st : World) (y wk : weakref) :
  deref st wk = None -> ref_eqb st y wk = Nat.eqb (wk_id y) (wk_id wk).
Proof.
  intros Hd. unfold ref_eqb. rewrite Hd. destruct (deref st y); reflexivity.
Qed.

Lemma list_contains_dead (st : World) (wk : weakref) (group : list weakref) :
  deref st wk = None ->
  Forall (fun y => wk_id y <> wk_id wk) group ->
  list_contains (ref_eqb st) wk group = false.
Proof.
  intros Hd Hall. unfold list_contains.
  induction Hall as [|y group Hy _ IH]; [reflexivity|].
  cbn. rewrite (ref_eqb_dead st y wk Hd), IH.
  apply Nat.eqb_neq in Hy. now rewrite Hy.
Qed.

Lemma list_remove_dead (st : World) (wk : weakref) (group : list weakref) :
  deref st wk = None -> In wk group -> NoDup (map wk_id group) ->
  list_remove (ref_eqb st) wk group
  = Some (List.filter (fun y => negb (Nat.eqb (wk_id y) (wk_id wk))) group) /\
  list_contains (ref_eqb st) wk group = true.
Proof.
  intros Hd. induction group as [|y group IH]; intros Hin Hnd; [contradiction|].
  cbn [map] in Hnd. apply NoDup_cons in Hnd. destruct Hnd as [Hy Hnd].
  unfold list_contains. cbn [list_remove List.filter existsb].
  rewrite (ref_eqb_dead st y wk Hd).
  destruct (Nat.eqb_spec (wk_id y) (wk_id wk)) as [E|E]; cbn [negb orb].
  - split; [|reflexivity]. f_equal. symmetry.
    apply forallb_filter_id. apply forallb_forall. intros z Hz.
    apply negb_true_iff, Nat.eqb_neq. intros Ez. apply Hy.
    rewrite E, <- Ez. apply list_elem_of_In, in_map, Hz.
  - destruct Hin as [-> | Hin]; [congruence|].
    destruct (IH Hin Hnd) as [-> Hc]. split; [reflexivity | exact Hc].
Qed.

Lemma dict_get_app_skip {V} (k : string) (before : list (string * V))
  (v : V) (rest : list (string * V)) :
  Forall (fun kv => fst kv <> k) before ->
  dict_get k (before ++ (k, v) :: rest) = Some v.
Proof.
  induction 1 as [|[k' v'] before Hk _ IH]; cbn.
  - now rewrite String.eqb_refl.
  - cbn in Hk. destruct (String.eqb_spec k' k); [contradiction | exact IH].
Qed.

Lemma dict_set_app_skip {V} (k : string) (before : list (string * V))
  (v v' : V) (rest : list (string * V)) :
  Forall (fun kv => fst kv <> k) before ->
  dict_set k v' (before ++ (k, v) :: rest) = before ++ (k, v') :: rest.
Proof.
  induction 1 as [|[k0 v0] before Hk _ IH]; cbn.
  - now rewrite String.eqb_refl.
  - cbn in Hk. destruct (String.eqb_spec k0 k); [contradiction|].
    now rewrite IH.
Qed.

(** X7.  The callback of a dead reference removes it from its group when
    every group in front of that group in the registry is non-empty and does
    not hold it: the group loses that reference object and nothing else,
    and the other groups are as they were. *)
Theorem _clear_shadow_groups_removes (st : World) (wk : weakref)
  (before : list (string * list weakref)) (name : string)
  (group : list weakref) (rest : list (string * list weakref)) :
  __shadow_groups st = before ++ (name, group) :: rest ->
  deref st wk = None ->
  Forall (fun ng => snd ng <> [] /\ fst ng <> name /\
                    Forall (fun y => wk_id y <> wk_id wk) (snd ng)) before ->
  In wk group -> NoDup (map wk_id group) ->
  let group' :=
    List.filter (fun y => negb (Nat.eqb (wk_id y) (wk_id wk))) group in
  _clear_shadow_groups wk st
  = Ok tt (set_groups (before ++ (name, group') :: rest) st) /\
  ~ In wk group' /\ length group = S (length group').
Proof.
  intros Hg Hd Hbefore Hin Hnd group'.
  destruct (list_remove_dead st wk group Hd Hin Hnd) as [Hrm Hc].
  assert (Hnames : Forall (fun kv : string * list weakref => fst kv <> name)
                     before).
  { eapply Forall_impl; [exact Hbefore|]. cbn. tauto. }
  split; [|split].
  - unfold _clear_shadow_groups, bind, get. rewrite Hg.
    rewrite (clear_groups_loop_reaches wk st before name group rest).
    + unfold group_remove, bind, get, put. rewrite Hg.
      rewrite (dict_get_app_skip name before group rest Hnames), Hrm.
      rewrite (dict_set_app_skip name before group _ rest Hnames).
      reflexivity.
    + eapply Forall_impl; [exact Hbefore|]. cbn. intros ng (Hne & _ & Hids).
      split; [exact Hne|]. apply list_contains_dead; assumption.
    + exact Hc.
  - intros Hin'. apply filter_In in Hin'. destruct Hin' as [_ Hne].
    rewrite Nat.eqb_refl in Hne. discriminate.
  - destruct (list_remove_contains (ref_eqb st) wk group Hc) as (l' & Hl' & Hlen).
    rewrite Hrm in Hl'. injection Hl' as <-. exact Hlen.
Qed.

(** X8.  When every reference of the caller's group is alive,
    [force_shadow_pos] returns, leaves the registry as it is, gives every
    member of the group the forced offset and touches no widget outside the
    group. *)
Theorem force_shadow_pos_updates_group (dp : Q -> Q) (self : nat)
  (v : Q * Q) (st : World) (w : Widget) (group : list weakref) :
  heap st !! self = Some w ->
  dict_get (shadow_group w) (__shadow_groups st) = Some group ->
  Forall (fun wk => is_Some (heap st !! wk_target wk)) group ->
  exists st',
    force_shadow_pos dp self v st = Ok tt st' /\
    __shadow_groups st' = __shadow_groups st /\
    (forall wk, In wk group ->
       exists w', heap st' !! wk_target wk = Some w' /\
                  (fst (shadow_pos w') == fst v)%Q /\
                  (snd (shadow_pos w') == snd v)%Q) /\
    (forall i, (forall wk, In wk group -> wk_target wk <> i) ->
       heap st' !! i = heap st !! i).
Proof.
  intros Hw Hg Hlive.
  destruct (force_shadow_pos_loop_live dp (shadow_group w) v group st Hlive)
    as (st' & Hrun & Hgroups & Hin & Hout).
  exists st'. split; [|split; [exact Hgroups | split]].
  - unfold force_shadow_pos, with_self, bind, get. rewrite Hw, Hg. exact Hrun.
  - intros wk Hwk. destruct (Hin wk) as (w' & Hw' & Hv).
    { apply list_elem_of_In, Hwk. }
    exists w'. split; [exact Hw'|]. apply pair_eqb_true, Hv.
  - intros i Hi. apply Hout. intros wk Hwk. apply Hi, list_elem_of_In, Hwk.
Qed.

Lemma filter_none {A} (f : A -> bool) (l : list A) :
  Forall (fun a => f a = false) l -> List.filter f l = [].
Proof.
  induction 1 as [|a l Ha _ IH]; [reflexivity|]. cbn. now rewrite Ha.
Qed.

Lemma list_remove_last_fresh (st : World) (r : weakref) (g : list weakref) :
  deref st r = None ->
  Forall (fun y => (wk_id y < wk_id r)%nat) g ->
  list_remove (ref_eqb st) r (g ++ [r]) = Some g /\
  list_contains (ref_eqb st) r (g ++ [r]) = true.
Proof.
  intros Hd Hall. unfold list_contains.
  induction Hall as [|y g Hy _ [IH1 IH2]]; cbn.
  - rewrite (ref_eqb_dead st r r Hd), Nat.eqb_refl. split; reflexivity.
  - rewrite (ref_eqb_dead st y r Hd).
    destruct (Nat.eqb_spec (wk_id y) (wk_id r)) as [E|_]; [lia|].
    rewrite IH1, IH2. split; reflexivity.
Qed.

(** X9.  A widget that is created and dropped without ever changing its
    group leaves no trace: when the registry starts with the ["global"]
    group, as it does from import on, the registry and the heap are
    afterwards exactly what they were. *)
Theorem create_then_drop_restores (c : shadow_class) (st : World)
  (g : list weakref) (rest : list (string * list weakref)) :
  fresh_ids st ->
  __shadow_groups st = ("global"%string, g) :: rest ->
  exists st',
    (do a <- __init__ c; drop_widget a;; ret a)%py st
    = Ok (next_widget st) st' /\
    __shadow_groups st' = __shadow_groups st /\
    heap st' = heap st /\
    next_widget st' = S (next_widget st) /\
    next_ref st' = S (next_ref st).
Proof.
  intros [Hfree Hfresh] Hg.
  set (a := next_widget st) in *.
  set (r := mk_ref (next_ref st) a).
  set (h1 := alter (set_prev_shadow_group (Some "global"%string)) a
               (<[a := new_widget c]> (heap st))).
  assert (Hinit : __init__ c st
                  = Ok a (mk_world h1 (("global"%string, g ++ [r]) :: rest)
                            (S a) (S (next_ref st)))).
  { unfold __init__, on_shadow_group, with_self, group_append, new_ref,
      update_widget, bind, get, put, ret, modify.
    cbn [heap __shadow_groups next_widget next_ref set_heap set_groups].
    fold a. rewrite lookup_insert_eq.
    cbn [prev_shadow_group shadow_group new_widget truthy].
    cbn [heap __shadow_groups next_widget next_ref set_heap set_groups].
    rewrite Hg.
    cbn [dict_has dict_get dict_set String.eqb Ascii.eqb Bool.eqb heap
           __shadow_groups next_widget next_ref set_heap set_groups].
    reflexivity. }
  assert (Hg_ids : Forall (fun y => (wk_id y < wk_id r)%nat) g).
  { rewrite Hg in Hfresh. apply Forall_cons in Hfresh.
    destruct Hfresh as [Hgf _]. cbn [snd] in Hgf.
    eapply Forall_impl; [exact Hgf|]. cbn. tauto. }
  assert (Hrefs : refs_to a (mk_world h1 (("global"%string, g ++ [r]) :: rest)
                               (S a) (S (next_ref st))) = [r]).
  { unfold refs_to. cbn [__shadow_groups map snd concat].
    rewrite <- app_assoc, !List.filter_app.
    rewrite Hg in Hfresh. apply Forall_cons in Hfresh.
    destruct Hfresh as [Hgf Hrf]. cbn [snd] in Hgf.
    rewrite (filter_none _ g).
    2:{ eapply Forall_impl; [exact Hgf|]. cbn. intros y [_ Hy].
        apply Nat.eqb_neq. exact Hy. }
    rewrite (filter_none _ (concat (map snd rest))).
    2:{ apply Forall_concat, Forall_map.
        eapply Forall_impl; [exact Hrf|]. cbn. intros ng Hng.
        eapply Forall_impl; [exact Hng|]. cbn. intros y [_ Hy].
        apply Nat.eqb_neq. exact Hy. }
    cbn. rewrite Nat.eqb_refl. reflexivity. }
  set (st3 := set_heap (delete a h1)
                (mk_world h1 (("global"%string, g ++ [r]) :: rest)
                   (S a) (S (next_ref st)))).
  assert (Hdead : deref st3 r = None).
  { unfold deref. cbn [st3 heap set_heap wk_target r].
    now rewrite lookup_delete_eq. }
  destruct (list_remove_last_fresh st3 r g Hdead Hg_ids) as [Hrm Hc].
  assert (Hdrop : drop_widget a (mk_world h1 (("global"%string, g ++ [r]) :: rest)
                                   (S a) (S (next_ref st)))
                  = Ok tt (set_groups (("global"%string, g) :: rest) st3)).
  { unfold drop_widget, bind at 1. unfold get at 1. rewrite Hrefs.
    unfold bind at 1. unfold put at 1. cbn [heap]. fold st3.
    cbn [run_callbacks]. unfold bind at 1.
    unfold _clear_shadow_groups, bind at 1. unfold get at 1.
    cbn [st3 __shadow_groups set_heap]. fold st3.
    pose proof (clear_groups_loop_reaches r st3 [] "global" (g ++ [r]) rest
                  (Forall_nil_2 _) Hc) as Hreach.
    cbn [app] in Hreach. rewrite Hreach.
    unfold group_remove, bind, get, put, ret.
    cbn [st3 __shadow_groups set_heap dict_get dict_set String.eqb Ascii.eqb
           Bool.eqb]. fold st3.
    rewrite Hrm. reflexivity. }
  exists (set_groups (("global"%string, g) :: rest) st3).
  split.
  { unfold bind at 1. rewrite Hinit. unfold bind at 1. rewrite Hdrop.
    reflexivity. }
  cbn [__shadow_groups heap next_widget next_ref set_groups set_heap st3].
  split; [symmetry; exact Hg|]. split; [|split; reflexivity].
  apply map_eq. intros i. destruct (decide (a = i)) as [<-|Hne].
  - rewrite lookup_delete_eq. symmetry. exact Hfree.
  - rewrite lookup_delete_ne by exact Hne. unfold h1.
    rewrite lookup_alter_ne by exact Hne.
    apply lookup_insert_ne, Hne.
Qed.

End RegistryRuns.

(** * Further facts about the theme manager *)

(** X10.  Whatever the window size and the previous value,
    [_determine_device_orientation] sets the orientation: to [landscape]
    exactly when the window is wider than tall, to [portrait] otherwise, a
    square window included. *)
Theorem device_orientation_decided (window_size : Q * Q) (previous : string) :
  exists orientation,
    Theming._determine_device_orientation window_size previous
    = Ok tt orientation /\
    ((snd window_size < fst window_size)%Q ->
     orientation = "landscape"%string) /\
    ((fst window_size <= snd window_size)%Q ->
     orientation = "portrait"%string) /\
    (orientation = "landscape"%string \/ orientation = "portrait"%string).
Proof.
  unfold Theming._determine_device_orientation, Theming.num_geb.
  destruct (num_ltb (snd window_size) (fst window_size)) eqn:E.
  - apply num_ltb_true in E. eexists. split; [reflexivity|].
    split; [reflexivity|]. split; [|left; reflexivity].
    intros Hle. exfalso. apply (Qlt_not_le _ _ E Hle).
  - apply num_ltb_false in E.
    apply Qle_bool_iff in E. rewrite E. eexists. split; [reflexivity|].
    apply Qle_bool_iff in E.
    split; [|split; [reflexivity | right; reflexivity]].
    intros Hlt. exfalso. apply (Qlt_not_le _ _ Hlt E).
Qed.

Section Republishing.

Import Theming.

Variable Color : Type.
Variable rgba : Color -> list Q.
Variable get_color_from_hex : string -> list Q.

Local Notation "'TM'" := (ThemeManager Color).

(** X11.  When the colour theme does not hold the active style,
    [update_theme_colors] raises [KeyError] and changes nothing: neither the
    role names nor any attribute. *)
Theorem update_theme_colors_missing_style (tm : TM) :
  (exists schemes,
     current_color_theme tm !! "schemes"%string = Some (Schemes schemes) /\
     schemes !! lower (theme_style tm) = None) \/
  (current_color_theme tm !! "schemes"%string = None /\
   current_color_theme tm !! lower (theme_style tm) = None) ->
  update_theme_colors rgba get_color_from_hex tm = Raise KeyError tm.
Proof.
  intros [(schemes & Hs & Hl) | [Hs Hl]];
    unfold update_theme_colors, bind, get; rewrite Hs.
  - unfold scheme_props. rewrite Hs, Hl. reflexivity.
  - unfold style_roles. rewrite Hl. reflexivity.
Qed.

Lemma set_disabledTextColor_by_style (tm tm2 : TM) (tm' : TM) :
  set_disabledTextColor get_color_from_hex tm = Ok tt tm' ->
  theme_style tm2 = theme_style tm ->
  exists color,
    tm' = set_attr "disabledTextColor" color tm /\
    set_disabledTextColor get_color_from_hex tm2
    = Ok tt (set_attr "disabledTextColor" color tm2).
Proof.
  unfold set_disabledTextColor, _get_disabled_hint_text_color, bind, get,
    modify, ret, raise, _get_theme_style.
  intros Hrun Hstyle. rewrite Hstyle.
  destruct (String.eqb (theme_style tm) "Light").
  - destruct (list_assign 3 _ _) as [color|]; [|discriminate].
    injection Hrun as <-. eauto.
  - destruct (String.eqb (theme_style tm) "Dark"); [|discriminate].
    destruct (list_assign 3 _ _) as [color|]; [|discriminate].
    injection Hrun as <-. eauto.
Qed.


(** Publishing the same roles again changes nothing: the attributes the
    first run wrote are the ones the second run writes. *)
Lemma publish_stable (roles : list (string * Color)) (tm tm' tm1 : TM) :
  publish_scheme rgba roles tm = Ok tt tm' ->
  set_disabledTextColor get_color_from_hex tm' = Ok tt tm1 ->
  same_settings tm tm1 /\
  (publish_scheme rgba roles;;
   set_disabledTextColor get_color_from_hex)%py tm1 = Ok tt tm1.
Proof.
  intros Hp Hd.
  pose proof (publish_scheme_names Color rgba roles tm tm' Hp) as Hids.
  destruct (publish_scheme_spec Color rgba roles tm Hids)
    as (tm0 & Hp0 & Hsame & Hnames & Hin & Hout).
  rewrite Hp in Hp0. injection Hp0 as <-.
  destruct (set_disabledTextColor_by_style tm' tm' tm1 Hd eq_refl)
    as (color & -> & _).
  split; [exact Hsame|].
  set (tm1 := set_attr "disabledTextColor" color tm').
  destruct (publish_scheme_spec Color rgba roles tm1 Hids)
    as (tm2 & Hp2 & Hsame2 & Hnames2 & Hin2 & Hout2).
  unfold bind. rewrite Hp2.
  destruct Hsame2 as (Hpp2 & Hdc2 & Hpw2 & Hts2 & Hct2 & Hpe2).
  destruct (set_disabledTextColor_by_style tm' tm2
              (set_attr "disabledTextColor" color tm') Hd)
    as (color' & Hcolor & ->).
  { rewrite Hts2. reflexivity. }
  assert (Hattrs : forall k,
    <["disabledTextColor"%string := color']> (attrs tm2) !! k
    = <["disabledTextColor"%string := color]> (attrs tm') !! k).
  { assert (Ec : color' = color).
    { apply (f_equal attrs) in Hcolor. cbn [attrs set_attr] in Hcolor.
      apply (f_equal (fun m => m !! "disabledTextColor"%string)) in Hcolor.
      rewrite !lookup_insert_eq in Hcolor. congruence. }
    subst color'. intros k.
    destruct (decide ("disabledTextColor"%string = k)) as [<-|Hk].
    { now rewrite !lookup_insert_eq. }
    rewrite !lookup_insert_ne by exact Hk.
    destruct (decide (Exists (fun role => k = role +:+ "Color") (keys roles)))
      as [Hex|Hex].
    - apply Exists_exists in Hex. destruct Hex as (role & Hrole & ->).
      destruct (Hin role Hrole) as (c & Hc & ->).
      destruct (Hin2 role Hrole) as (c2 & Hc2 & ->). congruence.
    - rewrite Hout2.
      + cbn [attrs set_attr tm1]. apply lookup_insert_ne, Hk.
      + intros role Hrole E. apply Hex, Exists_exists. eauto. }
  apply map_eq in Hattrs.
  f_equal. subst tm1.
  destruct tm2 as [pp2 dc2 pw2 ts2 ct2 n2 at2 pe2],
           tm' as [pp dc pw ts ct n at_ pe].
  cbn [primary_palette dynamic_color path_to_wallpaper theme_style
         current_color_theme schemes_name_colors attrs pending set_attr] in *.
  subst. unfold set_attr.
  cbn [primary_palette dynamic_color path_to_wallpaper theme_style
         current_color_theme schemes_name_colors attrs pending].
  rewrite Hattrs. reflexivity.
Qed.


(** [get_color_from_hex] gives the four components of a colour. *)
Hypothesis get_color_from_hex_length :
  forall h, length (get_color_from_hex h) = 4%nat.

(** X13.  The disabled hint colour asked for the opposite style is the one
    the plain call gives after [switch_theme]; its alpha component is 0.38
    in the light style and 0.50 in the dark one. *)
Theorem disabled_hint_color_opposite (tm : TM) :
  theme_style tm ∈ theme_style_options ->
  exists tm1 color,
    switch_theme tm = Ok tt tm1 /\
    _get_disabled_hint_text_color get_color_from_hex true tm = Ok color tm /\
    _get_disabled_hint_text_color get_color_from_hex false tm1
    = Ok color tm1 /\
    length color = 4%nat /\
    color !! 3%nat
    = Some (if String.eqb (theme_style tm1) "Light"
            then (38 # 100)%Q else (50 # 100)%Q).
Proof.
  intros Hin. apply theme_style_options_cases in Hin.
  unfold switch_theme, set_theme_style, _get_disabled_hint_text_color,
    _get_theme_style, schedule_once, bind, get, modify, ret, list_assign.
  rewrite !get_color_from_hex_length.
  destruct Hin as [E | E]; rewrite E;
    cbn [String.eqb Ascii.eqb Bool.eqb Nat.ltb Nat.leb];
    (rewrite bool_decide_eq_true_2
       by (apply theme_style_options_cases; auto));
    cbn [theme_style set_pending set_theme_style_field String.eqb Ascii.eqb
           Bool.eqb];
    do 2 eexists; (split; [reflexivity|]);
    (split; [reflexivity|]); (split; [reflexivity|]);
    (split; [rewrite length_insert; apply get_color_from_hex_length|]);
    apply list_lookup_insert_eq; rewrite get_color_from_hex_length; lia.
Qed.

End Republishing.

Section ColorPaths.

Import Theming.

Variable Color : Type.
Variable rgba : Color -> list Q.
Variable get_color_from_hex : string -> list Q.
Variable hex_colormap : list (string * string).
Variable user_data_dir : string.
Variable get_wallpaper : string -> string -> option string.
Variable theme_from_source_color : Z -> bool -> gmap string (Scheme Color).
Variable source_color_from_image : string -> Z.
Variable argb_from_rgb : Z -> Z -> Z -> Z.

Hypothesis get_color_from_hex_length :
  forall h, length (get_color_from_hex h) = 4%nat.

Local Notation "'TM'" := (ThemeManager Color).
Local Notation "'set_colors_'" :=
  (set_colors rgba get_color_from_hex hex_colormap user_data_dir get_wallpaper
     theme_from_source_color source_color_from_image argb_from_rgb).

(** X14.  With dynamic colour off and a palette set, [set_colors] replaces
    the colour theme by the schemes derived from the palette's colour and
    publishes the roles of the active style: their names in order and one
    [<role>Color] attribute each. *)
Theorem set_colors_from_palette (tm : TM) (palette hex : string)
  (c0 c1 c2 c3 : Q) (scheme : Scheme Color) :
  theme_style tm ∈ theme_style_options ->
  dynamic_color tm = false ->
  primary_palette tm = Some palette -> palette <> ""%string ->
  Elevation.dict_get (lower palette) hex_colormap = Some hex ->
  get_color_from_hex hex = [c0; c1; c2; c3] ->
  let source :=
    argb_from_rgb (int (c0 * 255)) (int (c1 * 255)) (int (c2 * 255)) in
  theme_from_source_color source true !! lower (theme_style tm)
  = Some scheme ->
  exists tm',
    set_colors_ tm = Ok tt tm' /\
    current_color_theme tm'
    = {[ "schemes"%string :=
           Schemes (theme_from_source_color source true) ]} /\
    schemes_name_colors tm' = keys (props scheme) /\
    (forall role, role ∈ keys (props scheme) ->
       is_Some (attrs tm' !! (role +:+ "Color"))).
Proof.
  intros Hstyle Hd Hp Hne Hhex Hcomp source Hscheme.
  set (r := int (c0 * 255)) in *. set (g := int (c1 * 255)) in *.
  set (b := int (c2 * 255)) in *.
  assert (Hrgb : take 3 (map (fun c => int (c * 255)) (get_color_from_hex hex))
                 = [r; g; b]) by (rewrite Hcomp; reflexivity).
  subst source.
  destruct (set_colors_paths Color rgba get_color_from_hex hex_colormap
              user_data_dir get_wallpaper theme_from_source_color
              source_color_from_image argb_from_rgb tm) as (Hpath & _ & _).
  rewrite Hpath; [|exact Hd|].
  - apply (_set_palette_color_publishes Color rgba get_color_from_hex
             hex_colormap theme_from_source_color argb_from_rgb
             get_color_from_hex_length palette hex r g b scheme tm);
      assumption.
  - rewrite Hp. cbn [truthy Elevation.truthy].
    destruct (String.eqb_spec palette ""); [contradiction | reflexivity].
Qed.

(** X15.  With dynamic colour on and a wallpaper obtained, [set_colors]
    derives the schemes from the wallpaper's colour and publishes the roles
    of the active style; the palette is not consulted. *)
Theorem set_colors_from_wallpaper (tm : TM) (path : string)
  (scheme : Scheme Color) :
  theme_style tm ∈ theme_style_options ->
  dynamic_color tm = true ->
  get_wallpaper user_data_dir (path_to_wallpaper tm) = Some path ->
  path <> ""%string ->
  theme_from_source_color (source_color_from_image path) false
    !! lower (theme_style tm) = Some scheme ->
  exists tm',
    set_colors_ tm = Ok tt tm' /\
    current_color_theme tm'
    = {[ "schemes"%string :=
           Schemes (theme_from_source_color (source_color_from_image path)
                      false) ]} /\
    schemes_name_colors tm' = keys (props scheme) /\
    (forall role, role ∈ keys (props scheme) ->
       is_Some (attrs tm' !! (role +:+ "Color"))).
Proof.
  intros Hstyle Hd Hw Hne Hscheme.
  destruct (set_colors_paths Color rgba get_color_from_hex hex_colormap
              user_data_dir get_wallpaper theme_from_source_color
              source_color_from_image argb_from_rgb tm) as (_ & Hpath & _).
  rewrite (Hpath Hd path Hw Hne).
  apply (_set_dynamic_color_publishes Color rgba get_color_from_hex
           theme_from_source_color source_color_from_image
           get_color_from_hex_length path scheme tm); assumption.
Qed.

Lemma dict_get_In {V} (k : string) (v : V) (d : list (string * V)) :
  Elevation.dict_get k d = Some v -> In (k, v) d.
Proof.
  induction d as [|[k' v'] d IH]; cbn; [discriminate|].
  destruct (String.eqb_spec k' k) as [->|_].
  - intros [= ->]. left. reflexivity.
  - intros H. right. apply IH, H.
Qed.

(** X16.  With dynamic colour on, no wallpaper obtained and no palette set,
    [set_colors] falls back to the palette [Blue]: it stores [Blue] as
    [primary_palette], which schedules another [set_colors], and publishes
    the theme derived from that palette's colour. *)
Theorem set_colors_falls_back_to_blue (tm : TM) (hex : string)
  (c0 c1 c2 c3 : Q) (scheme : Scheme Color) :
  theme_style tm ∈ theme_style_options ->
  dynamic_color tm = true ->
  truthy (get_wallpaper user_data_dir (path_to_wallpaper tm)) = false ->
  primary_palette tm = None ->
  Elevation.dict_get "blue" hex_colormap = Some hex ->
  get_color_from_hex hex = [c0; c1; c2; c3] ->
  let source :=
    argb_from_rgb (int (c0 * 255)) (int (c1 * 255)) (int (c2 * 255)) in
  theme_from_source_color source true !! lower (theme_style tm)
  = Some scheme ->
  exists tm',
    set_colors_ tm = Ok tt tm' /\
    primary_palette tm' = Some "Blue"%string /\
    pending tm' = pending tm ++ [cb_set_colors] /\
    current_color_theme tm'
    = {[ "schemes"%string :=
           Schemes (theme_from_source_color source true) ]} /\
    schemes_name_colors tm' = keys (props scheme).
Proof.
  intros Hstyle Hd Hw Hp Hhex Hcomp source Hscheme.
  set (r := int (c0 * 255)) in *. set (g := int (c1 * 255)) in *.
  set (b := int (c2 * 255)) in *.
  assert (Hrgb : take 3 (map (fun c => int (c * 255)) (get_color_from_hex hex))
                 = [r; g; b]) by (rewrite Hcomp; reflexivity).
  subst source.
  destruct (set_colors_paths Color rgba get_color_from_hex hex_colormap
              user_data_dir get_wallpaper theme_from_source_color
              source_color_from_image argb_from_rgb tm) as (_ & _ & Hpath).
  rewrite (Hpath Hd Hw).
  set (tmb := set_pending (pending tm ++ [cb_set_colors])
                (set_primary_palette_field (Some "Blue"%string) tm)).
  assert (Hblue : "Blue"%string ∈ primary_palette_options hex_colormap).
  { unfold primary_palette_options. apply list_elem_of_In, in_map_iff.
    exists ("blue"%string, hex). split; [reflexivity|].
    apply dict_get_In, Hhex. }
  assert (Hsame : _set_palette_color rgba get_color_from_hex hex_colormap
                    theme_from_source_color argb_from_rgb tm
                  = _set_palette_color rgba get_color_from_hex hex_colormap
                      theme_from_source_color argb_from_rgb tmb).
  { unfold _set_palette_color. unfold bind at 1. unfold get at 1.
    rewrite Hp. cbn [truthy Elevation.truthy].
    unfold bind at 1. unfold set_primary_palette at 1.
    unfold bind at 1. unfold get at 1.
    rewrite (bool_decide_eq_true_2 _ Hblue), Hp.
    rewrite bool_decide_eq_false_2 by discriminate.
    unfold bind at 1. unfold modify at 1. unfold schedule_once, modify.
    cbn [pending set_primary_palette_field]. fold tmb.
    symmetry. unfold bind at 1. unfold get at 1.
    cbn [tmb primary_palette set_pending set_primary_palette_field truthy
           Elevation.truthy String.eqb Ascii.eqb Bool.eqb negb].
    fold tmb. unfold bind at 1. unfold ret at 1. reflexivity. }
  rewrite Hsame.
  destruct (published_from_schemes Color rgba get_color_from_hex
              get_color_from_hex_length
              (theme_from_source_color (argb_from_rgb r g b) true) scheme tmb
              Hstyle Hscheme)
    as (tm' & color & Hrun & Hct & _ & Hnames & _).
  assert (Hkept : primary_palette tm' = Some "Blue"%string /\
                  pending tm' = pending tm ++ [cb_set_colors]).
  { destruct (publish_scheme_spec Color rgba (props scheme)
                (set_current_color_theme
                   {[ "schemes"%string :=
                        Schemes (theme_from_source_color
                                   (argb_from_rgb r g b) true) ]} tmb)
                (props_names scheme))
      as (tm0 & Hp0 & Hsame0 & _).
    unfold bind, modify, get, scheme_props, ret in Hrun.
    cbn [theme_style set_current_color_theme] in Hrun.
    rewrite lookup_singleton_eq in Hrun.
    cbn [tmb theme_style set_pending set_primary_palette_field] in Hrun.
    rewrite Hscheme in Hrun. fold tmb in Hrun. rewrite Hp0 in Hrun.
    destruct (set_disabledTextColor_by_style Color get_color_from_hex
                tm0 tm0 _ Hrun eq_refl) as (color0 & E0 & _).
    apply (f_equal (fun t => (primary_palette t, pending t))) in E0.
    cbn [primary_palette pending set_attr] in E0.
    destruct Hsame0 as (Hpp & _ & _ & _ & _ & Hpe).
    cbn [primary_palette pending set_current_color_theme tmb set_pending
           set_primary_palette_field] in Hpp, Hpe.
    injection E0 as E1 E2. split; congruence. }
  exists (set_attr "disabledTextColor" color tm').
  split.
  { unfold _set_palette_color. unfold bind at 1. unfold get at 1.
    cbn [tmb primary_palette set_pending set_primary_palette_field truthy
           Elevation.truthy String.eqb Ascii.eqb Bool.eqb negb].
    fold tmb. unfold bind at 1. unfold ret at 1.
    unfold bind at 1. unfold get at 1.
    cbn [tmb primary_palette set_pending set_primary_palette_field].
    fold tmb.
    change (lower "Blue") with "blue"%string. rewrite Hhex, Hrgb.
    exact Hrun. }
  cbn [primary_palette pending current_color_theme schemes_name_colors
         set_attr].
  destruct Hkept as [Hk1 Hk2].
  split; [exact Hk1|]. split; [exact Hk2|]. split; [exact Hct | exact Hnames].
Qed.

(** Once the roles of a derived theme are published, deriving and
    publishing the same theme again changes nothing. *)
Lemma republish_schemes_stable (schemes : gmap string (Scheme Color))
  (style : string) (tm tm1 : TM) :
  let color_theme : gmap string (theme_value Color) :=
    {[ "schemes"%string := Schemes schemes ]} in
  (do roles <- scheme_props color_theme style;
   publish_scheme rgba roles;;
   set_disabledTextColor get_color_from_hex)%py
    (set_current_color_theme color_theme tm) = Ok tt tm1 ->
  primary_palette tm1 = primary_palette tm /\
  dynamic_color tm1 = dynamic_color tm /\
  path_to_wallpaper tm1 = path_to_wallpaper tm /\
  theme_style tm1 = theme_style tm /\
  pending tm1 = pending tm /\
  set_current_color_theme color_theme tm1 = tm1 /\
  (do roles <- scheme_props color_theme style;
   publish_scheme rgba roles;;
   set_disabledTextColor get_color_from_hex)%py tm1 = Ok tt tm1.
Proof.
  intros color_theme. unfold bind at 1. unfold scheme_props at 1.
  unfold color_theme at 1. rewrite lookup_singleton_eq.
  destruct (schemes !! style) as [scheme|] eqn:Hscheme; [|discriminate].
  unfold ret at 1. intros Hrun.
  destruct (publish_scheme_spec Color rgba (props scheme)
              (set_current_color_theme color_theme tm) (props_names scheme))
    as (tm' & Hp & _).
  unfold bind in Hrun. rewrite Hp in Hrun.
  destruct (publish_stable Color rgba get_color_from_hex (props scheme)
              _ tm' tm1 Hp Hrun) as [Hsame Hstable].
  destruct Hsame as (Hpp & Hdc & Hpw & Hts & Hct & Hpe).
  cbn [primary_palette dynamic_color path_to_wallpaper theme_style
         current_color_theme pending set_current_color_theme]
    in Hpp, Hdc, Hpw, Hts, Hct, Hpe.
  split; [exact Hpp|]. split; [exact Hdc|]. split; [exact Hpw|].
  split; [exact Hts|]. split; [exact Hpe|].
  split.
  - destruct tm1. cbn [current_color_theme] in Hct. rewrite <- Hct.
    reflexivity.
  - unfold bind at 1. unfold scheme_props at 1.
    unfold color_theme at 1. rewrite lookup_singleton_eq, Hscheme.
    unfold ret at 1. exact Hstable.
Qed.

(** The palette path on a theme manager whose palette is set. *)
Lemma _set_palette_color_with_palette (palette : string) (tm tm1 : TM) :
  primary_palette tm = Some palette -> palette <> ""%string ->
  (do tm0 <- get;
   match primary_palette tm0 with
   | None => raise AttributeError
   | Some palette =>
       match Elevation.dict_get (lower palette) hex_colormap with
       | None => raise KeyError
       | Some hex =>
           match take 3 (map (fun c => int (c * 255))
                           (get_color_from_hex hex)) with
           | [r; g; b] =>
               let color_theme : gmap string (theme_value Color) :=
                 {[ "schemes"%string :=
                      Schemes (theme_from_source_color (argb_from_rgb r g b)
                                 true) ]} in
               modify (set_current_color_theme color_theme);;
               do roles <- scheme_props color_theme (lower (theme_style tm0));
               publish_scheme rgba roles;;
               set_disabledTextColor get_color_from_hex
           | _ => raise TypeError
           end
       end
   end)%py tm = Ok tt tm1 ->
  primary_palette tm1 = Some palette /\
  dynamic_color tm1 = dynamic_color tm /\
  path_to_wallpaper tm1 = path_to_wallpaper tm /\
  pending tm1 = pending tm /\
  _set_palette_color rgba get_color_from_hex hex_colormap
    theme_from_source_color argb_from_rgb tm1 = Ok tt tm1.
Proof.
  intros Hp Hne. unfold bind at 1. unfold get at 1. rewrite Hp.
  destruct (Elevation.dict_get (lower palette) hex_colormap) as [hex|] eqn:Hhex;
    [|discriminate].
  destruct (take 3 (map (fun c => int (c * 255)) (get_color_from_hex hex)))
    as [|r [|g [|b [|]]]] eqn:Hrgb; try discriminate.
  cbv zeta. unfold bind at 1. unfold modify at 1. intros Hrun.
  destruct (republish_schemes_stable _ _ tm tm1 Hrun)
    as (Hpp & Hdc & Hpw & Hts & Hpe & Heta & Hagain).
  rewrite Hp in Hpp.
  split; [exact Hpp|]. split; [exact Hdc|]. split; [exact Hpw|].
  split; [exact Hpe|].
  unfold _set_palette_color. unfold bind at 1. unfold get at 1.
  rewrite Hpp. cbn [truthy Elevation.truthy].
  destruct (String.eqb_spec palette "") as [E|_]; [contradiction|].
  cbn [negb]. unfold bind at 1. unfold ret at 1.
  unfold bind at 1. unfold get at 1. rewrite Hpp, Hhex, Hrgb.
  cbv zeta. unfold bind at 1. unfold modify at 1. rewrite Heta, Hts.
  exact Hagain.
Qed.

Lemma _set_palette_color_stable (tm tm1 : TM) :
  _set_palette_color rgba get_color_from_hex hex_colormap
    theme_from_source_color argb_from_rgb tm = Ok tt tm1 ->
  truthy (primary_palette tm1) = true /\
  dynamic_color tm1 = dynamic_color tm /\
  path_to_wallpaper tm1 = path_to_wallpaper tm /\
  _set_palette_color rgba get_color_from_hex hex_colormap
    theme_from_source_color argb_from_rgb tm1 = Ok tt tm1.
Proof.
  unfold _set_palette_color at 1. unfold bind at 1. unfold get at 1.
  destruct (truthy (primary_palette tm)) eqn:Ht.
  - unfold bind at 1. unfold ret at 1.
    destruct (primary_palette tm) as [palette|] eqn:Hp; [|discriminate].
    assert (Hne : palette <> ""%string).
    { intros ->. discriminate. }
    intros Hrun.
    destruct (_set_palette_color_with_palette palette tm tm1 Hp Hne Hrun)
      as (Hpp & Hdc & Hpw & _ & Hagain).
    rewrite Hpp. cbn [truthy Elevation.truthy].
    destruct (String.eqb_spec palette "") as [E|_]; [contradiction|].
    repeat split; assumption.
  - unfold bind at 1. unfold set_primary_palette at 1.
    unfold bind at 1. unfold get at 1.
    destruct (bool_decide ("Blue"%string ∈ primary_palette_options hex_colormap));
      [|discriminate].
    destruct (bool_decide (primary_palette tm = Some "Blue"%string)) eqn:Eb.
    { apply bool_decide_eq_true in Eb. rewrite Eb in Ht. discriminate. }
    unfold bind at 1. unfold modify at 1. unfold schedule_once, modify.
    set (tmb := set_pending _ _). intros Hrun.
    destruct (_set_palette_color_with_palette "Blue" tmb tm1 eq_refl
                ltac:(discriminate) Hrun)
      as (Hpp & Hdc & Hpw & _ & Hagain).
    rewrite Hpp. repeat split; assumption.
Qed.

(** X19.  [set_colors] is idempotent: when it has returned, calling it
    again returns and leaves the theme manager exactly as it is.  The
    [set_colors] that the fall-back to the palette [Blue] schedules
    therefore changes nothing more and schedules nothing. *)
Theorem set_colors_idempotent (tm tm1 : TM) :
  set_colors rgba get_color_from_hex hex_colormap user_data_dir get_wallpaper
    theme_from_source_color source_color_from_image argb_from_rgb tm
  = Ok tt tm1 ->
  set_colors rgba get_color_from_hex hex_colormap user_data_dir get_wallpaper
    theme_from_source_color source_color_from_image argb_from_rgb tm1
  = Ok tt tm1.
Proof.
  unfold set_colors at 1. unfold bind at 1. unfold get at 1.
  destruct (dynamic_color tm) eqn:Hd; cbn [negb].
  - destruct (truthy (get_wallpaper user_data_dir (path_to_wallpaper tm)))
      eqn:Hw.
    + destruct (get_wallpaper user_data_dir (path_to_wallpaper tm))
        as [path|] eqn:Hpath; [|discriminate].
      unfold _set_dynamic_color at 1. cbv zeta.
      unfold bind at 1. unfold modify at 1. unfold bind at 1. unfold get at 1.
      cbn [theme_style set_current_color_theme]. intros Hrun.
      destruct (republish_schemes_stable _ _ tm tm1 Hrun)
        as (_ & Hdc & Hpw & Hts & _ & Heta & Hagain).
      unfold set_colors. unfold bind at 1. unfold get at 1.
      rewrite Hdc, Hd, Hpw, Hpath. cbn [negb]. rewrite Hw.
      unfold _set_dynamic_color. cbv zeta.
      unfold bind at 1. unfold modify at 1. rewrite Heta.
      unfold bind at 1. unfold get at 1. rewrite Hts. exact Hagain.
    + intros Hrun.
      destruct (_set_palette_color_stable tm tm1 Hrun)
        as (_ & Hdc & Hpw & Hagain).
      unfold set_colors. unfold bind at 1. unfold get at 1.
      rewrite Hdc, Hd, Hpw. cbn [negb]. rewrite Hw. exact Hagain.
  - destruct (truthy (primary_palette tm)) eqn:Ht; cbn [negb].
    + intros Hrun.
      destruct (_set_palette_color_stable tm tm1 Hrun)
        as (Htruthy & Hdc & _ & Hagain).
      unfold set_colors. unfold bind at 1. unfold get at 1.
      rewrite Hdc, Hd, Htruthy. cbn [negb]. exact Hagain.
    + unfold _set_default_color, bind, modify, get, style_roles.
      cbn [theme_style set_current_color_theme].
      destruct (decide ("schemes"%string = lower (theme_style tm))) as [<-|Hne].
      * rewrite lookup_singleton_eq. discriminate.
      * rewrite lookup_singleton_ne by exact Hne. discriminate.
Qed.

End ColorPaths.

(** * Facts about the shop window demo *)

Section ShopWindowFacts.

Import ShopWindow.

Lemma set_menu_loop_spec (cell : nat) (names : list string) (app : App) :
  let app' := set_menu_loop cell names app in
  menu_for_demo_apps app'
  = menu_for_demo_apps app ++
    map (fun n => mk_menu_item "OneLineListItem" n (mk_closure n cell)) names /\
  cells app' !! cell
  = match last names with Some n => Some n | None => cells app !! cell end /\
  scr_mngr_current app' = scr_mngr_current app /\
  demo_apps_list app' = demo_apps_list app.
Proof.
  revert app. induction names as [|n names IH]; intros app.
  - cbn. rewrite app_nil_r. repeat split.
  - cbn [set_menu_loop]. cbv zeta.
    match goal with |- context [set_menu_loop cell names ?a] =>
      destruct (IH a) as (Hm & Hc & Hs & Hd) end.
    cbv zeta in Hm, Hc, Hs, Hd. rewrite Hm, Hc, Hs, Hd.
    cbn [menu_for_demo_apps cells scr_mngr_current demo_apps_list
           set_menu_for_demo_apps_field set_cells map].
    rewrite <- app_assoc. split; [reflexivity|].
    split; [|split; reflexivity].
    rewrite lookup_insert_eq. destruct names as [|m names]; [reflexivity|].
    cbn [last]. destruct (last (m :: names)) eqn:E; [reflexivity|].
    apply last_None in E. discriminate.
Qed.

(** X17.  [set_menu_for_demo_apps] fills an empty menu with one entry per
    demo application, in order and under the application's name, and leaves
    a non-empty menu alone.  Every entry's [on_release] reads the loop
    variable when it is called, so releasing any entry opens the last
    application of the list. *)
Theorem menu_entries_open_last_app (app : App) (names : list string)
  (last_name : string) :
  demo_apps_list app = names ++ [last_name] ->
  (menu_for_demo_apps app <> [] -> set_menu_for_demo_apps app = app) /\
  (menu_for_demo_apps app = [] ->
   let app' := set_menu_for_demo_apps app in
   map text (menu_for_demo_apps app') = names ++ [last_name] /\
   map (fun item => default_x (on_release item)) (menu_for_demo_apps app')
   = names ++ [last_name] /\
   forall item, In item (menu_for_demo_apps app') ->
     exists app'',
       release item app' = Some app'' /\
       scr_mngr_current app'' = lower last_name /\
       menu_dismissed app'' = true).
Proof.
  intros Hlist. split.
  - intros Hne. unfold set_menu_for_demo_apps.
    destruct (menu_for_demo_apps app); [congruence | reflexivity].
  - intros Hempty. unfold set_menu_for_demo_apps. rewrite Hempty, Hlist.
    cbn [length Nat.eqb]. cbv zeta.
    match goal with |- context [set_menu_loop ?c ?l ?a] =>
      destruct (set_menu_loop_spec c l a) as (Hm & Hc & _ & _) end.
    cbv zeta in Hm, Hc. cbn [menu_for_demo_apps List.app] in Hm.
    rewrite last_snoc in Hc. rewrite Hm.
    rewrite !map_map. cbn [text on_release default_x].
    split; [apply map_id|]. split; [apply map_id|].
    intros item Hitem. apply in_map_iff in Hitem.
    destruct Hitem as (n & <- & _).
    unfold release. cbn [on_release free_name_item]. rewrite Hc.
    eexists. split; [reflexivity|]. split; reflexivity.
Qed.

Variable dp : Q -> Q.

Lemma set_list_shop_loop_spec (range : list nat) (k : Z) (app : App) :
  let app' := set_list_shop_loop dp range k app in
  exists added,
    rv_main_data app' = rv_main_data app ++ added /\
    length added = length range /\
    rv_cart_data app' = rv_cart_data app /\
    menu_for_demo_apps app' = menu_for_demo_apps app.
Proof.
  revert k app. induction range as [|i range IH]; intros k app.
  - exists []. cbn. rewrite app_nil_r. repeat split.
  - cbn [set_list_shop_loop]. cbv zeta.
    match goal with |- context [set_list_shop_loop dp range ?k' ?a] =>
      destruct (IH k' a) as (added & Hm & Hl & Hc & Hmenu) end.
    cbv zeta in Hm, Hl, Hc, Hmenu.
    cbn [rv_main_data rv_cart_data menu_for_demo_apps set_rv_main_data]
      in Hm, Hc, Hmenu.
    eexists (_ :: added). rewrite Hm, Hc, Hmenu, <- app_assoc.
    split; [reflexivity|]. split; [cbn; now rewrite Hl | split; reflexivity].
Qed.

Lemma set_list_cart_loop_spec (range : list nat) (app : App) :
  let app' := set_list_cart_loop dp range app in
  exists added,
    rv_cart_data app' = rv_cart_data app ++ added /\
    length added = length range /\
    rv_main_data app' = rv_main_data app /\
    menu_for_demo_apps app' = menu_for_demo_apps app.
Proof.
  revert app. induction range as [|i range IH]; intros app.
  - exists []. cbn. rewrite app_nil_r. repeat split.
  - cbn [set_list_cart_loop].
    match goal with |- context [set_list_cart_loop dp range ?a] =>
      destruct (IH a) as (added & Hm & Hl & Hc & Hmenu) end.
    cbv zeta in Hm, Hl, Hc, Hmenu.
    cbn [rv_main_data rv_cart_data menu_for_demo_apps set_rv_cart_data]
      in Hm, Hc, Hmenu.
    cbv zeta. eexists (_ :: added). rewrite Hm, Hc, Hmenu, <- app_assoc.
    split; [reflexivity|]. split; [cbn; now rewrite Hl | split; reflexivity].
Qed.

(** X18.  Entering the shop window never clears its lists: each visit
    appends 5 cards to the catalogue and 11 to the cart behind the entries
    already there, so after [n] visits the lists are [5 * n] and [11 * n]
    entries longer. *)
Theorem shop_lists_grow_with_visits (n : nat) (app : App) :
  exists shop_added cart_added,
    rv_main_data (Nat.iter n (on_enter dp) app)
    = rv_main_data app ++ shop_added /\
    rv_cart_data (Nat.iter n (on_enter dp) app)
    = rv_cart_data app ++ cart_added /\
    length shop_added = (5 * n)%nat /\
    length cart_added = (11 * n)%nat.
Proof.
  induction n as [|n (sa & ca & Hs & Hc & Hls & Hlc)].
  - exists [], []. cbn. rewrite !app_nil_r. repeat split.
  - rewrite !Nat.iter_succ.
    set (visited := Nat.iter n (on_enter dp) app) in *.
    unfold on_enter, set_list_cart, set_list_shop.
    destruct (set_list_shop_loop_spec (seq 0 5) (-2) visited)
      as (sa' & Hs' & Hls' & Hcs' & _).
    destruct (set_list_cart_loop_spec (seq 0 11)
                (set_list_shop_loop dp (seq 0 5) (-2) visited))
      as (ca' & Hc' & Hlc' & Hm' & _).
    cbv zeta in *.
    exists (sa ++ sa'), (ca ++ ca').
    rewrite Hm', Hs', Hc', Hcs', Hs, Hc, <- !app_assoc.
    split; [reflexivity|]. split; [reflexivity|].
    rewrite !length_app, Hls, Hlc, Hls', Hlc'. cbn [length seq]. lia.
Qed.

End ShopWindowFacts.

(** * The further facts on examples *)

Lemma shadow_positions_after_update_witness :
  Elevation.hard_shadow_pos
    (final_state (Elevation._update_shadow (fun q => q) Elevation.raised_widget))
  = (0 - 2, 0 - 2)%Q /\
  (snd (Elevation.soft_shadow_pos
          (final_state
             (Elevation._update_shadow (fun q => q) Elevation.raised_widget)))
   == - (54 # 10))%Q.
Proof.
  destruct (shadow_positions_after_update (fun q => q) Elevation.raised_widget)
    as (Hhard & _ & Hsoft).
  split; [exact Hhard|].
  destruct Hsoft as [_ Hy]; [reflexivity | reflexivity | reflexivity |].
  rewrite Hy. reflexivity.
Defined.

Lemma shadow_origin_lags_one_update_witness :
  exists w1 w2,
    Elevation._update_shadow (fun q => q) Elevation.raised_widget = Ok tt w1 /\
    Elevation._update_shadow (fun q => q) w1 = Ok tt w2 /\
    Elevation.soft_shadow_size w2 = Elevation.soft_shadow_size w1.
Proof.
  destruct (shadow_origin_lags_one_update (fun q => q) Elevation.raised_widget)
    as (w1 & w2 & H1 & _ & H2 & Hs & _); [left; discriminate|].
  exists w1, w2. split; [exact H1|]. split; [exact H2 | exact Hs].
Defined.


Lemma update_shadow_without_hook_witness :
  exists w',
    Elevation._update_shadow (fun q => q)
      (Elevation.store__elevation 1
         (Elevation.new_widget Elevation.CommonElevationBehavior))
    = Raise NotImplementedError w' /\
    Elevation.hard_shadow_pos w' = (0 - 2, 0 - 2)%Q.
Proof.
  destruct (update_shadow_without_hook (fun q => q)
              (Elevation.store__elevation 1
                 (Elevation.new_widget Elevation.CommonElevationBehavior)))
    as (w' & Hrun & _ & _ & _ & _ & Hpos); [reflexivity | reflexivity |].
  exists w'. split; [exact Hrun | exact Hpos].
Defined.

Lemma update_shadow_flat_keeps_sizes_witness :
  exists w',
    Elevation._update_shadow (fun q => q)
      (Elevation.store__elevation 0
         (Elevation.set_hard_shadow (14, 14) Elevation.placeholder
            Elevation.raised_widget))
    = Ok tt w' /\
    Elevation.hard_shadow_size w' = (14, 14).
Proof.
  destruct (update_shadow_flat_keeps_sizes (fun q => q)
              (Elevation.store__elevation 0
                 (Elevation.set_hard_shadow (14, 14) Elevation.placeholder
                    Elevation.raised_widget)))
    as (w' & Hrun & Hh & _); [discriminate|].
  exists w'. split; [exact Hrun | exact Hh].
Defined.

Lemma on_shadow_group_moves_witness :
  let w := Elevation.store_shadow_group "cards" Elevation.raised_widget in
  let st := Elevation.mk_world {[ 0%nat := w ]}
              [("global"%string, [Elevation.mk_ref 0 0])] 1 1 in
  exists st' members,
    Elevation.on_shadow_group 0 st = Ok tt st' /\
    Elevation.dict_get "cards" (Elevation.__shadow_groups st')
    = Some (members ++ [Elevation.mk_ref 1 0]) /\
    Elevation.in_group 0 members = false.
Proof.
  intros w st.
  destruct (on_shadow_group_moves 0 st w "global" [Elevation.mk_ref 0 0])
    as (st' & members & Hrun & Hnew & Hclean & _).
  - reflexivity.
  - reflexivity.
  - discriminate.
  - reflexivity.
  - cbn. apply NoDup_cons_2; [apply not_elem_of_nil | apply NoDup_nil_2].
  - intros name g Hname Hg. unfold st in Hg.
    cbn [Elevation.dict_get Elevation.__shadow_groups] in Hg.
    destruct (String.eqb_spec "global" name); [congruence | discriminate].
  - exists st', members. split; [exact Hrun|]. split; [exact Hnew | exact Hclean].
Defined.

Lemma _clear_shadow_groups_removes_witness :
  let st := Elevation.mk_world {[ 0%nat := Elevation.raised_widget ]}
              [("global"%string, [Elevation.mk_ref 0 0]);
               ("cards"%string, [Elevation.mk_ref 1 1; Elevation.mk_ref 2 0])]
              2 3 in
  Elevation._clear_shadow_groups (Elevation.mk_ref 1 1) st
  = Ok tt (Elevation.set_groups
             [("global"%string, [Elevation.mk_ref 0 0]);
              ("cards"%string, [Elevation.mk_ref 2 0])] st).
Proof.
  intros st.
  destruct (_clear_shadow_groups_removes st (Elevation.mk_ref 1 1)
              [("global"%string, [Elevation.mk_ref 0 0])] "cards"
              [Elevation.mk_ref 1 1; Elevation.mk_ref 2 0] [])
    as (Hrun & _).
  - reflexivity.
  - reflexivity.
  - constructor; [|constructor]. split; [discriminate|].
    split; [discriminate|]. constructor; [cbn; lia | constructor].
  - left. reflexivity.
  - cbn. apply NoDup_cons_2;
      [apply not_elem_of_cons; split; [discriminate | apply not_elem_of_nil]|].
    apply NoDup_cons_2; [apply not_elem_of_nil | apply NoDup_nil_2].
  - exact Hrun.
Defined.

Lemma force_shadow_pos_updates_group_witness :
  let st := Elevation.mk_world {[ 0%nat := Elevation.raised_widget ]}
              [("global"%string, [Elevation.mk_ref 0 0])] 1 1 in
  exists st' w',
    Elevation.force_shadow_pos (fun q => q) 0 (3, 4)%Q st = Ok tt st' /\
    Elevation.heap st' !! 0%nat = Some w' /\
    (fst (Elevation.shadow_pos w') == 3)%Q.
Proof.
  intros st.
  destruct (force_shadow_pos_updates_group (fun q => q) 0 (3, 4)%Q st
              Elevation.raised_widget [Elevation.mk_ref 0 0])
    as (st' & Hrun & _ & Hin & _).
  - reflexivity.
  - reflexivity.
  - constructor; [eexists; reflexivity | constructor].
  - destruct (Hin (Elevation.mk_ref 0 0)) as (w' & Hw' & Hx & _);
      [left; reflexivity|].
    exists st', w'. split; [exact Hrun|]. split; [exact Hw' | exact Hx].
Defined.

Lemma create_then_drop_restores_witness :
  exists st',
    (do a <- Elevation.__init__ Elevation.CircularElevationBehavior;
     Elevation.drop_widget a;; ret a)%py Elevation.initial_world
    = Ok 0%nat st' /\
    Elevation.__shadow_groups st' = [("global"%string, [])] /\
    Elevation.heap st' = ∅.
Proof.
  destruct (create_then_drop_restores Elevation.CircularElevationBehavior
              Elevation.initial_world [] [])
    as (st' & Hrun & Hg & Hh & _).
  - split; [reflexivity|]. constructor; [constructor | constructor].
  - reflexivity.
  - exists st'. split; [exact Hrun|]. split; [exact Hg | exact Hh].
Defined.

Lemma update_theme_colors_missing_style_witness :
  Theming.update_theme_colors Theming.sample_rgba Theming.sample_hex
    (Theming.set_theme_style_field "Amoled" Theming.sample_manager)
  = Raise KeyError
      (Theming.set_theme_style_field "Amoled" Theming.sample_manager).
Proof.
  apply (update_theme_colors_missing_style (list Z) Theming.sample_rgba
           Theming.sample_hex).
  left. exists (Theming.sample_theme 0 true). split; reflexivity.
Defined.


Lemma disabled_hint_color_opposite_witness :
  exists color,
    Theming._get_disabled_hint_text_color Theming.sample_hex true
      Theming.sample_manager = Ok color Theming.sample_manager /\
    color !! 3%nat = Some (50 # 100)%Q.
Proof.
  destruct (disabled_hint_color_opposite (list Z) Theming.sample_hex
              sample_hex_length Theming.sample_manager)
    as (tm1 & color & Hswitch & Hopp & _ & _ & Halpha).
  { apply theme_style_options_cases. left. reflexivity. }
  exists color. split; [exact Hopp|].
  injection Hswitch as <-. exact Halpha.
Defined.

Lemma set_colors_from_palette_witness :
  exists tm',
    Theming.set_colors Theming.sample_rgba Theming.sample_hex
      [("blue", "0000FF")]%string "" (fun _ _ => None) Theming.sample_theme
      (fun _ => 0) (fun r g b => r) Theming.sample_manager
    = Ok tt tm' /\
    Theming.schemes_name_colors tm' = ["primary"; "background"]%string.
Proof.
  destruct (set_colors_from_palette (list Z) Theming.sample_rgba
              Theming.sample_hex [("blue", "0000FF")]%string ""
              (fun _ _ => None) Theming.sample_theme (fun _ => 0)
              (fun r g b => r) sample_hex_length Theming.sample_manager
              "Blue" "0000FF" 0 0 0 1
              Theming.sample_light)
    as (tm' & Hrun & _ & Hnames & _).
  - apply theme_style_options_cases. left. reflexivity.
  - reflexivity.
  - reflexivity.
  - discriminate.
  - reflexivity.
  - reflexivity.
  - reflexivity.
  - exists tm'. split; [exact Hrun | exact Hnames].
Defined.

Lemma set_colors_from_wallpaper_witness :
  exists tm',
    Theming.set_colors Theming.sample_rgba Theming.sample_hex
      [("blue", "0000FF")]%string "" (fun _ path => Some path)
      Theming.sample_theme (fun _ => 0) (fun r g b => r)
      (Theming.set_path_to_wallpaper_field "wall.png"
         (Theming.set_dynamic_color_field true Theming.sample_manager))
    = Ok tt tm' /\
    Theming.schemes_name_colors tm' = ["primary"; "background"]%string.
Proof.
  destruct (set_colors_from_wallpaper (list Z) Theming.sample_rgba
              Theming.sample_hex [("blue", "0000FF")]%string ""
              (fun _ path => Some path) Theming.sample_theme (fun _ => 0)
              (fun r g b => r) sample_hex_length
              (Theming.set_path_to_wallpaper_field "wall.png"
                 (Theming.set_dynamic_color_field true Theming.sample_manager))
              "wall.png"
              Theming.sample_light)
    as (tm' & Hrun & _ & Hnames & _).
  - apply theme_style_options_cases. left. reflexivity.
  - reflexivity.
  - reflexivity.
  - discriminate.
  - reflexivity.
  - exists tm'. split; [exact Hrun | exact Hnames].
Defined.

Lemma set_colors_falls_back_to_blue_witness :
  exists tm',
    Theming.set_colors Theming.sample_rgba Theming.sample_hex
      [("blue", "0000FF")]%string "" (fun _ _ => None)
      Theming.sample_theme (fun _ => 0) (fun r g b => r)
      (Theming.set_dynamic_color_field true
         (Theming.set_primary_palette_field None Theming.sample_manager))
    = Ok tt tm' /\
    Theming.primary_palette tm' = Some "Blue"%string /\
    Theming.pending tm' = [Theming.cb_set_colors].
Proof.
  destruct (set_colors_falls_back_to_blue (list Z) Theming.sample_rgba
              Theming.sample_hex [("blue", "0000FF")]%string ""
              (fun _ _ => None) Theming.sample_theme (fun _ => 0)
              (fun r g b => r) sample_hex_length
              (Theming.set_dynamic_color_field true
                 (Theming.set_primary_palette_field None
                    Theming.sample_manager))
              "0000FF" 0 0 0 1
              Theming.sample_light)
    as (tm' & Hrun & Hp & Hpend & _).
  - apply theme_style_options_cases. left. reflexivity.
  - reflexivity.
  - reflexivity.
  - reflexivity.
  - reflexivity.
  - reflexivity.
  - reflexivity.
  - exists tm'. split; [exact Hrun|]. split; [exact Hp | exact Hpend].
Defined.

Lemma menu_entries_open_last_app_witness :
  let app := ShopWindow.mk_app [] [] [] ["Shop Window"; "Coffee Menu"]%string
               "" false ∅ 0 in
  map ShopWindow.text
    (ShopWindow.menu_for_demo_apps (ShopWindow.set_menu_for_demo_apps app))
  = ["Shop Window"; "Coffee Menu"]%string /\
  forall item,
    In item
      (ShopWindow.menu_for_demo_apps (ShopWindow.set_menu_for_demo_apps app)) ->
    exists app',
      ShopWindow.release item (ShopWindow.set_menu_for_demo_apps app)
      = Some app' /\
      ShopWindow.scr_mngr_current app' = "coffee menu"%string.
Proof.
  intros app.
  destruct (menu_entries_open_last_app app ["Shop Window"%string]
              "Coffee Menu" eq_refl) as [_ Hfill].
  destruct (Hfill eq_refl) as (Htext & _ & Hrelease).
  split; [exact Htext|].
  intros item Hitem. destruct (Hrelease item Hitem) as (app' & Hrun & Hcur & _).
  exists app'. split; [exact Hrun | exact Hcur].
Defined.

Lemma set_colors_idempotent_witness :
  exists tm1,
    Theming.set_colors Theming.sample_rgba Theming.sample_hex
      [("blue", "0000FF")]%string "" (fun _ _ => None) Theming.sample_theme
      (fun _ => 0) (fun r g b => r) Theming.sample_manager = Ok tt tm1 /\
    Theming.set_colors Theming.sample_rgba Theming.sample_hex
      [("blue", "0000FF")]%string "" (fun _ _ => None) Theming.sample_theme
      (fun _ => 0) (fun r g b => r) tm1 = Ok tt tm1.
Proof.
  destruct (Theming.set_colors Theming.sample_rgba Theming.sample_hex
              [("blue", "0000FF")]%string "" (fun _ _ => None)
              Theming.sample_theme (fun _ => 0) (fun r g b => r)
              Theming.sample_manager) as [[] tm1 | e tm1] eqn:Hrun.
  - exists tm1. split; [reflexivity|].
    apply (set_colors_idempotent (list Z) Theming.sample_rgba
             Theming.sample_hex [("blue", "0000FF")]%string ""
             (fun _ _ => None) Theming.sample_theme (fun _ => 0)
             (fun r g b => r) Theming.sample_manager tm1 Hrun).
  - vm_compute in Hrun. discriminate Hrun.
Defined.

Lemma elevation_redraws_after_preset_witness :
  exists w1 w2,
    Elevation.shadow_preset (fun q => q)
      (Elevation.new_widget Elevation.RectangularElevationBehavior)
    = Ok tt w1 /\
    Elevation.set_elevation (fun q => q) (Some 1%Q) w1 = Ok tt w2 /\
    Elevation.soft_shadow_size w2 = (110, 110).
Proof.
  destruct (elevation_redraws_after_preset (fun q => q)
              (Elevation.new_widget Elevation.RectangularElevationBehavior)
              0 1)
    as (_ & w1 & w2 & Hpreset & Hset & _ & Hsize & _).
  - discriminate.
  - reflexivity.
  - reflexivity.
  - reflexivity.
  - discriminate.
  - discriminate.
  - exists w1, w2. split; [exact Hpreset|]. split; [exact Hset | exact Hsize].
Defined.

Lemma rounded_mask_inside_box_witness :
  exists ops,
    Elevation.__draw_shadow__ Elevation.rounded_widget (2, 2)%Q (21, 21)%Q
      Elevation.rounded_widget
    = Ok ops Elevation.rounded_widget /\
    Forall (fun op => Elevation.box_inside (2, 2)%Q (21, 21)%Q
                        (Elevation.op_box op)) ops.
Proof.
  apply (rounded_mask_inside_box Elevation.rounded_widget (2, 2)%Q (21, 21)%Q
           Elevation.rounded_widget 2 2 2 3).
  - reflexivity.
  - reflexivity.
  - repeat (apply Forall_cons_2;
            [split; [discriminate | split; discriminate]|]).
    apply Forall_nil_2.
Defined.
